(** * A shallow embedding of [scripts/rust_workspace_analyzer.py]

    The analysis engine of the repository (structural extractor, smell
    detector, duplicate detector, feature matrix builder, cycle detector and the
    pipeline that composes them) is transcribed into executable Rocq
    definitions, and the properties stated in the specification are then
    settled against these definitions.

    Conventions.
    - Python [str] is [string]; a character is a code point below 256, and the
      character classes [\s], [\w], [\d] follow Python's Unicode tables on that
      range.
    - Python [int] is [Z].
    - A Python [float] is the rational value ([Q]) of the double: a literal
      stands for the decimal it is written as, and what the program computes
      and then rounds with [round] is rounded to the nearest double at each
      operation, as IEEE 754 arithmetic does ([Float]).
    - A [dict] whose iteration order is observable is an association list in
      insertion order; a [set] is a [gset].
    - A raised exception is a value of [result].
    - The interpreter bounds the depth of recursion: the number of nested
      calls of a recursive function it still allows is a parameter of the
      function's model, and a deeper call raises [RecursionError].

    The file first gives the definitions (the program, the notions the
    properties are stated with, sample inputs, and the invariants the proofs
    use), then the lemmas and theorems, grouped by component. *)

From Stdlib Require Import ZArith QArith Ascii String List Lia.
From Stdlib Require Import SpecFloat.
From stdpp Require Import gmap strings list sorting.

Local Open Scope Z_scope.

(* ======================================================================= *)
(** * Python string primitives *)
(* ======================================================================= *)

Module Py.

Definition code (c : ascii) : N := N_of_ascii c.

(** [str.isspace] on code points below 256. *)
Definition is_space (c : ascii) : bool :=
  let n := code c in
  ((9 <=? n) && (n <=? 13) || (28 <=? n) && (n <=? 32)
   || (n =? 133) || (n =? 160))%N.

(** [\d]: decimal digits. *)
Definition is_digit (c : ascii) : bool :=
  let n := code c in ((48 <=? n) && (n <=? 57))%N.

(** [\w]: alphanumeric code points and the underscore. *)
Definition is_word (c : ascii) : bool :=
  let n := code c in
  ((48 <=? n) && (n <=? 57) || (65 <=? n) && (n <=? 90)
   || (97 <=? n) && (n <=? 122) || (n =? 95)
   || (n =? 170) || (n =? 178) || (n =? 179) || (n =? 181)
   || (n =? 185) || (n =? 186) || (188 <=? n) && (n <=? 190)
   || (192 <=? n) && (n <=? 214) || (216 <=? n) && (n <=? 246)
   || (248 <=? n))%N.

Definition newline : ascii := ascii_of_N 10.
Definition tab : ascii := ascii_of_N 9.

Definition nl : string := String newline EmptyString.

Fixpoint str_take (n : nat) (s : string) : string :=
  match n, s with
  | S n', String c s' => String c (str_take n' s')
  | _, _ => EmptyString
  end.

Fixpoint str_drop (n : nat) (s : string) : string :=
  match n, s with
  | S n', String _ s' => str_drop n' s'
  | _, _ => s
  end.

Fixpoint str_rev_onto (s acc : string) : string :=
  match s with
  | EmptyString => acc
  | String c s' => str_rev_onto s' (String c acc)
  end.

Definition str_rev (s : string) : string := str_rev_onto s EmptyString.

(** [len(s)] *)
Definition len (s : string) : Z := Z.of_nat (String.length s).

(** [s.startswith(p)] *)
Fixpoint startswith (p s : string) : bool :=
  match p, s with
  | EmptyString, _ => true
  | String a p', String b s' => if Ascii.eqb a b then startswith p' s' else false
  | String _ _, EmptyString => false
  end.

(** [needle in hay] *)
Fixpoint contains (needle hay : string) : bool :=
  if startswith needle hay then true
  else match hay with
       | EmptyString => false
       | String _ hay' => contains needle hay'
       end.

(** [s.count(c)] for a one-character [c]. *)
Fixpoint count_char (c : ascii) (s : string) : Z :=
  match s with
  | EmptyString => 0
  | String a s' => (if Ascii.eqb a c then 1 else 0) + count_char c s'
  end.

(** [hay.count(needle)]: non-overlapping occurrences, left to right
    ([needle] is never empty in this program). *)
Fixpoint count_from (fuel : nat) (needle hay : string) : Z :=
  match fuel with
  | O => 0
  | S fuel' =>
      match hay with
      | EmptyString => 0
      | String _ hay' =>
          if startswith needle hay
          then 1 + count_from fuel' needle
                     (str_drop (Nat.max 1 (String.length needle)) hay)
          else count_from fuel' needle hay'
      end
  end.

Definition count (needle hay : string) : Z :=
  count_from (String.length hay) needle hay.

(** [s.split(c)] for a one-character separator: never the empty list. *)
Fixpoint split_char (c : ascii) (s : string) : list string :=
  match s with
  | EmptyString => [EmptyString]
  | String a s' =>
      if Ascii.eqb a c then EmptyString :: split_char c s'
      else match split_char c s' with
           | x :: xs => String a x :: xs
           | [] => [String a EmptyString]
           end
  end.

(** [s.split(sep)] for a separator of any positive length. *)
Fixpoint split_str_from (fuel : nat) (sep s cur : string) : list string :=
  match fuel with
  | O => [str_rev cur]
  | S fuel' =>
      match s with
      | EmptyString => [str_rev cur]
      | String a s' =>
          if startswith sep s
          then str_rev cur
                 :: split_str_from fuel' sep
                      (str_drop (Nat.max 1 (String.length sep)) s) EmptyString
          else split_str_from fuel' sep s' (String a cur)
      end
  end.

Definition split_str (sep s : string) : list string :=
  split_str_from (S (String.length s)) sep s EmptyString.

(** [s.lstrip()], [s.rstrip()], [s.strip()] *)
Fixpoint lstrip (s : string) : string :=
  match s with
  | String c s' => if is_space c then lstrip s' else s
  | EmptyString => EmptyString
  end.

Definition rstrip (s : string) : string := str_rev (lstrip (str_rev s)).

Definition strip (s : string) : string := rstrip (lstrip s).

(** [s.replace(c, '')] for a one-character [c]. *)
Fixpoint remove_char (c : ascii) (s : string) : string :=
  match s with
  | EmptyString => EmptyString
  | String a s' =>
      if Ascii.eqb a c then remove_char c s' else String a (remove_char c s')
  end.

(** [sep.join(l)] *)
Fixpoint join (sep : string) (l : list string) : string :=
  match l with
  | [] => EmptyString
  | [x] => x
  | x :: xs => x +:+ sep +:+ join sep xs
  end.

(** [s.split()]: the maximal runs of non-whitespace characters. *)
Fixpoint words_from (s cur : string) : list string :=
  match s with
  | EmptyString =>
      match cur with EmptyString => [] | _ => [str_rev cur] end
  | String c s' =>
      if is_space c
      then match cur with
           | EmptyString => words_from s' EmptyString
           | _ => str_rev cur :: words_from s' EmptyString
           end
      else words_from s' (String c cur)
  end.

Definition words (s : string) : list string := words_from s EmptyString.

(** A slice bound brought into [0 .. n]: a negative bound counts from the
    end. *)
Definition clamp (n i : Z) : Z :=
  if i <? 0 then Z.max 0 (i + n) else Z.min i n.

(** [l[lo:hi]] *)
Definition slice {A} (l : list A) (lo hi : Z) : list A :=
  let n := Z.of_nat (length l) in
  let lo := clamp n lo in
  let hi := clamp n hi in
  take (Z.to_nat (hi - lo)) (drop (Z.to_nat lo) l).

(** Decimal rendering of an [int], as [str(n)] and f-strings do. *)
Fixpoint digits_from (fuel : nat) (n : N) (acc : string) : string :=
  match fuel with
  | O => acc
  | S fuel' =>
      let d := ascii_of_N (48 + n mod 10) in
      let q := (n / 10)%N in
      if (q =? 0)%N then String d acc else digits_from fuel' q (String d acc)
  end.

Definition str_of_int (z : Z) : string :=
  let body := digits_from (S (N.to_nat (N.log2 (Z.abs_N z))))
                (Z.abs_N z) EmptyString in
  if z <? 0 then String "-"%char body else body.

End Py.

(* ======================================================================= *)
(** * Regular expressions, with the matching order of Python's [re] *)
(* ======================================================================= *)

Module Re.

(** Abstract syntax of the fragment the program's patterns use. The flags of
    the anchors record whether the pattern was compiled with [re.M]. *)
Inductive regex : Type :=
| Eps : regex
| Cls : (ascii -> bool) -> regex          (* one character of a class *)
| Seq : regex -> regex -> regex
| Alt : regex -> regex -> regex           (* first alternative preferred *)
| Star : bool -> regex -> regex           (* [true]: greedy, [false]: lazy *)
| Grp : nat -> regex -> regex             (* capturing group *)
| Bol : bool -> regex                     (* [^] *)
| Eol : bool -> regex                     (* [$] *)
| WordB : regex                           (* [\b] *)
| NotAfter : (ascii -> bool) -> regex     (* [(?<![...])] *)
| NotBefore : (ascii -> bool) -> regex.   (* [(?![...])] *)

Record mstate : Type := MState {
  st_prev : option ascii;          (* the character before the position *)
  st_pos : nat;
  st_rest : string;
  st_caps : list (nat * string)
}.

Definition head_is (p : ascii -> bool) (s : string) : bool :=
  match s with String c _ => p c | EmptyString => false end.

Definition prev_is (p : ascii -> bool) (o : option ascii) : bool :=
  match o with Some c => p c | None => false end.

Definition is_nl (c : ascii) : bool := Ascii.eqb c Py.newline.

Definition at_bol (multiline : bool) (st : mstate) : bool :=
  match st_prev st with
  | None => true
  | Some c => multiline && is_nl c
  end.

Definition at_eol (multiline : bool) (st : mstate) : bool :=
  match st_rest st with
  | EmptyString => true
  | String c EmptyString => is_nl c
  | String c _ => multiline && is_nl c
  end.

Definition at_wordb (st : mstate) : bool :=
  negb (Bool.eqb (prev_is Py.is_word (st_prev st))
                 (head_is Py.is_word (st_rest st))).

(** Backtracking matcher in continuation-passing style: [run r st k] tries the
    ways [r] can match at [st] in Python's priority order and hands each end
    state to [k] until [k] accepts. An iteration of a star that consumes
    nothing is not repeated. *)
Fixpoint run (r : regex) (st : mstate) (k : mstate -> option mstate)
  {struct r} : option mstate :=
  match r with
  | Eps => k st
  | Cls p =>
      match st_rest st with
      | String c s' =>
          if p c then k (MState (Some c) (S (st_pos st)) s' (st_caps st))
          else None
      | EmptyString => None
      end
  | Seq r1 r2 => run r1 st (fun st' => run r2 st' k)
  | Alt r1 r2 =>
      match run r1 st k with
      | Some x => Some x
      | None => run r2 st k
      end
  | Star greedy r' =>
      (fix loop (fuel : nat) (st : mstate) {struct fuel} : option mstate :=
         match fuel with
         | O => k st
         | S fuel' =>
             if greedy
             then match run r' st (fun st' =>
                          if (st_pos st <? st_pos st')%nat
                          then loop fuel' st' else None) with
                  | Some x => Some x
                  | None => k st
                  end
             else match k st with
                  | Some x => Some x
                  | None => run r' st (fun st' =>
                              if (st_pos st <? st_pos st')%nat
                              then loop fuel' st' else None)
                  end
         end) (S (String.length (st_rest st))) st
  | Grp n r' =>
      run r' st (fun st' =>
        k (MState (st_prev st') (st_pos st') (st_rest st')
             ((n, Py.str_take (st_pos st' - st_pos st) (st_rest st))
                :: st_caps st')))
  | Bol ml => if at_bol ml st then k st else None
  | Eol ml => if at_eol ml st then k st else None
  | WordB => if at_wordb st then k st else None
  | NotAfter p => if prev_is p (st_prev st) then None else k st
  | NotBefore p => if head_is p (st_rest st) then None else k st
  end.

(** A match object: span and captured groups (most recent binding first). *)
Record rmatch : Type := RMatch {
  m_start : nat;
  m_end : nat;
  m_groups : list (nat * string)
}.

Fixpoint assoc_nat (n : nat) (l : list (nat * string)) : option string :=
  match l with
  | [] => None
  | (i, s) :: l' => if (i =? n)%nat then Some s else assoc_nat n l'
  end.

(** [m.group(n)]: [None] when the group took no part in the match. *)
Definition group (m : rmatch) (n : nat) : option string :=
  assoc_nat n (m_groups m).

Definition match_at (r : regex) (prev : option ascii) (pos : nat)
  (rest : string) : option rmatch :=
  match run r (MState prev pos rest []) Some with
  | Some st => Some (RMatch pos (st_pos st) (st_caps st))
  | None => None
  end.

(** Leftmost match at or after the current position. *)
Fixpoint search_from (r : regex) (prev : option ascii) (pos : nat)
  (rest : string) : option rmatch :=
  match match_at r prev pos rest with
  | Some m => Some m
  | None =>
      match rest with
      | EmptyString => None
      | String c rest' => search_from r (Some c) (S pos) rest'
      end
  end.

(** [rx.search(s)] *)
Definition search (r : regex) (s : string) : option rmatch :=
  search_from r None 0 s.

(** [re.match(rx, s)] *)
Definition match_ (r : regex) (s : string) : option rmatch :=
  match_at r None 0 s.

(** Move [n] characters forward; [None] past the end of the text. *)
Fixpoint advance (n : nat) (prev : option ascii) (rest : string)
  : option (option ascii * string) :=
  match n with
  | O => Some (prev, rest)
  | S n' =>
      match rest with
      | EmptyString => None
      | String c rest' => advance n' (Some c) rest'
      end
  end.

(** [rx.finditer(s)]: successive non-overlapping matches. After a match the
    scan resumes at its end (one character further after an empty match; no
    pattern of this program matches the empty string). *)
Fixpoint finditer_from (fuel : nat) (r : regex) (prev : option ascii)
  (pos : nat) (rest : string) : list rmatch :=
  match fuel with
  | O => []
  | S fuel' =>
      match search_from r prev pos rest with
      | None => []
      | Some m =>
          let next := if (m_end m =? m_start m)%nat then S (m_end m)
                      else m_end m in
          match advance (next - pos) prev rest with
          | None => [m]
          | Some (prev', rest') =>
              m :: finditer_from fuel' r prev' next rest'
          end
      end
  end.

Definition finditer (r : regex) (s : string) : list rmatch :=
  finditer_from (S (String.length s)) r None 0 s.

(** [re.sub(rx, repl, s)] for a replacement without group references. *)
Fixpoint sub_matches (ms : list rmatch) (repl : string) (pos : nat)
  (s : string) : string :=
  match ms with
  | [] => s
  | m :: ms' =>
      Py.str_take (m_start m - pos) s +:+ repl
        +:+ sub_matches ms' repl (m_end m) (Py.str_drop (m_end m - pos) s)
  end.

Definition sub (r : regex) (repl s : string) : string :=
  sub_matches (finditer r s) repl 0 s.

(** ** Pattern combinators *)

Definition chr (c : ascii) : regex := Cls (Ascii.eqb c).
Definition notchr (c : ascii) : regex := Cls (fun a => negb (Ascii.eqb c a)).

Fixpoint mem_char (a : ascii) (s : string) : bool :=
  match s with
  | EmptyString => false
  | String c s' => Ascii.eqb a c || mem_char a s'
  end.

Definition oneof (s : string) : regex := Cls (fun a => mem_char a s).

Fixpoint lit (s : string) : regex :=
  match s with
  | EmptyString => Eps
  | String c EmptyString => chr c
  | String c s' => Seq (chr c) (lit s')
  end.

Fixpoint seq (rs : list regex) : regex :=
  match rs with
  | [] => Eps
  | [r] => r
  | r :: rs' => Seq r (seq rs')
  end.

Definition star (r : regex) : regex := Star true r.
Definition lazy_star (r : regex) : regex := Star false r.
Definition plus (r : regex) : regex := Seq r (Star true r).
Definition opt (r : regex) : regex := Alt r Eps.

Definition ws : regex := Cls Py.is_space.         (* \s *)
Definition wd : regex := Cls Py.is_word.          (* \w *)
Definition dg : regex := Cls Py.is_digit.         (* \d *)
Definition dot : regex := Cls (fun a => negb (is_nl a)).   (* . *)
Definition dot_all : regex := Cls (fun _ => true).         (* . with re.DOTALL *)

Fixpoint at_least (n : nat) (r : regex) : regex :=
  match n with
  | O => star r
  | S n' => Seq r (at_least n' r)
  end.

End Re.

(* ======================================================================= *)
(** * Exceptions *)
(* ======================================================================= *)

Inductive exn : Type :=
| IndexError : exn
| KeyError : exn
| RecursionError : exn.

Inductive result (A : Type) : Type :=
| Ok : A -> result A
| Raised : exn -> result A.

Arguments Ok {A} _.
Arguments Raised {A} _.

#[global] Instance result_ret : MRet result := fun A a => Ok a.

#[global] Instance result_bind : MBind result := fun A B f x =>
  match x with
  | Ok a => f a
  | Raised e => Raised e
  end.

(** A loop whose body may raise: the first exception ends it. *)
Fixpoint for_each {A B} (f : A -> result B) (l : list A) : result (list B) :=
  match l with
  | [] => Ok []
  | a :: l' => b ← f a; bs ← for_each f l'; Ok (b :: bs)
  end.

(** [l[i]]: a negative index counts from the end; out of range raises. *)
Definition getitem {A} (l : list A) (i : Z) : result A :=
  let j := if i <? 0 then i + Z.of_nat (length l) else i in
  if j <? 0 then Raised IndexError
  else match l !! Z.to_nat j with
       | Some a => Ok a
       | None => Raised IndexError
       end.

(* ======================================================================= *)
(** * Data classes *)
(* ======================================================================= *)

Record Symbol : Type := mkSymbol {
  s_name : string;
  s_kind : string;
  s_file : string;
  line_start : Z;
  line_end : Z;
  visibility : string;
  parent : option string;
  cfg_features : list string;
  s_doc_lines : Z
}.

Record Import : Type := mkImport {
  i_path : string;
  i_file : string;
  i_line : Z;
  alias : option string;
  is_glob : bool
}.

Record FeatureGate : Type := mkFeatureGate {
  feature : string;
  g_file : string;
  g_line : Z;
  g_kind : string;
  scope : string
}.

Record ModuleInfo : Type := mkModuleInfo {
  m_name : string;
  path : string;
  crate_name : string;
  symbols : list Symbol;
  imports : list Import;
  feature_gates : list FeatureGate;
  lines : Z;
  doc_lines : Z;
  complexity_score : Q
}.

Record Smell : Type := mkSmell {
  kind : string;
  severity : string;
  file : string;
  line : Z;
  message : string;
  context : string;
  suggestion : string;
  confidence : Q;
  evidence : list string
}.

(** One entry of [DuplicateCluster.locations]. *)
Record Location : Type := mkLocation {
  loc_file : string;
  loc_line_start : Z;
  loc_line_end : Z
}.

Record DuplicateCluster : Type := mkDuplicateCluster {
  signature : string;
  locations : list Location;
  excerpt : string;
  similarity : Q
}.

Record DependencyEdge : Type := mkDependencyEdge {
  from_crate : string;
  to_crate : string;
  e_kind : string;
  e_features : list string;
  optional : bool
}.

(* ======================================================================= *)
(** * The patterns of [PATTERNS] *)
(* ======================================================================= *)

Module Patterns.
Import Re.

Definition dq : ascii := ascii_of_N 34.     (* the double quote *)
Definition sq : ascii := ascii_of_N 39.     (* the single quote *)
Definition bs : ascii := ascii_of_N 92.     (* the backslash *)

(** [(pub(?:\([^)]*\))?\s+)?] as group 1 *)
Definition vis_group : regex :=
  opt (Grp 1 (seq [lit "pub";
                   opt (seq [chr "("; star (notchr ")"); chr ")"]);
                   plus ws])).

(** [(?:pub(?:\([^)]*\))?\s+)?] *)
Definition vis_nogroup : regex :=
  opt (seq [lit "pub";
            opt (seq [chr "("; star (notchr ")"); chr ")"]);
            plus ws]).

(** [^\s*(pub(?:\([^)]*\))?\s+)?KEYWORD\s+(\w+)] *)
Definition item (keyword : string) : regex :=
  seq [Bol true; star ws; vis_group; lit keyword; plus ws; Grp 2 (plus wd)].

(** [^\s*(pub(?:\([^)]*\))?\s+)?mod\s+(\w+)\s*[;{]]; an entry of the table
    that the extractor does not use. *)
Definition mod_decl : regex :=
  seq [Bol true; star ws; vis_group; lit "mod"; plus ws; Grp 2 (plus wd);
       star ws; oneof ";{"].

Definition use_stmt : regex :=
  seq [Bol true; star ws; vis_nogroup; lit "use"; plus ws;
       Grp 1 (plus (notchr ";")); chr ";"].

Definition struct_ : regex := item "struct".
Definition enum : regex := item "enum".
Definition trait : regex := item "trait".

(** [^\s*impl(?:<[^>]+>)?\s+(?:(\w+)\s+for\s+)?(\w+)] *)
Definition impl_block : regex :=
  seq [Bol true; star ws; lit "impl";
       opt (seq [chr "<"; plus (notchr ">"); chr ">"]);
       plus ws;
       opt (seq [Grp 1 (plus wd); plus ws; lit "for"; plus ws]);
       Grp 2 (plus wd)].

(** [^\s*(pub(?:\([^)]*\))?\s+)?(?:async\s+)?(?:const\s+)?(?:unsafe\s+)?fn\s+(\w+)] *)
Definition fn_sig : regex :=
  seq [Bol true; star ws; vis_group;
       opt (seq [lit "async"; plus ws]);
       opt (seq [lit "const"; plus ws]);
       opt (seq [lit "unsafe"; plus ws]);
       lit "fn"; plus ws; Grp 2 (plus wd)].

Definition const_def : regex := item "const".
Definition type_alias : regex := item "type".
Definition macro_def : regex := item "macro_rules!".

(** [#\[cfg\s*\(\s*feature\s*=\s*\x22([^\x22]+)\x22\s*\)\]], writing [\x22]
    for the double quote *)
Definition cfg_feature : regex :=
  seq [lit "#[cfg"; star ws; chr "("; star ws; lit "feature"; star ws;
       chr "="; star ws; chr dq; Grp 1 (plus (notchr dq)); chr dq;
       star ws; lit ")]"].

(** [#\[cfg\s*\(\s*any\s*\([^)]*feature\s*=\s*\x22([^\x22]+)\x22] *)
Definition cfg_any_feature : regex :=
  seq [lit "#[cfg"; star ws; chr "("; star ws; lit "any"; star ws; chr "(";
       star (notchr ")"); lit "feature"; star ws; chr "="; star ws;
       chr dq; Grp 1 (plus (notchr dq)); chr dq].

(** [#\[cfg_attr\s*\(\s*feature\s*=\s*\x22([^\x22]+)\x22] *)
Definition cfg_attr_feature : regex :=
  seq [lit "#[cfg_attr"; star ws; chr "("; star ws; lit "feature"; star ws;
       chr "="; star ws; chr dq; Grp 1 (plus (notchr dq)); chr dq].

(** [\x22(?:[^\x22\\]|\\.)*\x22] *)
Definition string_literal : regex :=
  seq [chr dq;
       star (Alt (Cls (fun a => negb (Ascii.eqb a dq || Ascii.eqb a bs)))
                 (Seq (chr bs) dot));
       chr dq].

(** [\x27(?:[^\x27\\]|\\.)\x27], writing [\x27] for the single quote *)
Definition char_literal : regex :=
  seq [chr sq;
       Alt (Cls (fun a => negb (Ascii.eqb a sq || Ascii.eqb a bs)))
           (Seq (chr bs) dot);
       chr sq].

(** [//.*$], compiled with or without [re.MULTILINE] *)
Definition line_comment (multiline : bool) : regex :=
  seq [lit "//"; star dot; Eol multiline].

(** [/\*.*?\*/] with [re.DOTALL] *)
Definition block_comment : regex :=
  seq [lit "/*"; lazy_star dot_all; lit "*/"].

(** [\s+] *)
Definition whitespace_run : regex := plus ws.

End Patterns.

(* ======================================================================= *)
(** * Structural extractor *)
(* ======================================================================= *)

Definition group_str (m : Re.rmatch) (n : nat) : string :=
  default EmptyString (Re.group m n).

(** [content[:m.start()].count('\n') + 1] *)
Definition line_of (content : string) (m : Re.rmatch) : Z :=
  Py.count_char Py.newline (Py.str_take (Re.m_start m) content) + 1.

(** The two [re.sub] calls at the head of the loop body of
    [estimate_symbol_end]. *)
Definition strip_strings_and_comments (line : string) : string :=
  Re.sub (Patterns.line_comment false) ""
    (Re.sub Patterns.string_literal "" line).

(** The body of the [for] loop of [estimate_symbol_end], over the lines of the
    scan window; [None] when the loop runs to its end without returning. *)
Fixpoint estimate_scan (window : list string) (i : Z) (brace_count : Z)
  (started : bool) : option Z :=
  match window with
  | [] => None
  | l :: window' =>
      let l := strip_strings_and_comments l in
      let brace_count :=
        brace_count + (Py.count_char "{" l - Py.count_char "}" l) in
      let started := started || Py.contains "{" l in
      if started && (brace_count =? 0) then Some (i + 1)
      else if negb started && Py.contains ";" l then Some (i + 1)
      else estimate_scan window' (i + 1) brace_count started
  end.

(** The lines [lines[i]] for [i] in
    [range(start_idx, min(start_idx + 500, len(lines)))]. Callers pass
    [line_num - 1] with [1 <= line_num], so [start_idx] is never negative. *)
Definition scan_window (lines : list string) (start_idx : Z) : list string :=
  take (Z.to_nat (Z.min (start_idx + 500) (Z.of_nat (length lines)) - start_idx))
       (drop (Z.to_nat start_idx) lines).

Definition estimate_symbol_end (lines : list string) (start_idx : Z) : Z :=
  match estimate_scan (scan_window lines start_idx) start_idx 0 false with
  | Some e => e
  | None => start_idx + 1
  end.

Definition decision_keywords : list string :=
  ["if"; "else"; "match"; "while"; "for"; "loop"; "?"; "&&"; "||"].

(** ** Floats *)

Module Float.

(** The integer nearest to [n / d], the even one of two that are equally
    near; [d] is positive. *)
Definition nearest_int (n d : Z) : Z :=
  let fl := n / d in
  let r := 2 * (n mod d) in
  if r <? d then fl
  else if d <? r then fl + 1
  else if Z.even fl then fl else fl + 1.

(** [2 ^ e] when [e] is positive, and 1 otherwise. *)
Definition pow2 (e : Z) : Z := 2 ^ Z.max 0 e.

(** The exponent of the last place of the double nearest to [n / d], for
    positive [n] and [d]: the [e] with [2^52 <= (n / d) / 2^e < 2^53], and
    [-1074] when that is lower (a subnormal). *)
Definition last_place (n d : Z) : Z :=
  let e := Z.log2 n - Z.log2 d - 53 in
  Z.max (if 2 ^ 53 * (d * pow2 e) <=? n * pow2 (- e) then e + 1 else e)
        (- 1074).

(** The value of the double nearest to [q], the one with the even
    significand of two that are equally near: [q] is written in units of the
    last place, [(n * 2^-e) / d] or [n / (d * 2^e)], and rounded to an
    integer. The quantities the program computes are far below [2^1024],
    where a double overflows. *)
Definition nearest (q : Q) : Q :=
  let n := Z.abs (Qnum q) in
  let d := Zpos (Qden q) in
  if n =? 0 then 0%Q
  else
    let e := last_place n d in
    let m := Z.sgn (Qnum q) * nearest_int (n * pow2 (- e)) (d * pow2 e) in
    Qmake (m * pow2 e) (Z.to_pos (pow2 (- e))).

(** [float(z)], and the sum, product and quotient of two floats: the exact
    result, rounded. *)
Definition of_int (z : Z) : Q := nearest (inject_Z z).
Definition add (x y : Q) : Q := nearest (x + y).
Definition mul (x y : Q) : Q := nearest (x * y).
Definition div (x y : Q) : Q := nearest (x / y).

(** The value of a float of the library's specification of IEEE 754, against
    which [nearest] is checked below. *)
Definition value (x : spec_float) : option Q :=
  match x with
  | S754_zero _ => Some 0%Q
  | S754_finite s m e =>
      let v := Qmake (Zpos m * pow2 e) (Z.to_pos (pow2 (- e))) in
      Some (if s then Qopp v else v)
  | _ => None
  end.

(** The library's binary64 quotient of the integers [i] and [u] has the
    value [nearest] gives. *)
Definition agrees_on (i u : Z) : bool :=
  match value (SFdiv 53 1024 (binary_normalize 53 1024 i 0 false)
                             (binary_normalize 53 1024 u 0 false)) with
  | Some v => Qeq_bool v (nearest (i # Z.to_pos u))
  | None => false
  end.

End Float.

(** [round(x, 2)] of the float of value [x]: the decimal with two places
    nearest to the value of the double, the even one of two that are equally
    near. What [round] returns is the double nearest to that decimal, which
    is written here as the decimal. *)
Definition round2 (x : Q) : Q :=
  Qmake (Float.nearest_int (Qnum x * 100) (Zpos (Qden x))) 100.

(** [calculate_complexity]: the count of decision points per hundred lines.
    [score] is a float from its first assignment on. *)
Definition calculate_complexity (content : string) (lines : list string) : Q :=
  let sp := String " " EmptyString in
  let score :=
    fold_left (fun acc kw =>
      Float.add acc
        (Float.of_int (Py.count (sp +:+ kw +:+ sp) content
                       + Py.count (sp +:+ kw +:+ "(") content
                       + Py.count (String Py.tab kw +:+ sp) content)))
      decision_keywords 0%Q in
  let score := match lines with
               | [] => score
               | _ => Float.mul (Float.div score
                                   (Float.of_int (Z.of_nat (length lines))))
                                (Float.of_int 100)
               end in
  round2 score.

(** ** [pathlib] on POSIX paths: the parts of a path are its non-empty
    components other than ["."]. *)

Definition path_parts (p : string) : list string :=
  filter (fun s => s ≠ EmptyString ∧ s ≠ ".") (Py.split_char "/" p).

(** [Path(p).name] *)
Definition path_name (p : string) : string := default EmptyString (last (path_parts p)).

(** Index of the last ["."] of a name, as [name.rfind('.')]. *)
Fixpoint rfind_dot (s : string) (i : Z) (found : Z) : Z :=
  match s with
  | EmptyString => found
  | String c s' => rfind_dot s' (i + 1) (if Ascii.eqb c "." then i else found)
  end.

(** [Path(p).stem] *)
Definition path_stem (p : string) : string :=
  let name := path_name p in
  let i := rfind_dot name 0 (-1) in
  if (0 <? i) && (i <? Py.len name - 1) then Py.str_take (Z.to_nat i) name
  else name.

(** [Path(p).parent.name] *)
Definition path_parent_name (p : string) : string :=
  path_name (Py.join "/" (removelast (path_parts p))).

(** The module name derived from the path. *)
Definition module_name (file_path crate_name : string) : string :=
  let name := path_stem file_path in
  if bool_decide (name = "mod") then path_parent_name file_path
  else if bool_decide (name = "lib") || bool_decide (name = "main") then crate_name
  else name.

Definition is_doc_line (l : string) : bool :=
  Py.startswith "///" (Py.strip l) || Py.startswith "//!" (Py.strip l).

(** The imports loop. *)
Definition extract_imports (content file_path : string) : list Import :=
  map (fun m =>
         let path_str := Py.strip (group_str m 1) in
         mkImport path_str file_path (line_of content m) None
           (Py.contains "::*" path_str))
      (Re.finditer Patterns.use_stmt content).

(** The three feature-gate patterns with the gate kind
    [pattern_name.replace('_feature', '')] of each. *)
Definition gate_patterns : list (string * Re.regex) :=
  [("cfg", Patterns.cfg_feature);
   ("cfg_any", Patterns.cfg_any_feature);
   ("cfg_attr", Patterns.cfg_attr_feature)].

(** One feature gate; [scope] is [lines[line_num] if line_num <= len(lines)
    else ''], which indexes one past the matched line. *)
Definition extract_gate (content file_path : string) (lines : list string)
  (kind : string) (m : Re.rmatch) : result FeatureGate :=
  let line_num := line_of content m in
  sc ← (if line_num <=? Z.of_nat (length lines) then getitem lines line_num
        else Ok EmptyString);
  Ok (mkFeatureGate (group_str m 1) file_path line_num kind sc).

Definition extract_gates (content file_path : string) (lines : list string)
  : result (list FeatureGate) :=
  gs ← for_each (fun kp : string * Re.regex =>
                  for_each (extract_gate content file_path lines (fst kp))
                           (Re.finditer (snd kp) content))
                gate_patterns;
  Ok (concat gs).

Definition symbol_patterns : list (string * Re.regex) :=
  [("struct", Patterns.struct_); ("enum", Patterns.enum);
   ("trait", Patterns.trait); ("fn", Patterns.fn_sig);
   ("const", Patterns.const_def); ("type", Patterns.type_alias);
   ("macro", Patterns.macro_def)].

(** Feature names of [cfg(feature)] attributes on the two lines before a
    definition. *)
Definition preceding_features (lines : list string) (line_num : Z) : list string :=
  if 1 <? line_num
  then map (fun m => group_str m 1)
         (Re.finditer Patterns.cfg_feature
            (Py.join Py.nl
               (Py.slice lines (Z.max 0 (line_num - 3)) (line_num - 1))))
  else [].

Definition extract_symbol (content file_path : string) (lines : list string)
  (kind : string) (m : Re.rmatch) : Symbol :=
  let line_num := line_of content m in
  let vis := match Re.group m 1 with
             | Some g => if Py.contains "pub" g then "pub" else "private"
             | None => "private"
             end in
  let end_line := estimate_symbol_end lines (line_num - 1) in
  mkSymbol (group_str m 2) kind file_path line_num end_line vis None
    (preceding_features lines line_num) 0.

Definition extract_impl (content file_path : string) (lines : list string)
  (m : Re.rmatch) : Symbol :=
  let line_num := line_of content m in
  let trait_name := group_str m 1 in
  let type_name := group_str m 2 in
  let end_line := estimate_symbol_end lines (line_num - 1) in
  mkSymbol
    ("impl " +:+ (if bool_decide (trait_name = EmptyString) then EmptyString
                  else trait_name +:+ " for ") +:+ type_name)
    "impl" file_path line_num end_line "pub" (Some type_name) [] 0.

Definition extract_symbols (content file_path : string) (lines : list string)
  : list Symbol :=
  flat_map (fun kp : string * Re.regex =>
              map (extract_symbol content file_path lines (fst kp))
                  (Re.finditer (snd kp) content))
           symbol_patterns
  ++ map (extract_impl content file_path lines)
       (Re.finditer Patterns.impl_block content).

Definition extract_symbols_regex (content file_path crate_name : string)
  : result ModuleInfo :=
  let lines := Py.split_char Py.newline content in
  let name := module_name file_path crate_name in
  let n_doc := Z.of_nat (length (filter (fun l => is_doc_line l = true) lines)) in
  let imps := extract_imports content file_path in
  gates ← extract_gates content file_path lines;
  let syms := extract_symbols content file_path lines in
  Ok (mkModuleInfo name file_path crate_name syms imps gates
        (Z.of_nat (length lines)) n_doc
        (calculate_complexity content lines)).

(* ======================================================================= *)
(** * Normalisation, shingles and similarity *)
(* ======================================================================= *)

Definition two_dq : string := String Patterns.dq (String Patterns.dq EmptyString).
Definition two_sq : string := String Patterns.sq (String Patterns.sq EmptyString).

Definition normalize_code (code : string) : string :=
  let code := Re.sub Patterns.block_comment "" code in
  let code := Re.sub (Patterns.line_comment true) "" code in
  let code := Re.sub Patterns.string_literal two_dq code in
  let code := Re.sub Patterns.char_literal two_sq code in
  let code := Re.sub Patterns.whitespace_run " " code in
  Py.strip code.

Section Shingles.

(** The built-in [hash] on strings. Its values change from one interpreter
    process to the next unless the hash seed is pinned, so nothing is assumed
    about it. *)
Variable hash : string -> Z.

Definition compute_shingle_hash (text : string) (k : nat) : gset Z :=
  let words := Py.words text in
  if (length words <? k)%nat then {[ hash text ]}
  else list_to_set
         (map (fun i => hash (Py.join " " (take k (drop i words))))
              (seq 0 (length words - k + 1))).

End Shingles.

(** [intersection / union]. The quotient of the two set sizes is kept exact;
    the float the program computes is the double nearest to it. *)
Definition jaccard_similarity (set1 set2 : gset Z) : Q :=
  if bool_decide (set1 = ∅) || bool_decide (set2 = ∅) then 0%Q
  else
    let intersection := size (set1 ∩ set2) in
    let union := size (set1 ∪ set2) in
    if (0 <? union)%nat
    then Qmake (Z.of_nat intersection) (Pos.of_nat union)
    else 0%Q.

(* ======================================================================= *)
(** * Smell detection *)
(* ======================================================================= *)

Module SmellPatterns.
Import Re.

(** [console\.log|\.forEach\s*\(|\.map\s*\(\s*\w+\s*=>] *)
Definition wrong_lang_js : regex :=
  Alt (lit "console.log")
      (Alt (seq [lit ".forEach"; star ws; chr "("])
           (seq [lit ".map"; star ws; chr "("; star ws; plus wd; star ws;
                 lit "=>"])).

(** [\bdef\s+\w+\s*\(|^\s*pass\s*$] *)
Definition wrong_lang_py : regex :=
  Alt (seq [WordB; lit "def"; plus ws; plus wd; star ws; chr "("])
      (seq [Bol true; star ws; lit "pass"; star ws; Eol true]).

(** [\bNAME!\s*\(] *)
Definition macro_call (name : string) : regex :=
  seq [WordB; lit name; chr "!"; star ws; chr "("].

Definition todo_macro : regex := macro_call "todo".
Definition unimplemented : regex := macro_call "unimplemented".

(** [fn\s+\w+[^{]+\{\s*\}] *)
Definition empty_fn : regex :=
  seq [lit "fn"; plus ws; plus wd; plus (notchr "{"); chr "{"; star ws;
       chr "}"].

(** [\bunsafe\s*\{] *)
Definition unsafe_block : regex := seq [WordB; lit "unsafe"; star ws; chr "{"].

(** [\btransmute\b] *)
Definition transmute : regex := seq [WordB; lit "transmute"; WordB].

(** [\.unwrap\(\)\.unwrap\(\)] *)
Definition unwrap_chain : regex := lit ".unwrap().unwrap()".

Definition dbg_macro : regex := macro_call "dbg".

(** [use\s+\w+(?:::\w+)*::\*;] *)
Definition wildcard_import : regex :=
  seq [lit "use"; plus ws; plus wd; star (seq [lit "::"; plus wd]);
       lit "::*;"].

Definition dot_or_word (a : ascii) : bool := Ascii.eqb a "." || Py.is_word a.

(** [(?<![.\w])\d{5,}(?![.\w])] *)
Definition magic_number : regex :=
  seq [NotAfter dot_or_word; at_least 5 dg; NotBefore dot_or_word].

(** [^\s*(?:pub(?:\([^)]*\))?\s+)?(?:async\s+)?fn\s+\w+], the function-start
    marker of the long-function scan (compiled without flags). *)
Definition fn_start : regex :=
  seq [Bol false; star ws; Patterns.vis_nogroup;
       opt (seq [lit "async"; plus ws]); lit "fn"; plus ws; plus wd].

End SmellPatterns.

(** One row of [SMELL_PATTERNS] joined with its row of [SMELL_SUGGESTIONS]. *)
Record smell_rule : Type := mkRule {
  r_kind : string;
  r_pattern : Re.regex;
  r_severity : string;
  r_message : string;
  r_suggestion : string
}.

Definition SMELL_PATTERNS : list smell_rule :=
  [mkRule "wrong_lang_js" SmellPatterns.wrong_lang_js "error"
     "JavaScript code in Rust file" "REMOVE - wrong language";
   mkRule "wrong_lang_py" SmellPatterns.wrong_lang_py "error"
     "Python code in Rust file" "REMOVE - wrong language";
   mkRule "todo_macro" SmellPatterns.todo_macro "warning"
     "todo!() placeholder" "Implement or track in issue";
   mkRule "unimplemented" SmellPatterns.unimplemented "warning"
     "unimplemented!() stub" "Implement the function";
   mkRule "empty_fn" SmellPatterns.empty_fn "warning"
     "Empty function body" "Implement function body";
   mkRule "unsafe_block" SmellPatterns.unsafe_block "info"
     "unsafe block (audit required)" "Document safety invariants";
   mkRule "transmute" SmellPatterns.transmute "warning"
     "transmute (extremely unsafe)" "Use safe alternatives";
   mkRule "unwrap_chain" SmellPatterns.unwrap_chain "warning"
     "Double unwrap chain" "Use ? or and_then";
   mkRule "dbg_macro" SmellPatterns.dbg_macro "info"
     "dbg!() macro (debug leftover)" "Remove before release";
   mkRule "wildcard_import" SmellPatterns.wildcard_import "info"
     "Wildcard import" "Use explicit imports";
   mkRule "magic_number" SmellPatterns.magic_number "info"
     "Magic number" "Extract to named constant"].

(** [enumerate(l, start)] *)
Fixpoint enumerate {A} (start : Z) (l : list A) : list (Z * A) :=
  match l with
  | [] => []
  | a :: l' => (start, a) :: enumerate (start + 1) l'
  end.

Definition is_match (r : Re.regex) (s : string) : bool :=
  match Re.search r s with Some _ => true | None => false end.

(** The smells of one rule: one per line the pattern is found in. *)
Definition line_pattern_smells (file_path : string) (lines : list string)
  (r : smell_rule) : list Smell :=
  flat_map (fun il : Z * string =>
              if is_match (r_pattern r) (snd il)
              then [mkSmell (r_kind r) (r_severity r) file_path (fst il)
                      (r_message r) (Py.str_take 80 (Py.strip (snd il)))
                      (r_suggestion r) (9 # 10) []]
              else [])
           (enumerate 1 lines).

(** Indices of the lines that start a function. *)
Definition fn_starts (lines : list string) : list Z :=
  flat_map (fun il : Z * string =>
              match Re.match_ SmellPatterns.fn_start (snd il) with
              | Some _ => [fst il]
              | None => []
              end)
           (enumerate 0 lines).

(** The long-function loop: each start is paired with the next start, or with
    the number of lines for the last one. *)
Fixpoint long_function_smells (file_path : string) (lines : list string)
  (starts : list Z) : list Smell :=
  match starts with
  | [] => []
  | start :: rest =>
      let end_ := match rest with
                  | next :: _ => next
                  | [] => Z.of_nat (length lines)
                  end in
      let fn_len := end_ - start in
      (if 100 <? fn_len
       then [mkSmell "long_function" "warning" file_path (start + 1)
               (Py.str_of_int fn_len +:+ " line function")
               (Py.str_take 60
                  (Py.strip (default EmptyString (lines !! Z.to_nat start))))
               "Split into smaller functions" 1 []]
       else [])
      ++ long_function_smells file_path lines rest
  end.

Definition leading_spaces (l : string) : Z := Py.len l - Py.len (Py.lstrip l).

Definition deep_nesting_smells (file_path : string) (lines : list string)
  : list Smell :=
  flat_map (fun il : Z * string =>
              if 24 <=? leading_spaces (snd il)
              then [mkSmell "deep_nesting" "info" file_path (fst il)
                      "Deep nesting (6+ levels)"
                      (Py.str_take 60 (Py.strip (snd il)))
                      "Extract helper function" (8 # 10) []]
              else [])
           (enumerate 1 lines).

(** [detect_smells]. The source also binds [stripped = normalize_code(content)]
    and never reads it. *)
Definition detect_smells (content file_path : string) : list Smell :=
  let lines := Py.split_char Py.newline content in
  flat_map (line_pattern_smells file_path lines) SMELL_PATTERNS
  ++ long_function_smells file_path lines (fn_starts lines)
  ++ deep_nesting_smells file_path lines.

(** ** Imported-but-low-signal *)

(** The last [::]-separated part of an import path without its braces, cut at
    commas, each piece stripped, empty pieces dropped. *)
Definition imported_items (imp_path : string) : list string :=
  let parts := Py.split_str "::" (Py.remove_char "}" (Py.remove_char "{" imp_path)) in
  filter (fun s => s ≠ EmptyString)
    (map Py.strip (Py.split_char "," (default EmptyString (last parts)))).

(** [d[key].add(x)] on a [defaultdict(set)] kept in insertion order. *)
Fixpoint usage_add (key x : string) (d : list (string * gset string))
  : list (string * gset string) :=
  match d with
  | [] => [(key, {[ x ]})]
  | (k, s) :: d' =>
      if bool_decide (k = key) then (k, {[ x ]} ∪ s) :: d'
      else (k, s) :: usage_add key x d'
  end.

Section LowSignal.

(** [str(symbol)]: the text a symbol is rendered to, which depends on whether
    the caller passes symbols as data-class instances or as dictionaries. *)
Variable str_symbol : Symbol -> string.

(** [list(users)[0]] for a set of size one. *)
Definition the_user (users : gset string) : string :=
  default EmptyString (head (elements users)).

(** First loop: which functions mention an item of which import. *)
Definition import_usages (imps : list Import) (syms : list Symbol)
  : list (string * gset string) :=
  fold_left (fun d imp =>
    fold_left (fun d symbol =>
      if bool_decide (s_kind symbol = "fn")
      then fold_left (fun d item =>
             if Py.contains item (str_symbol symbol)
             then usage_add (i_path imp) (s_name symbol) d else d)
             (imported_items (i_path imp)) d
      else d)
      syms d)
    imps [].

(** Second loop, for one import used by exactly one function. *)
Definition low_signal_smells_for (mod_path : string) (syms : list Symbol)
  (imp_path fn_name : string) : list Smell :=
  flat_map (fun symbol =>
    if bool_decide (s_name symbol = fn_name) && bool_decide (s_kind symbol = "fn")
    then
      let fn_length := line_end symbol - line_start symbol in
      if fn_length <? 10
      then [mkSmell "imported_but_low_signal" "info" mod_path
              (line_start symbol)
              ("Import " +:+ String Patterns.dq imp_path
                 +:+ String Patterns.dq " only used in short function "
                 +:+ String Patterns.dq fn_name
                 +:+ String Patterns.dq EmptyString)
              (Py.str_of_int fn_length +:+ " line function")
              "Consider inlining or reviewing abstraction" (6 # 10)
              ["Import: " +:+ imp_path; "Function: " +:+ fn_name;
               "Length: " +:+ Py.str_of_int fn_length +:+ " lines"]]
      else []
    else [])
    syms.

Definition detect_imported_but_low_signal (module : ModuleInfo) : list Smell :=
  flat_map (fun iu : string * gset string =>
              if bool_decide (size (snd iu) = 1%nat)
              then low_signal_smells_for (path module) (symbols module)
                     (fst iu) (the_user (snd iu))
              else [])
           (import_usages (imports module) (symbols module)).

End LowSignal.

(* ======================================================================= *)
(** * Duplicate detection *)
(* ======================================================================= *)

(** One entry of a bucket of [fn_signatures]. *)
Record candidate : Type := mkCandidate {
  c_file : string;
  c_line_start : Z;
  c_line_end : Z;
  c_content : string;
  c_shingles : gset Z;
  c_name : string
}.

(** [fn_signatures[sig].append(c)], creating the bucket when it is missing. *)
Fixpoint bucket_add (sig : list Z) (c : candidate)
  (d : list (list Z * list candidate)) : list (list Z * list candidate) :=
  match d with
  | [] => [(sig, [c])]
  | (k, cs) :: d' =>
      if bool_decide (k = sig) then (k, cs ++ [c]) :: d'
      else (k, cs) :: bucket_add sig c d'
  end.

(** The pairs visited by [for i, c1 in enumerate(l): for c2 in l[i+1:]]. *)
Fixpoint pairs {A} (l : list A) : list (A * A) :=
  match l with
  | [] => []
  | x :: l' => map (pair x) l' ++ pairs l'
  end.

(** [f"{file}:{line_start}"] *)
Definition location_key (file : string) (line_start : Z) : string :=
  file +:+ ":" +:+ Py.str_of_int line_start.

(** [tuple(sorted([k1, k2]))] *)
Definition sorted_pair (k1 k2 : string) : string * string :=
  if String.ltb k2 k1 then (k2, k1) else (k1, k2).

Definition cluster_key (c1 c2 : candidate) : string * string :=
  sorted_pair (location_key (c_file c1) (c_line_start c1))
              (location_key (c_file c2) (c_line_start c2)).

(** The cluster of two candidates; [sim] is the exact quotient of the set
    sizes, and the similarity recorded is [round] of the float quotient. *)
Definition make_cluster (c1 c2 : candidate) (sim : Q) : DuplicateCluster :=
  mkDuplicateCluster
    (c_name c1 +:+ " ~ " +:+ c_name c2)
    [mkLocation (c_file c1) (c_line_start c1) (c_line_end c1);
     mkLocation (c_file c2) (c_line_start c2) (c_line_end c2)]
    (if 200 <? Py.len (c_content c1)
     then Py.str_take 200 (c_content c1) +:+ "..."
     else c_content c1)
    (round2 (Float.nearest sim)).

(** The body of the inner loop of stage 2, on the pair [(seen, clusters)]. The
    threshold test compares exact quotients: the float quotient of two set
    sizes lies on the same side of the float threshold unless the sets have
    more than [2^50] elements. *)
Definition compare_pair (similarity_threshold : Q)
  (st : gset (string * string) * list DuplicateCluster)
  (cc : candidate * candidate)
  : gset (string * string) * list DuplicateCluster :=
  let '(c1, c2) := cc in
  if bool_decide (c_file c1 = c_file c2) then st
  else
    let sim := jaccard_similarity (c_shingles c1) (c_shingles c2) in
    if Qle_bool similarity_threshold sim
    then
      let key := cluster_key c1 c2 in
      if bool_decide (key ∈ st.1) then st
      else ({[ key ]} ∪ st.1, st.2 ++ [make_cluster c1 c2 sim])
    else st.

Definition compare_bucket (similarity_threshold : Q)
  (st : gset (string * string) * list DuplicateCluster)
  (bucket : list Z * list candidate)
  : gset (string * string) * list DuplicateCluster :=
  if (length bucket.2 <? 2)%nat then st
  else fold_left (compare_pair similarity_threshold) (pairs bucket.2) st.

Section Duplicates.

Variable hash : string -> Z.

(** [safe_read]: the text of a file, or [None] when it is missing, unreadable
    or over the size ceiling. *)
Variable safe_read : string -> option string.

Definition candidate_of_symbol (mod_file_path : string) (lines : list string)
  (min_lines : Z) (symbol : Symbol) : list (list Z * candidate) :=
  if negb (bool_decide (s_kind symbol = "fn")) then []
  else
    let start := line_start symbol - 1 in
    let end_ := Z.min (line_end symbol) (Z.of_nat (length lines)) in
    if end_ - start <? min_lines then []
    else
      let fn_body := Py.join Py.nl (Py.slice lines start end_) in
      let normalized := normalize_code fn_body in
      let shingles := compute_shingle_hash hash normalized 3 in
      let sig := take 10 (merge_sort Z.le (elements shingles)) in
      [(sig, mkCandidate mod_file_path (line_start symbol) (line_end symbol)
               fn_body shingles (s_name symbol))].

Definition candidates_of_module (min_lines : Z) (module : ModuleInfo)
  : list (list Z * candidate) :=
  match safe_read (path module) with
  | None => []
  | Some content =>
      if bool_decide (content = EmptyString) then []
      else
        let lines := Py.split_char Py.newline content in
        flat_map (candidate_of_symbol (path module) lines min_lines)
                 (symbols module)
  end.

(** Stage 1. *)
Definition fn_signatures (modules : list (string * ModuleInfo)) (min_lines : Z)
  : list (list Z * list candidate) :=
  fold_left (fun d sc => bucket_add sc.1 sc.2 d)
    (flat_map (fun pm => candidates_of_module min_lines pm.2) modules) [].

Definition detect_duplicates (modules : list (string * ModuleInfo))
  (min_lines : Z) (similarity_threshold : Q) : list DuplicateCluster :=
  (fold_left (compare_bucket similarity_threshold)
     (fn_signatures modules min_lines) (∅, [])).2.

End Duplicates.

(* ======================================================================= *)
(** * Feature matrix *)
(* ======================================================================= *)

(** An entry of a feature's [symbols] list. *)
Record symbol_ref : Type := mkSymbolRef {
  ref_name : string;
  ref_kind : string;
  ref_file : string;
  ref_line : Z
}.

(** The value [matrix[feature]] while the matrix is built. *)
Record usage_acc : Type := mkAcc {
  acc_crates : gset string;
  acc_files : gset string;
  acc_symbols : list symbol_ref;
  acc_cfg_count : Z
}.

(** The value [result[feature]]. *)
Record feature_usage : Type := mkUsage {
  crates : list string;
  files : list string;
  usage_symbols : list symbol_ref;
  cfg_count : Z;
  spread : Z
}.

Definition empty_acc : usage_acc := mkAcc ∅ ∅ [] 0.

(** An update of [matrix[feature]] on the insertion-ordered [defaultdict]. *)
Fixpoint matrix_update (f : string) (upd : usage_acc -> usage_acc)
  (m : list (string * usage_acc)) : list (string * usage_acc) :=
  match m with
  | [] => [(f, upd empty_acc)]
  | (k, a) :: m' =>
      if bool_decide (k = f) then (k, upd a) :: m'
      else (k, a) :: matrix_update f upd m'
  end.

Definition add_gate (crate_name mod_path : string) (a : usage_acc) : usage_acc :=
  mkAcc ({[ crate_name ]} ∪ acc_crates a) ({[ mod_path ]} ∪ acc_files a)
        (acc_symbols a) (acc_cfg_count a + 1).

Definition add_symbol (crate_name mod_path : string) (symbol : Symbol)
  (a : usage_acc) : usage_acc :=
  mkAcc ({[ crate_name ]} ∪ acc_crates a) ({[ mod_path ]} ∪ acc_files a)
        (acc_symbols a
           ++ [mkSymbolRef (s_name symbol) (s_kind symbol) mod_path
                 (line_start symbol)])
        (acc_cfg_count a).

(** The body of the loop over [modules.items()]. *)
Definition matrix_add_module (m : list (string * usage_acc))
  (pm : string * ModuleInfo) : list (string * usage_acc) :=
  let '(mod_path, module) := pm in
  let m := fold_left (fun m gate =>
                        matrix_update (feature gate)
                          (add_gate (crate_name module) mod_path) m)
                     (feature_gates module) m in
  fold_left (fun m symbol =>
               fold_left (fun m f =>
                            matrix_update f
                              (add_symbol (crate_name module) mod_path symbol) m)
                         (cfg_features symbol) m)
            (symbols module) m.

Definition build_matrix (modules : list (string * ModuleInfo))
  : list (string * usage_acc) :=
  fold_left matrix_add_module modules [].

Section FeatureMatrix.

(** [list(s)] for a set of strings: some enumeration of its elements, in an
    order that follows the string hashes of the running interpreter. *)
Variable list_of_set : gset string -> list string.

Definition finish_usage (a : usage_acc) : feature_usage :=
  mkUsage (list_of_set (acc_crates a)) (list_of_set (acc_files a))
          (acc_symbols a) (acc_cfg_count a)
          (Z.of_nat (size (acc_files a))).

(** [build_feature_matrix]; the arguments [crates] and [features_by_crate] of
    the source are not read by it. *)
Definition build_feature_matrix (modules : list (string * ModuleInfo))
  : list (string * feature_usage) :=
  map (fun fa : string * usage_acc => (fa.1, finish_usage fa.2))
      (build_matrix modules).

End FeatureMatrix.

(* ======================================================================= *)
(** * Cycle detection *)
(* ======================================================================= *)

(** [graph[k].append(v)] on the insertion-ordered [defaultdict(list)]. *)
Fixpoint graph_add (k v : string) (g : list (string * list string))
  : list (string * list string) :=
  match g with
  | [] => [(k, [v])]
  | (k', vs) :: g' =>
      if bool_decide (k' = k) then (k', vs ++ [v]) :: g'
      else (k', vs) :: graph_add k v g'
  end.

(** [graph[node]]: the empty list for a node without outgoing edges. *)
Fixpoint graph_get (g : list (string * list string)) (node : string)
  : list string :=
  match g with
  | [] => []
  | (k, vs) :: g' => if bool_decide (k = node) then vs else graph_get g' node
  end.

Definition build_graph (edges : list DependencyEdge)
  : list (string * list string) :=
  fold_left (fun g e => graph_add (from_crate e) (to_crate e) g) edges [].

(** The three variables the nested function [dfs] closes over. *)
Record dfs_state : Type := mkDfs {
  cycles : list (list string);
  visited : gset string;
  rec_stack : gset string
}.

(** [path.index(x)] for an [x] known to occur in [path]. *)
Fixpoint index_of (x : string) (l : list string) : nat :=
  match l with
  | [] => 0
  | y :: l' => if bool_decide (y = x) then 0 else S (index_of x l')
  end.

(** What a call of [dfs] yields: the state it leaves and the value it returns
    ([None] for Python's [None]), or an exception. *)
Definition dfs_outcome : Type := result (dfs_state * option (list string)).

(** The [for neighbor in list(graph[node])] loop of [dfs] and the two
    statements after it; [rec] is the recursive call. [rec_stack.remove]
    raises [KeyError] on a missing element. *)
Fixpoint dfs_neighbors (rec : string -> list string -> dfs_state -> dfs_outcome)
  (node : string) (path : list string) (neighbors : list string)
  (st : dfs_state) : dfs_outcome :=
  match neighbors with
  | [] =>
      if bool_decide (node ∈ rec_stack st)
      then Ok (mkDfs (cycles st) (visited st) (rec_stack st ∖ {[ node ]}), None)
      else Raised KeyError
  | neighbor :: rest =>
      if bool_decide (neighbor ∉ visited st)
      then match rec neighbor (path ++ [neighbor]) st with
           | Raised e => Raised e
           | Ok (st', Some ((_ :: _) as res)) =>
               dfs_neighbors rec node path rest
                 (mkDfs (cycles st' ++ [res]) (visited st') (rec_stack st'))
           | Ok (st', _) => dfs_neighbors rec node path rest st'
           end
      else if bool_decide (neighbor ∈ rec_stack st)
              && bool_decide (neighbor ∈ path)
           then Ok (st, Some (drop (index_of neighbor path) path ++ [neighbor]))
           else dfs_neighbors rec node path rest st
  end.

(** The nested function [dfs]. [depth] is the number of nested calls of
    [dfs] the interpreter still allows: [sys.getrecursionlimit()], 1000
    unless it was changed, less the frames in use. A call beyond it raises
    [RecursionError], which nothing in the program catches. *)
Fixpoint dfs (depth : nat) (graph : list (string * list string))
  (node : string) (path : list string) (st : dfs_state) : dfs_outcome :=
  match depth with
  | O => Raised RecursionError
  | S depth' =>
      dfs_neighbors (dfs depth' graph) node path (graph_get graph node)
        (mkDfs (cycles st) ({[ node ]} ∪ visited st)
               ({[ node ]} ∪ rec_stack st))
  end.

(** The loop over [list(graph.keys())]; the value [dfs] returns at top level
    is dropped. *)
Fixpoint visit_all (depth : nat) (graph : list (string * list string))
  (keys : list string) (st : dfs_state) : result dfs_state :=
  match keys with
  | [] => Ok st
  | node :: keys' =>
      if bool_decide (node ∉ visited st)
      then match dfs depth graph node [node] st with
           | Raised e => Raised e
           | Ok (st', _) => visit_all depth graph keys' st'
           end
      else visit_all depth graph keys' st
  end.

(** The crates an edge list mentions. *)
Definition edge_nodes (edges : list DependencyEdge) : gset string :=
  list_to_set (flat_map (fun e => [from_crate e; to_crate e]) edges).

(** [detect_cycles], called where the interpreter allows [depth] nested
    calls of [dfs]. *)
Definition detect_cycles (depth : nat) (edges : list DependencyEdge)
  : result (list (list string)) :=
  let graph := build_graph edges in
  st ← visit_all depth graph (map fst graph) (mkDfs [] ∅ ∅);
  Ok (cycles st).

(* ======================================================================= *)
(** * The pipeline *)
(* ======================================================================= *)

(** ** [repr] of the dictionaries [asdict] produces *)

Definition hex_digit (n : N) : ascii :=
  if (n <? 10)%N then ascii_of_N (48 + n) else ascii_of_N (87 + n).

(** Code points [repr] writes as they are. *)
Definition is_printable (c : ascii) : bool :=
  let n := Py.code c in
  ((32 <=? n) && (n <=? 126) || (161 <=? n) && negb (n =? 173))%N.

Fixpoint repr_body (quote : ascii) (s : string) : string :=
  match s with
  | EmptyString => EmptyString
  | String c s' =>
      let rest := repr_body quote s' in
      if Ascii.eqb c quote || Ascii.eqb c Patterns.bs
      then String Patterns.bs (String c rest)
      else if Ascii.eqb c Py.newline then String Patterns.bs (String "n" rest)
      else if Ascii.eqb c Py.tab then String Patterns.bs (String "t" rest)
      else if (Py.code c =? 13)%N then String Patterns.bs (String "r" rest)
      else if is_printable c then String c rest
      else String Patterns.bs
             (String "x" (String (hex_digit (Py.code c / 16))
                            (String (hex_digit (Py.code c mod 16)) rest)))
  end.

(** [repr(s)]: single quotes unless the text has a single quote and no double
    quote. *)
Definition repr_str (s : string) : string :=
  let quote := if Re.mem_char Patterns.sq s && negb (Re.mem_char Patterns.dq s)
               then Patterns.dq else Patterns.sq in
  String quote (repr_body quote s +:+ String quote EmptyString).

Definition repr_list (l : list string) : string :=
  "[" +:+ Py.join ", " (map repr_str l) +:+ "]".

Definition repr_option (o : option string) : string :=
  match o with Some s => repr_str s | None => "None" end.

(** [str(asdict(symbol))] *)
Definition repr_symbol_dict (s : Symbol) : string :=
  "{'name': " +:+ repr_str (s_name s)
  +:+ ", 'kind': " +:+ repr_str (s_kind s)
  +:+ ", 'file': " +:+ repr_str (s_file s)
  +:+ ", 'line_start': " +:+ Py.str_of_int (line_start s)
  +:+ ", 'line_end': " +:+ Py.str_of_int (line_end s)
  +:+ ", 'visibility': " +:+ repr_str (visibility s)
  +:+ ", 'parent': " +:+ repr_option (parent s)
  +:+ ", 'cfg_features': " +:+ repr_list (cfg_features s)
  +:+ ", 'doc_lines': " +:+ Py.str_of_int (s_doc_lines s) +:+ "}".

(** ** What the pipeline reads from its collaborators *)

Record workspace : Type := mkWorkspace {
  ws_files : list string;              (* [rust_files] after the test filter
                                          and the [max_files] cut *)
  ws_read : string -> option string;   (* [safe_read] *)
  ws_crate : string -> string;         (* [get_crate_name] *)
  ws_edges : list DependencyEdge;      (* edges parsed from the metadata *)
  ws_depth : nat                       (* nested calls of [dfs] the interpreter
                                          allows in phase 7 *)
}.

(** The parts of [AnalysisResult] the analyses fill in. *)
Record analysis : Type := mkAnalysis {
  res_modules : list (string * ModuleInfo);
  res_feature_usage : list (string * feature_usage);
  res_smells : list Smell;
  res_duplicates : list DuplicateCluster
}.

(** [d[k] = v] on an insertion-ordered dictionary. *)
Fixpoint dict_set {V} (k : string) (v : V) (d : list (string * V))
  : list (string * V) :=
  match d with
  | [] => [(k, v)]
  | (k', v') :: d' =>
      if bool_decide (k' = k) then (k', v) :: d'
      else (k', v') :: dict_set k v d'
  end.

(** The worker [parse_file]: no module for a file that cannot be read or is
    empty. *)
Definition parse_file (ws : workspace) (file_path : string)
  : result (option ModuleInfo) :=
  match ws_read ws file_path with
  | None => Ok None
  | Some content =>
      if bool_decide (content = EmptyString) then Ok None
      else m ← extract_symbols_regex content file_path (ws_crate ws file_path);
           Ok (Some m)
  end.

(** The loop over [as_completed(futures)]: results are merged in the order
    [completion] in which the workers finish; [future.result()] re-raises a
    worker's exception. *)
Fixpoint merge_modules (ws : workspace) (completion : list string)
  (modules : list (string * ModuleInfo)) : result (list (string * ModuleInfo)) :=
  match completion with
  | [] => Ok modules
  | f :: completion' =>
      r ← parse_file ws f;
      merge_modules ws completion'
        (match r with
         | Some m => dict_set (path m) m modules
         | None => modules
         end)
  end.

Definition file_smells (ws : workspace) (file_path : string) : list Smell :=
  match ws_read ws file_path with
  | None => []
  | Some content =>
      if bool_decide (content = EmptyString) then []
      else detect_smells content file_path
  end.

Definition cycle_smell (cycle : list string) : Smell :=
  mkSmell "dependency_cycle" "warning" EmptyString 0
    ("Dependency cycle: " +:+ Py.join " -> " cycle) EmptyString
    "Break the cycle by restructuring dependencies" 1 cycle.

(** Phase 7. *)
Definition cycle_smells (depth : nat) (edges : list DependencyEdge)
  : result (list Smell) :=
  match edges with
  | [] => Ok []
  | _ => cs ← detect_cycles depth edges; Ok (map cycle_smell cs)
  end.

Section Pipeline.

Variable hash : string -> Z.
Variable list_of_set : gset string -> list string.

(** [analyze_workspace] from phase 3 on, for one order of completion of the
    parse workers. *)
Definition analyze_workspace (ws : workspace) (completion : list string)
  : result analysis :=
  modules ← merge_modules ws completion [];
  let usage := build_feature_matrix list_of_set modules in
  let smells :=
    flat_map (file_smells ws) (ws_files ws)
    ++ flat_map (fun pm : string * ModuleInfo =>
                   detect_imported_but_low_signal repr_symbol_dict pm.2)
                modules in
  let duplicates := detect_duplicates hash (ws_read ws) modules 5 (8 # 10) in
  cs ← cycle_smells (ws_depth ws) (ws_edges ws);
  Ok (mkAnalysis modules usage (smells ++ cs) duplicates).

End Pipeline.

(** ** The symbol index *)

(** [symbols_by_name[symbol.name].append(symbol)], with a new list for a
    name seen for the first time. *)
Fixpoint index_symbol (s : Symbol) (idx : list (string * list Symbol))
  : list (string * list Symbol) :=
  match idx with
  | [] => [(s_name s, [s])]
  | (k, ss) :: idx' =>
      if bool_decide (k = s_name s) then (k, ss ++ [s]) :: idx'
      else (k, ss) :: index_symbol s idx'
  end.

(** The loop over [as_completed(futures)] again, for the symbol index it
    fills beside the module index. *)
Fixpoint merge_symbols (ws : workspace) (completion : list string)
  (idx : list (string * list Symbol)) : result (list (string * list Symbol)) :=
  match completion with
  | [] => Ok idx
  | f :: completion' =>
      r ← parse_file ws f;
      merge_symbols ws completion'
        (match r with
         | Some m => fold_left (fun idx s => index_symbol s idx) (symbols m) idx
         | None => idx
         end)
  end.

(** [metrics['symbols']]: [sum(len(v) for v in symbols_by_name.values())] *)
Definition metric_symbols (idx : list (string * list Symbol)) : Z :=
  foldr (fun kv acc => Z.of_nat (length kv.2) + acc) 0 idx.

(* ======================================================================= *)
(** * Cargo metadata *)
(* ======================================================================= *)

Record CrateNode : Type := mkCrateNode {
  cn_name : string;
  cn_version : string;
  cn_source : option string;
  cn_path : option string;
  features_available : list string;
  features_enabled : list string;
  is_workspace : bool
}.

(** The parts of the JSON document of [cargo metadata] that the program
    reads. A field read with [.get] holds the value of that call; the fields
    read with a subscript ([id], [name], [version]) are written by cargo in
    every object, and a document without them is outside the model. *)
Record Dependency : Type := mkDependency {
  dep_name : string;             (* [dep['name']] *)
  dep_kind : option string;      (* [dep.get('kind')]: [None] also for [null] *)
  dep_features : list string;    (* [dep.get('features', [])] *)
  dep_optional : bool            (* [dep.get('optional', False)] *)
}.

Record Package : Type := mkPackage {
  pkg_id : string;
  pkg_name : string;
  pkg_version : string;
  pkg_source : option string;    (* [pkg.get('source', 'unknown')]: [None]
                                    for [null] *)
  pkg_manifest_path : string;    (* [pkg.get('manifest_path', '')] *)
  pkg_features : list string;    (* [list(pkg.get('features', {}).keys())] *)
  pkg_dependencies : list Dependency   (* [pkg.get('dependencies', [])] *)
}.

Record ResolveNode : Type := mkResolveNode {
  rn_id : string;                (* [node_info['id']] *)
  rn_features : list string      (* [node_info.get('features', [])] *)
}.

Record Metadata : Type := mkMetadata {
  md_workspace_members : list string;
  md_packages : list Package;
  md_resolve_nodes : list ResolveNode   (* [(metadata.get('resolve') or {})
                                           .get('nodes') or []] *)
}.

(** [s.replace(old, new)] for a non-empty [old]. *)
Definition str_replace (old new s : string) : string :=
  Py.join new (Py.split_str old s).

(** [^([^ ]+)] *)
Definition id_name : Re.regex :=
  Re.seq [Re.Bol false; Re.Grp 1 (Re.plus (Re.notchr " "))].

Definition node_of (members : list string) (id : string) (pkg : Package)
  : CrateNode :=
  let is_ws := bool_decide (id ∈ members) in
  mkCrateNode (pkg_name pkg) (pkg_version pkg)
    (if is_ws then Some "workspace" else pkg_source pkg)
    (Some (str_replace "/Cargo.toml" "" (pkg_manifest_path pkg)))
    (pkg_features pkg) [] is_ws.

Definition edge_of (pkg : Package) (dep : Dependency) : DependencyEdge :=
  mkDependencyEdge (pkg_name pkg) (dep_name dep)
    (match dep_kind dep with
     | Some k => if bool_decide (k = EmptyString) then "normal" else k
     | None => "normal"
     end)
    (dep_features dep) (dep_optional dep).

(** [if name in nodes: nodes[name].features_enabled = fs] *)
Fixpoint enable_features (name : string) (fs : list string)
  (nodes : list (string * CrateNode)) : list (string * CrateNode) :=
  match nodes with
  | [] => []
  | (k, n) :: nodes' =>
      if bool_decide (k = name)
      then (k, mkCrateNode (cn_name n) (cn_version n) (cn_source n)
                 (cn_path n) (features_available n) fs (is_workspace n))
             :: nodes'
      else (k, n) :: enable_features name fs nodes'
  end.

(** [parse_dependency_graph]; its argument [full_metadata] is not read. *)
Definition parse_dependency_graph (metadata : Metadata)
  : list (string * CrateNode) * list DependencyEdge :=
  let members := md_workspace_members metadata in
  let packages :=
    fold_left (fun d p => dict_set (pkg_id p) p d) (md_packages metadata) [] in
  let '(nodes, edges) :=
    fold_left (fun (ne : list (string * CrateNode) * list DependencyEdge)
                   (ip : string * Package) =>
                 (dict_set (pkg_name ip.2) (node_of members ip.1 ip.2) ne.1,
                  ne.2 ++ map (edge_of ip.2) (pkg_dependencies ip.2)))
              packages ([], []) in
  let nodes :=
    fold_left (fun nodes node_info =>
                 match Re.match_ id_name (rn_id node_info) with
                 | Some m => enable_features (group_str m 1)
                               (rn_features node_info) nodes
                 | None => nodes
                 end)
              (md_resolve_nodes metadata) nodes in
  (nodes, edges).

(* ======================================================================= *)
(** * Notions the properties are stated with *)
(* ======================================================================= *)

(** [d.get(k)] on an insertion-ordered dictionary. *)
Fixpoint dict_get {V} (k : string) (d : list (string * V)) : option V :=
  match d with
  | [] => None
  | (k', v) :: d' => if bool_decide (k' = k) then Some v else dict_get k d'
  end.

(** ** Duplicate clusters *)

(** Number of lines from [line_start] to [line_end], both included. *)
Definition location_span (l : Location) : Z :=
  loc_line_end l - loc_line_start l + 1.

(** The (file, line) key of a location, and its rendering in the program. *)
Definition location_id (l : Location) : string * Z :=
  (loc_file l, loc_line_start l).

Definition loc_key (l : Location) : string :=
  location_key (loc_file l) (loc_line_start l).

(** The sorted pair of location keys a two-location cluster stands for. *)
Definition pair_key (c : DuplicateCluster) : string * string :=
  match locations c with
  | l1 :: l2 :: _ => sorted_pair (loc_key l1) (loc_key l2)
  | _ => (EmptyString, EmptyString)
  end.

(** No two locations of the cluster lie in the same file. *)
Definition no_shared_file (c : DuplicateCluster) : Prop :=
  forall i j l1 l2, i ≠ j ->
    locations c !! i = Some l1 -> locations c !! j = Some l2 ->
    loc_file l1 ≠ loc_file l2.

(** No location of the cluster is shorter than [min_lines]. *)
Definition no_short_location (min_lines : Z) (c : DuplicateCluster) : Prop :=
  Forall (fun l => min_lines <= location_span l) (locations c).

(** No (file, line) key occurs in two different clusters of the list. *)
Definition keys_in_one_cluster (cs : list DuplicateCluster) : Prop :=
  forall i j ci cj k, i ≠ j ->
    cs !! i = Some ci -> cs !! j = Some cj ->
    k ∈ map location_id (locations ci) ->
    k ∉ map location_id (locations cj).

(** No two different clusters of the list stand for the same pair of
    location keys. *)
Definition pairs_reported_once (cs : list DuplicateCluster) : Prop :=
  forall i j ci cj, i ≠ j ->
    cs !! i = Some ci -> cs !! j = Some cj ->
    pair_key ci ≠ pair_key cj.

(** ** Feature usage *)

(** A module references a feature when one of its gates, or the annotation of
    one of its symbols, names the feature. *)
Definition references (f : string) (m : ModuleInfo) : bool :=
  bool_decide (f ∈ map feature (feature_gates m))
  || bool_decide (f ∈ flat_map cfg_features (symbols m)).

(** The distinct files (keys of the module index) that reference a feature. *)
Definition feature_files (f : string) (modules : list (string * ModuleInfo))
  : gset string :=
  list_to_set
    (map fst (filter (fun pm : string * ModuleInfo => references f pm.2 = true)
                     modules)).

(** ** Smell confidences *)

(** The kinds of the line-pattern table. *)
Definition line_pattern_kinds : list string := map r_kind SMELL_PATTERNS.

(** The kinds of the heuristic structural smells. *)
Definition structural_kinds : list string :=
  ["long_function"; "deep_nesting"; "imported_but_low_signal"].

(** The confidence rule as the specification words it: [0.9] for a
    line-pattern match, between [0.6] and [0.8] for a structural match. *)
Definition confidence_as_specified (s : Smell) : Prop :=
  (0 <= confidence s <= 1)%Q
  /\ (kind s ∈ line_pattern_kinds -> (confidence s == 9 # 10)%Q)
  /\ (kind s ∈ structural_kinds ->
      (6 # 10 <= confidence s <= 8 # 10)%Q).

(** The confidence rule of the program, kind by kind. *)
Definition confidence_by_kind (s : Smell) : Prop :=
  (0 <= confidence s <= 1)%Q
  /\ (kind s ∈ line_pattern_kinds -> confidence s = 9 # 10)
  /\ (kind s = "long_function" -> confidence s = 1%Q)
  /\ (kind s = "deep_nesting" -> confidence s = 8 # 10)
  /\ (kind s = "imported_but_low_signal" -> confidence s = 6 # 10).

(** ** Brace balance, as the end-line scan reads a line *)

(** Opening minus closing braces of a line once string literals and the line
    comment are removed. *)
Definition brace_delta (l : string) : Z :=
  Py.count_char "{" (strip_strings_and_comments l)
  - Py.count_char "}" (strip_strings_and_comments l).

Definition has_open_brace (l : string) : bool :=
  Py.contains "{" (strip_strings_and_comments l).

Definition depth_change (ls : list string) : Z :=
  fold_right (fun l acc => brace_delta l + acc) 0 ls.

(** The definition that starts at the head of [ls] has balanced braces closing
    on its [n]-th line: a brace is opened within those lines and the depth is
    back to zero at the end of line [n]. *)
Definition balanced_after (n : nat) (ls : list string) : bool :=
  (0 <? n)%nat && (n <=? length ls)%nat
  && existsb has_open_brace (take n ls)
  && (depth_change (take n ls) =? 0).

(** The scan returns from inside its loop, before the window is used up. *)
Definition converges (lines : list string) (start_idx : Z) : Prop :=
  is_Some (estimate_scan (scan_window lines start_idx) start_idx 0 false).

(** ** Feature gates on the last line *)

(** Some match of a feature-gate pattern starts on the last line of the
    text. *)
Definition gate_on_last_line (content : string) : bool :=
  existsb (fun kp : string * Re.regex =>
             existsb (fun m =>
                        line_of content m
                        =? Z.of_nat (length (Py.split_char Py.newline content)))
                     (Re.finditer kp.2 content))
          gate_patterns.

(** ** Dependency graphs *)

(** The edge list has an edge from [a] to [b]. *)
Definition has_edge (edges : list DependencyEdge) (a b : string) : Prop :=
  exists e, e ∈ edges /\ from_crate e = a /\ to_crate e = b.

(** [b] is reached from [a] along one or more edges. *)
Inductive reach (edges : list DependencyEdge) : string -> string -> Prop :=
| reach_edge a b : has_edge edges a b -> reach edges a b
| reach_step a b c : reach edges a b -> has_edge edges b c -> reach edges a c.

Definition acyclic (edges : list DependencyEdge) : Prop :=
  forall a, ~ reach edges a a.

(** ** Two runs of the pipeline *)

Definition option_rel {A} (R : A -> A -> Prop) (x y : option A) : Prop :=
  match x, y with
  | Some a, Some b => R a b
  | None, None => True
  | _, _ => False
  end.

(** Two entries of the feature matrix that differ at most in the order of
    their lists. *)
Definition usage_equiv (u1 u2 : feature_usage) : Prop :=
  crates u1 ≡ₚ crates u2
  /\ files u1 ≡ₚ files u2
  /\ usage_symbols u1 ≡ₚ usage_symbols u2
  /\ cfg_count u1 = cfg_count u2
  /\ spread u1 = spread u2.

(** The module, smell and matrix outputs of two runs are identical:
    dictionaries are compared as dictionaries, lists as lists. *)
Definition identical_outputs (r1 r2 : analysis) : Prop :=
  (forall p, dict_get p (res_modules r1) = dict_get p (res_modules r2))
  /\ res_smells r1 = res_smells r2
  /\ (forall f, dict_get f (res_feature_usage r1)
                = dict_get f (res_feature_usage r2)).

(** The same outputs up to the order of the smell list and of the lists
    inside the matrix entries. *)
Definition outputs_up_to_order (r1 r2 : analysis) : Prop :=
  (forall p, dict_get p (res_modules r1) = dict_get p (res_modules r2))
  /\ res_smells r1 ≡ₚ res_smells r2
  /\ (forall f, option_rel usage_equiv
                  (dict_get f (res_feature_usage r1))
                  (dict_get f (res_feature_usage r2))).

(** Two runs end the same way, with outputs related by [R] when both
    return. *)
Definition runs_agree (R : analysis -> analysis -> Prop)
  (x y : result analysis) : Prop :=
  match x, y with
  | Ok r1, Ok r2 => R r1 r2
  | Raised e1, Raised e2 => e1 = e2
  | _, _ => False
  end.

(** The matrix entry of a feature in the outcome of a run. *)
Definition usage_of (x : result analysis) (f : string)
  : option feature_usage :=
  match x with
  | Ok r => dict_get f (res_feature_usage r)
  | Raised _ => None
  end.

(** ** Identifiers *)

(** Every character of the text is in the class. *)
Fixpoint all_chars (p : ascii -> bool) (s : string) : bool :=
  match s with
  | EmptyString => true
  | String c s' => p c && all_chars p s'
  end.

(** A non-empty run of word characters, the texts [\w+] matches. *)
Definition identifier (s : string) : Prop :=
  s ≠ EmptyString /\ all_chars Py.is_word s = true.

(** ** Functions the duplicate detector compares *)

(** The lines [lines[start:end]] of a function, joined: the text stage 1 of
    the duplicate detector cuts from the file of the function. *)
Definition fn_body (content : string) (symbol : Symbol) : string :=
  let lines := Py.split_char Py.newline content in
  Py.join Py.nl
    (Py.slice lines (line_start symbol - 1)
       (Z.min (line_end symbol) (Z.of_nat (length lines)))).

(** [end - start] for that cut, which stage 1 compares with [min_lines]. *)
Definition fn_body_span (content : string) (symbol : Symbol) : Z :=
  Z.min (line_end symbol)
        (Z.of_nat (length (Py.split_char Py.newline content)))
  - (line_start symbol - 1).

(** The shingle set of the normalised text of a function. *)
Definition fn_shingles (hash : string -> Z) (content : string)
  (symbol : Symbol) : gset Z :=
  compute_shingle_hash hash (normalize_code (fn_body content symbol)) 3.

(** [s] is a function of the module [m] of the index, and [content] is the
    non-empty text read from the file of [m]. *)
Definition indexed_fn (safe_read : string -> option string)
  (modules : list (string * ModuleInfo)) (m : ModuleInfo) (s : Symbol)
  (content : string) : Prop :=
  (exists p, (p, m) ∈ modules) /\ s ∈ symbols m /\ s_kind s = "fn"
  /\ safe_read (path m) = Some content /\ content ≠ EmptyString.

(** ** Counting feature references *)

(** Number of feature gates, over the whole index, that name the feature. *)
Definition feature_gate_count (f : string)
  (modules : list (string * ModuleInfo)) : Z :=
  Z.of_nat (length (filter (fun g => feature g = f)
                           (flat_map (fun pm : string * ModuleInfo =>
                                        feature_gates pm.2) modules))).

(** The references a module adds to the symbol list of a feature: one for
    each occurrence of the feature in the annotation of one of its symbols,
    in the order of the symbols. *)
Definition symbol_refs (f : string) (pm : string * ModuleInfo)
  : list symbol_ref :=
  flat_map (fun s =>
              flat_map (fun g =>
                          if bool_decide (g = f)
                          then [mkSymbolRef (s_name s) (s_kind s) pm.1
                                  (line_start s)]
                          else [])
                       (cfg_features s))
           (symbols pm.2).

(** ** Cycles of a dependency graph *)

(** Each crate of the list depends on the next one. *)
Fixpoint walk (edges : list DependencyEdge) (l : list string) : Prop :=
  match l with
  | a :: l' =>
      match l' with
      | b :: _ => has_edge edges a b /\ walk edges l'
      | [] => True
      end
  | [] => True
  end.

(** A cycle as the detector writes it: distinct crates, each depending on
    the next, the last depending on the first, which is repeated at the
    end. *)
Definition simple_cycle (edges : list DependencyEdge) (c : list string)
  : Prop :=
  exists x mid, c = x :: mid ++ [x] /\ NoDup (x :: mid) /\ walk edges c.

(** The two crates an edge joins. *)
Definition endpoints (e : DependencyEdge) : string * string :=
  (from_crate e, to_crate e).

(** ** Files that stop a run *)

(** The text ends with the character [c], as [s.endswith(c)]. *)
Fixpoint ends_with (c : ascii) (s : string) : bool :=
  match s with
  | EmptyString => false
  | String a EmptyString => Ascii.eqb a c
  | String _ s' => ends_with c s'
  end.

(** The file can be read, is not empty, and a feature-gate match starts on
    its last line. *)
Definition aborts (ws : workspace) (file_path : string) : bool :=
  match ws_read ws file_path with
  | Some content =>
      negb (bool_decide (content = EmptyString)) && gate_on_last_line content
  | None => false
  end.

(** ** Symbols of the module index *)

(** All symbols of the modules of the index, module by module. *)
Definition indexed_symbols (modules : list (string * ModuleInfo))
  : list Symbol :=
  flat_map (fun pm : string * ModuleInfo => symbols pm.2) modules.

(* ======================================================================= *)
(** * Sample inputs *)
(* ======================================================================= *)

Definition set_12 : gset Z := {[ 1; 2 ]}.
Definition set_23 : gset Z := {[ 2; 3 ]}.

(** A stand-in for the interpreter's string hash. *)
Definition poly_hash (s : string) : Z :=
  fold_left (fun h c => (h * 31 + Z.of_N (Py.code c)) mod 2 ^ 61)
            (list_ascii_of_string s) 7.

(** Three files holding the same five-line function. *)
Definition dup_text : string :=
  Py.join Py.nl
    ["fn scale(a: u8) -> u8 {";
     "    let b = a + 1;";
     "    let c = b * 2;";
     "    c - a";
     "}";
     ""].

Definition dup_read (p : string) : option string :=
  if bool_decide (p ∈ ["a.rs"; "b.rs"; "c.rs"]) then Some dup_text else None.

Definition dup_module (p : string) : ModuleInfo :=
  mkModuleInfo (path_stem p) p "demo"
    [mkSymbol "scale" "fn" p 1 5 "private" None [] 0] [] [] 6 0 (Qmake 0 100).

Definition dup_modules : list (string * ModuleInfo) :=
  [("a.rs", dup_module "a.rs"); ("b.rs", dup_module "b.rs");
   ("c.rs", dup_module "c.rs")].

Definition dup_cluster (p1 p2 : string) : DuplicateCluster :=
  mkDuplicateCluster "scale ~ scale"
    [mkLocation p1 1 5; mkLocation p2 1 5]
    (Py.join Py.nl
       ["fn scale(a: u8) -> u8 {";
        "    let b = a + 1;";
        "    let c = b * 2;";
        "    c - a";
        "}"])
    (Qmake 100 100).

(** A module index in which feature [x] is referenced by two files: by a gate
    and an annotated symbol in the first, by a gate alone in the second. *)
Definition gated_modules : list (string * ModuleInfo) :=
  [("src/a.rs",
    mkModuleInfo "a" "src/a.rs" "demo"
      [mkSymbol "run" "fn" "src/a.rs" 2 4 "pub" None ["x"] 0] []
      [mkFeatureGate "x" "src/a.rs" 1 "cfg" "pub fn run() {"] 5 0 (Qmake 0 100));
   ("src/b.rs",
    mkModuleInfo "b" "src/b.rs" "demo" [] []
      [mkFeatureGate "x" "src/b.rs" 3 "cfg_attr" EmptyString;
       mkFeatureGate "y" "src/b.rs" 7 "cfg" EmptyString] 9 0 (Qmake 0 100));
   ("src/c.rs",
    mkModuleInfo "c" "src/c.rs" "demo"
      [mkSymbol "idle" "fn" "src/c.rs" 1 1 "private" None [] 0] [] [] 2 0
      (Qmake 0 100))].

(** A file with one function of 102 lines. *)
Definition long_fn_text : string :=
  Py.join Py.nl ("fn big() {" :: replicate 100 "    step();" ++ ["}"]).

(** The lines of a file with one function of 502 lines. *)
Definition huge_fn_lines : list string :=
  "fn huge() {" :: replicate 500 "    step();" ++ ["}"].

(** A file whose only line is a feature gate (no newline at its end), and a
    file that ends with a gated module declaration without a final newline. *)
Definition gate_only_text : string :=
  "#[cfg(feature = " +:+ String Patterns.dq ("serde" +:+ String Patterns.dq ")]").

Definition gate_at_end_text : string :=
  Py.join Py.nl
    ["pub fn run() {}";
     "";
     "#[cfg(feature = " +:+ String Patterns.dq ("serde" +:+ String Patterns.dq ")] mod ser;")].

(** A chain of three crates. *)
Definition chain_edges : list DependencyEdge :=
  [mkDependencyEdge "app" "core" "normal" [] false;
   mkDependencyEdge "core" "util" "normal" [] false;
   mkDependencyEdge "app" "util" "dev" [] false].

(** A chain of [n] edges between [n + 1] crates, each depending on the
    next; the crates are named [c], [cc], [ccc] and so on. *)
Fixpoint chain_crate (i : nat) : string :=
  match i with
  | O => "c"
  | S i' => String "c" (chain_crate i')
  end.

Definition deep_chain (n : nat) : list DependencyEdge :=
  map (fun i => mkDependencyEdge (chain_crate i) (chain_crate (S i))
                  "normal" [] false)
      (seq 0 n).

Definition chain_rank (s : string) : nat :=
  if bool_decide (s = "app") then 2
  else if bool_decide (s = "core") then 1 else 0.

(** A workspace of two files, each with one function gated on feature [x]. *)
Definition gated_text : string :=
  Py.join Py.nl
    ["#[cfg(feature = " +:+ String Patterns.dq ("x" +:+ String Patterns.dq ")]");
     "pub fn run() {}";
     ""].

Definition two_files : workspace :=
  mkWorkspace ["src/a.rs"; "src/b.rs"]
    (fun p => if bool_decide (p ∈ ["src/a.rs"; "src/b.rs"])
              then Some gated_text else None)
    (fun _ => "demo") [] 996.

(** Two files with the same eight-line function under two names. *)
Definition near_dup_text (name : string) : string :=
  Py.join Py.nl
    ["fn " +:+ name +:+ "(a: u8, b: u8) -> u8 {";
     "    let c = a + b;";
     "    let d = c * 2;";
     "    let e = d - a;";
     "    let f = e + b;";
     "    let g = f * c;";
     "    g - d";
     "}";
     ""].

Definition near_dup_read (p : string) : option string :=
  if bool_decide (p = "a.rs") then Some (near_dup_text "alpha")
  else if bool_decide (p = "b.rs") then Some (near_dup_text "beta")
  else None.

Definition near_dup_module (p name : string) : ModuleInfo :=
  mkModuleInfo (path_stem p) p "demo"
    [mkSymbol name "fn" p 1 8 "private" None [] 0] [] [] 9 0 (Qmake 0 100).

Definition near_dup_modules : list (string * ModuleInfo) :=
  [("a.rs", near_dup_module "a.rs" "alpha");
   ("b.rs", near_dup_module "b.rs" "beta")].

(** Another stand-in for the string hash, with the opposite order. *)
Definition neg_hash (s : string) : Z := - poly_hash s.

(** Metadata of a workspace of two crates that depend on one another, the
    second through a dev-dependency. *)
Definition sample_metadata : Metadata :=
  mkMetadata ["core 0.1.0 (path+file:///w/core)"]
    [mkPackage "core 0.1.0 (path+file:///w/core)" "core" "0.1.0" None
       "/w/core/Cargo.toml" ["std"]
       [mkDependency "serde" None [] false;
        mkDependency "util" None ["x"] true];
     mkPackage "util 0.2.0 (path+file:///w/util)" "util" "0.2.0" None
       "/w/util/Cargo.toml" []
       [mkDependency "core" (Some "dev") [] false]]
    [mkResolveNode "core 0.1.0 (path+file:///w/core)" ["std"]].

(* ======================================================================= *)
(** * Notions the proofs use *)
(* ======================================================================= *)

(** ** Invariant of duplicate detection *)

(** A candidate whose location is not shorter than the minimum. *)
Definition cand_ok (min_lines : Z) (c : candidate) : Prop :=
  min_lines <= c_line_end c - c_line_start c + 1.

(** A cluster of two locations in different files, neither shorter than the
    minimum. *)
Definition cluster_ok (min_lines : Z) (c : DuplicateCluster) : Prop :=
  exists l1 l2, locations c = [l1; l2]
    /\ loc_file l1 ≠ loc_file l2
    /\ min_lines <= location_span l1 /\ min_lines <= location_span l2.

(** What stage 2 maintains on [(seen, clusters)]. *)
Definition dup_inv (min_lines : Z)
  (st : gset (string * string) * list DuplicateCluster) : Prop :=
  Forall (cluster_ok min_lines) st.2
  /\ Forall (fun c => pair_key c ∈ st.1) st.2
  /\ NoDup (map pair_key st.2).

(** ** File sets of the matrix under construction *)

(** The file set recorded for a feature, when the matrix has the feature. *)
Definition view (f : string) (m : list (string * usage_acc))
  : option (gset string) :=
  acc_files <$> dict_get f m.

(** The effect on [view] of recording the files [S]. *)
Definition merge_view (S : gset string) (o : option (gset string))
  : option (gset string) :=
  match o with
  | Some X => Some (S ∪ X)
  | None => if bool_decide (S = ∅) then None else Some S
  end.

(** ** Classes of smells *)

(** Each smell the detectors build falls in one of four classes. *)
Inductive smell_class (s : Smell) : Prop :=
| class_line_pattern :
    kind s ∈ line_pattern_kinds -> confidence s = 9 # 10 -> smell_class s
| class_long_function :
    kind s = "long_function" -> confidence s = 1%Q -> smell_class s
| class_deep_nesting :
    kind s = "deep_nesting" -> confidence s = 8 # 10 -> smell_class s
| class_low_signal :
    kind s = "imported_but_low_signal" -> confidence s = 6 # 10 -> smell_class s.

(** ** Traversal of an acyclic graph *)

(** What a call of [dfs] does on an acyclic graph, when the crates not yet
    visited are no more than the nested calls allowed: it returns [None],
    reports nothing and leaves the recursion stack as it found it. *)
Definition quiet_call (edges : list DependencyEdge)
  (rec : string -> list string -> dfs_state -> dfs_outcome)
  (depth : nat) : Prop :=
  forall nb path st,
    nb ∈ edge_nodes edges -> nb ∉ visited st -> visited st ⊆ edge_nodes edges ->
    (size (edge_nodes edges ∖ visited st) <= depth)%nat ->
    (forall x, x ∈ rec_stack st -> reach edges x nb) ->
    exists st', rec nb path st = Ok (st', None)
      /\ cycles st' = cycles st /\ rec_stack st' = rec_stack st
      /\ visited st ⊆ visited st' /\ nb ∈ visited st' /\ visited st' ⊆ edge_nodes edges.

(** What a call of [dfs] does on any graph, when the crates not yet visited
    are no more than the nested calls allowed: it returns, marks its node as
    visited, and takes nothing off the recursion stack it was given. *)
Definition total_call (edges : list DependencyEdge)
  (rec : string -> list string -> dfs_state -> dfs_outcome)
  (depth : nat) : Prop :=
  forall nb path st,
    nb ∈ edge_nodes edges -> nb ∉ visited st ->
    visited st ⊆ edge_nodes edges -> rec_stack st ⊆ visited st ->
    (size (edge_nodes edges ∖ visited st) <= depth)%nat ->
    exists st' r, rec nb path st = Ok (st', r)
      /\ visited st ⊆ visited st' /\ nb ∈ visited st'
      /\ visited st' ⊆ edge_nodes edges
      /\ rec_stack st ⊆ rec_stack st' /\ rec_stack st' ⊆ visited st'.

(** What a call of [dfs] does at any depth: it runs out of nested calls, or
    it returns as above; it raises nothing else. *)
Definition safe_call
  (rec : string -> list string -> dfs_state -> dfs_outcome) : Prop :=
  forall nb path st,
    nb ∉ visited st -> rec_stack st ⊆ visited st ->
    rec nb path st = Raised RecursionError
    \/ exists st' r, rec nb path st = Ok (st', r)
         /\ visited st ⊆ visited st' /\ nb ∈ visited st'
         /\ rec_stack st ⊆ rec_stack st' /\ rec_stack st' ⊆ visited st'.

(** Symbolic evaluation of the traversal: the tests on sets and names are
    settled from the hypotheses in the context. *)
Ltac decide_test :=
  match goal with
  | |- context [bool_decide ?P] =>
      first [ rewrite (bool_decide_eq_true_2 P) by set_solver
            | rewrite (bool_decide_eq_false_2 P) by set_solver ]
  end.

Ltac run_dfs :=
  repeat (cbn [visit_all dfs dfs_neighbors graph_get andb orb negb
               cycles visited rec_stack app drop index_of map fst snd
               fold_left from_crate to_crate graph_add mbind result_bind];
          try decide_test).

(** ** Sums of matrix entries *)

(** [b] recorded after [a]. *)
Definition acc_join (a b : usage_acc) : usage_acc :=
  mkAcc (acc_crates b ∪ acc_crates a) (acc_files b ∪ acc_files a)
        (acc_symbols a ++ acc_symbols b) (acc_cfg_count a + acc_cfg_count b).

Definition join (o c : option usage_acc) : option usage_acc :=
  match o, c with
  | _, None => o
  | None, Some b => Some b
  | Some a, Some b => Some (acc_join a b)
  end.

(** A step on the matrix that adds to the entry of [f] without reading it. *)
Definition additive (f : string)
  (F : list (string * usage_acc) -> list (string * usage_acc))
  : Prop :=
  forall m, dict_get f (F m) = join (dict_get f m) (dict_get f (F [])).

(** What one module adds to the entry of [f]. *)
Definition contribution (f : string) (pm : string * ModuleInfo) : option usage_acc :=
  dict_get f (matrix_add_module [] pm).

(** Entries that agree up to the order of their symbol lists. *)
Definition acc_equiv (a b : usage_acc) : Prop :=
  acc_crates a = acc_crates b /\ acc_files a = acc_files b
  /\ acc_symbols a ≡ₚ acc_symbols b /\ acc_cfg_count a = acc_cfg_count b.

(** ** The module index of a run *)

(** The entry a file adds to the module index. *)
Definition parsed (ws : workspace) (file_path : string) : list (string * ModuleInfo) :=
  match parse_file ws file_path with
  | Ok (Some m) => [(file_path, m)]
  | _ => []
  end.

Definition raises (ws : workspace) (file_path : string) : bool :=
  match parse_file ws file_path with
  | Raised _ => true
  | Ok _ => false
  end.

(** ** Progress of the matcher *)

(** [st'] lies [n] characters after [st] in the same text. *)
Definition extends (st st' : Re.mstate) : Prop :=
  exists n : nat,
    Re.st_pos st' = (Re.st_pos st + n)%nat
    /\ Re.st_rest st' = Py.str_drop n (Re.st_rest st)
    /\ (n <= String.length (Re.st_rest st))%nat.

(** A pattern that matches no empty text at the end of the input. *)
Definition needs_char (r : Re.regex) : Prop :=
  forall prev pos, Re.match_at r prev pos EmptyString = None.

(** The iteration of a starred pattern, as [Re.run] unfolds it. *)
Definition star_loop (greedy : bool) (r : Re.regex)
  (k : Re.mstate -> option Re.mstate) : nat -> Re.mstate -> option Re.mstate :=
  fix loop (fuel : nat) (st : Re.mstate) {struct fuel} : option Re.mstate :=
    match fuel with
    | O => k st
    | S fuel' =>
        if greedy
        then match Re.run r st (fun st' =>
                     if (Re.st_pos st <? Re.st_pos st')%nat
                     then loop fuel' st' else None) with
             | Some x => Some x
             | None => k st
             end
        else match k st with
             | Some x => Some x
             | None => Re.run r st (fun st' =>
                         if (Re.st_pos st <? Re.st_pos st')%nat
                         then loop fuel' st' else None)
             end
    end.

(** ** Candidates of duplicate detection *)

(** The candidate stage 1 builds for a function. *)
Definition cand_of (hash : string -> Z) (m : ModuleInfo) (s : Symbol)
  (content : string) : candidate :=
  mkCandidate (path m) (line_start s) (line_end s) (fn_body content s)
    (fn_shingles hash content s) (s_name s).

(** The bucket key of a candidate. *)
Definition cand_sig (c : candidate) : list Z :=
  take 10 (merge_sort Z.le (elements (c_shingles c))).

(** A candidate built for a function of the index that is long enough. *)
Definition from_index (hash : string -> Z)
  (safe_read : string -> option string)
  (modules : list (string * ModuleInfo)) (min_lines : Z) (c : candidate)
  : Prop :=
  exists m s t,
    indexed_fn safe_read modules m s t /\ min_lines <= fn_body_span t s
    /\ c = cand_of hash m s t.

(** [fn_signatures.get(sig)] *)
Fixpoint bucket_get (sig : list Z) (d : list (list Z * list candidate))
  : option (list candidate) :=
  match d with
  | [] => None
  | (k, cs) :: d' => if bool_decide (k = sig) then Some cs else bucket_get sig d'
  end.

(** Every pair of keys in [seen] stands for a reported cluster. *)
Definition seen_reported (st : gset (string * string) * list DuplicateCluster)
  : Prop :=
  forall k, k ∈ st.1 -> exists cl, cl ∈ st.2 /\ pair_key cl = k.

(** The pair of keys [k] stands for a reported cluster. *)
Definition reported (k : string * string)
  (st : gset (string * string) * list DuplicateCluster) : Prop :=
  exists cl, cl ∈ st.2 /\ pair_key cl = k.

(** A cluster built from two candidates with property [P], of one bucket
    and in different files, whose similarity meets the threshold. *)
Definition cluster_of (P : candidate -> Prop) (thr : Q)
  (cl : DuplicateCluster) : Prop :=
  exists c1 c2,
    P c1 /\ P c2 /\ cand_sig c1 = cand_sig c2 /\ c_file c1 ≠ c_file c2
    /\ (thr <= jaccard_similarity (c_shingles c1) (c_shingles c2))%Q
    /\ cl = make_cluster c1 c2
              (jaccard_similarity (c_shingles c1) (c_shingles c2)).

(** ** Readings of a matrix entry *)

Definition entry_count (o : option usage_acc) : Z :=
  match o with Some a => acc_cfg_count a | None => 0 end.

Definition entry_symbols (o : option usage_acc) : list symbol_ref :=
  match o with Some a => acc_symbols a | None => [] end.

(** ** Where a smell points *)

(** The smell is reported for the file, on one of its lines, with the text of
    that line, stripped and cut to [n] characters, as context. *)
Definition points_at (file_path : string) (lines : list string) (n : nat)
  (s : Smell) : Prop :=
  file s = file_path /\ evidence s = [] /\ 1 <= line s
  /\ exists l, lines !! Z.to_nat (line s - 1) = Some l
               /\ context s = Py.str_take n (Py.strip l).

(** ** What a call of [dfs] reports *)

(** A call of [dfs] on the node at the end of a path of distinct crates
    along the edges, the earlier ones visited: the cycles it adds and the
    value it returns are cycles of the graph, and it forgets no visit. *)
Definition sound_call (edges : list DependencyEdge)
  (rec : string -> list string -> dfs_state -> dfs_outcome) : Prop :=
  forall node path st st' r,
    rec node path st = Ok (st', r) ->
    walk edges path -> last path = Some node -> NoDup path ->
    (forall x, x ∈ path -> x = node \/ x ∈ visited st) ->
    Forall (simple_cycle edges) (cycles st) ->
    Forall (simple_cycle edges) (cycles st')
    /\ visited st ⊆ visited st'
    /\ (forall c, r = Some c -> simple_cycle edges c).

(** ** Crates the traversal has finished *)

(** The crates whose call of [dfs] has returned. *)
Definition fin (st : dfs_state) : gset string := visited st ∖ rec_stack st.

(** The crates of [F] depend on crates of [F] only, each of a lower rank
    than its dependant. *)
Definition ranked (edges : list DependencyEdge) (F : gset string) : Prop :=
  exists rk : string -> nat,
    forall u w, u ∈ F -> has_edge edges u w -> w ∈ F /\ (rk w < rk u)%nat.

(** A call of [dfs] only adds to the list of cycles. *)
Definition growing_call
  (rec : string -> list string -> dfs_state -> dfs_outcome) : Prop :=
  forall node path st st' r,
    rec node path st = Ok (st', r) ->
    exists extra, cycles st' = cycles st ++ extra.

(** A call of [dfs] on an unvisited node at the end of the path that the
    recursion stack holds, after which the cycle list is still empty: either
    the call returned [None], having finished its node and restored the
    stack, or it returned a cycle on meeting an edge from its node back into
    the path. *)
Definition clean_call (edges : list DependencyEdge)
  (rec : string -> list string -> dfs_state -> dfs_outcome) : Prop :=
  forall node path st st' r,
    rec node path st = Ok (st', r) ->
    node ∉ visited st -> last path = Some node ->
    rec_stack st = list_to_set (removelast path) ->
    rec_stack st ⊆ visited st -> ranked edges (fin st) ->
    cycles st' = [] ->
    (r = None /\ visited st ⊆ visited st' /\ node ∈ visited st'
     /\ rec_stack st' = rec_stack st /\ ranked edges (fin st'))
    \/ (exists c nb, r = Some c /\ c ≠ [] /\ nb ∈ path
                     /\ has_edge edges node nb).

Set Warnings "-clear-no-such-hyp".

(* ======================================================================= *)
(** * Properties of the similarity measure *)
(* ======================================================================= *)

Section Jaccard.

Lemma Qmake_diag (n : nat) : (0 < n)%nat -> (Qmake (Z.of_nat n) (Pos.of_nat n) == 1)%Q.
Proof.
  intros Hn. unfold Qeq. simpl.
  rewrite Z.mul_1_r.
  destruct n as [|n]; [lia|].
  rewrite <- Pos.of_nat_succ. lia.
Qed.

Lemma jaccard_similarity_comm (A B : gset Z) :
  jaccard_similarity A B = jaccard_similarity B A.
Proof.
  unfold jaccard_similarity.
  rewrite (orb_comm (bool_decide (A = ∅))).
  assert (A ∩ B = B ∩ A) as -> by apply intersection_comm_L.
  by assert (A ∪ B = B ∪ A) as -> by apply union_comm_L.
Qed.

Lemma jaccard_similarity_diag (A : gset Z) :
  A ≠ ∅ -> (jaccard_similarity A A == 1)%Q.
Proof.
  intros HA. unfold jaccard_similarity.
  rewrite (bool_decide_eq_false_2 _ HA). simpl.
  assert (A ∩ A = A) as -> by apply intersection_idemp_L.
  assert (A ∪ A = A) as -> by apply union_idemp_L.
  assert (Hpos : (0 < size A)%nat).
  { apply Nat.neq_0_lt_0. intros Hz. apply size_empty_iff in Hz.
    apply HA. by apply leibniz_equiv. }
  destruct (Nat.ltb_spec 0 (size A)) as [_|Hle]; [|lia].
  by apply Qmake_diag.
Qed.

(** C6. [jaccard_similarity] is symmetric in its two arguments, and the
    similarity of a non-empty set with itself is [1.0]. *)
Theorem jaccard_similarity_symmetric (A B : gset Z) :
  jaccard_similarity A B = jaccard_similarity B A
  /\ (A ≠ ∅ -> (jaccard_similarity A A == 1)%Q).
Proof.
  split; [apply jaccard_similarity_comm | apply jaccard_similarity_diag].
Qed.

Lemma jaccard_similarity_symmetric_witness :
  jaccard_similarity set_12 set_23 = jaccard_similarity set_23 set_12
  /\ (set_12 ≠ ∅ /\ (jaccard_similarity set_12 set_12 == 1)%Q).
Proof.
  destruct (jaccard_similarity_symmetric set_12 set_23) as [Hs Hd].
  split; [exact Hs|].
  assert (Hne : set_12 ≠ ∅) by (vm_compute; discriminate).
  split; [exact Hne | exact (Hd Hne)].
Defined.

(** C9. When either argument is the empty set the similarity is [0.0]; in
    particular the similarity of the empty set with itself is [0.0] and not
    [1.0]. *)
Theorem jaccard_similarity_empty (A B : gset Z) :
  A = ∅ \/ B = ∅ ->
  jaccard_similarity A B = 0%Q
  /\ jaccard_similarity ∅ ∅ = 0%Q
  /\ ~ (jaccard_similarity ∅ ∅ == 1)%Q.
Proof.
  intros HAB. split; [|split].
  - unfold jaccard_similarity.
    destruct HAB as [-> | ->].
    + by rewrite bool_decide_eq_true_2.
    + rewrite (bool_decide_eq_true_2 (∅ = ∅)) by done. by rewrite orb_true_r.
  - reflexivity.
  - intros H. vm_compute in H. discriminate.
Qed.

Lemma jaccard_similarity_empty_witness :
  jaccard_similarity ∅ set_23 = 0%Q
  /\ jaccard_similarity ∅ ∅ = 0%Q
  /\ ~ (jaccard_similarity ∅ ∅ == 1)%Q.
Proof.
  apply (jaccard_similarity_empty ∅ set_23). left. reflexivity.
Defined.

End Jaccard.

(* ======================================================================= *)
(** * Properties of duplicate detection *)
(* ======================================================================= *)

Section FoldInvariants.

Context {S X : Type} (I : S -> Prop) (P : X -> Prop) (f : S -> X -> S).

Lemma fold_left_preserves (l : list X) (s : S) :
  (forall s x, I s -> P x -> I (f s x)) ->
  Forall P l -> I s -> I (fold_left f l s).
Proof.
  intros Hstep. revert s.
  induction l as [|x l IH]; intros s Hl Hs; simpl; [done|].
  inversion Hl; subst. apply IH; auto.
Qed.

End FoldInvariants.

Lemma map_fmap {A B} (f : A -> B) (l : list A) : map f l = f <$> l.
Proof. induction l as [|a l IH]; simpl; [done | by rewrite IH]. Qed.

Lemma elem_of_map {A B} (f : A -> B) (l : list A) (y : B) :
  y ∈ map f l <-> exists x, y = f x /\ x ∈ l.
Proof. rewrite map_fmap. apply list_elem_of_fmap. Qed.

Lemma elem_of_flat_map {A B} (f : A -> list B) (l : list A) (y : B) :
  y ∈ flat_map f l <-> exists x, x ∈ l /\ y ∈ f x.
Proof.
  rewrite list_elem_of_In, in_flat_map.
  split; intros (x & H1 & H2); exists x; by rewrite ?list_elem_of_In in *.
Qed.

Lemma pairs_elem_of {A} (l : list A) (x y : A) :
  (x, y) ∈ pairs l -> x ∈ l /\ y ∈ l.
Proof.
  induction l as [|a l IH]; simpl; [by intros ?%elem_of_nil|].
  rewrite elem_of_app. intros [Hxy | Hxy].
  - apply elem_of_map in Hxy as (z & Heq & Hz).
    inversion Heq; subst. split; [left | by right].
  - destruct (IH Hxy). split; by right.
Qed.

Section DuplicateInvariant.

Variable min_lines : Z.

Lemma pair_key_make_cluster (c1 c2 : candidate) (sim : Q) :
  pair_key (make_cluster c1 c2 sim) = cluster_key c1 c2.
Proof. reflexivity. Qed.

Lemma compare_pair_inv (thr : Q) st (cc : candidate * candidate) :
  dup_inv min_lines st ->
  cand_ok min_lines cc.1 /\ cand_ok min_lines cc.2 ->
  dup_inv min_lines (compare_pair thr st cc).
Proof.
  intros (Hok & Hseen & Hnd) [H1 H2]. destruct cc as [c1 c2]. simpl in *.
  unfold compare_pair.
  case_bool_decide as Hfile; [done|].
  destruct (Qle_bool _ _); [|done].
  case_bool_decide as Hkey; [done|].
  split; [|split]; simpl.
  - apply Forall_app. split; [done|].
    apply Forall_singleton. eexists _, _. split; [reflexivity|].
    split; [exact Hfile|]. split; [exact H1 | exact H2].
  - apply Forall_app. split.
    + eapply Forall_impl; [exact Hseen|]. intros c Hc. set_solver.
    + apply Forall_singleton. apply elem_of_union_l, elem_of_singleton.
      reflexivity.
  - rewrite map_app. apply NoDup_app. split; [done|]. split.
    + intros k Hk Hk'. simpl in Hk'. apply list_elem_of_singleton in Hk'. subst k.
      apply Hkey. apply elem_of_map in Hk as (c & Hc & Hin).
      rewrite pair_key_make_cluster in Hc.
      rewrite Forall_forall in Hseen. rewrite Hc. by apply Hseen.
    + simpl. apply NoDup_singleton.
Qed.

Lemma compare_bucket_inv (thr : Q) st (bucket : list Z * list candidate) :
  dup_inv min_lines st -> Forall (cand_ok min_lines) bucket.2 ->
  dup_inv min_lines (compare_bucket thr st bucket).
Proof.
  intros Hst Hb. unfold compare_bucket.
  destruct (_ <? _)%nat; [done|].
  apply (fold_left_preserves (dup_inv min_lines)
           (fun cc => cand_ok min_lines cc.1 /\ cand_ok min_lines cc.2));
    [intros; by apply compare_pair_inv | | done].
  apply Forall_forall. intros [c1 c2] Hin. simpl.
  apply pairs_elem_of in Hin as [Hc1 Hc2].
  rewrite Forall_forall in Hb. split; by apply Hb.
Qed.

Lemma bucket_add_ok (sig : list Z) (c : candidate) d :
  cand_ok min_lines c ->
  Forall (fun b : list Z * list candidate => Forall (cand_ok min_lines) b.2) d ->
  Forall (fun b : list Z * list candidate => Forall (cand_ok min_lines) b.2)
         (bucket_add sig c d).
Proof.
  intros Hc. induction d as [|[k cs] d IH]; intros Hd; simpl.
  - apply Forall_singleton. simpl. by apply Forall_singleton.
  - inversion Hd; subst. case_bool_decide.
    + constructor; [|done]. simpl in *. apply Forall_app. split; [done|].
      by apply Forall_singleton.
    + constructor; [done|]. by apply IH.
Qed.

Variable hash : string -> Z.
Variable safe_read : string -> option string.

Lemma candidate_of_symbol_ok (f : string) (lines : list string) (s : Symbol) :
  Forall (fun sc : list Z * candidate => cand_ok min_lines sc.2)
         (candidate_of_symbol hash f lines min_lines s).
Proof.
  unfold candidate_of_symbol.
  destruct (negb _); [constructor|].
  destruct (Z.ltb_spec (Z.min (line_end s) (Z.of_nat (length lines))
                          - (line_start s - 1)) min_lines) as [|Hge];
    [constructor|].
  apply Forall_singleton. unfold cand_ok. simpl. lia.
Qed.

Lemma candidates_of_module_ok (m : ModuleInfo) :
  Forall (fun sc : list Z * candidate => cand_ok min_lines sc.2)
         (candidates_of_module hash safe_read min_lines m).
Proof.
  unfold candidates_of_module.
  destruct (safe_read _); [|constructor].
  case_bool_decide; [constructor|].
  apply Forall_flat_map, Forall_forall. intros sym _.
  apply candidate_of_symbol_ok.
Qed.

Lemma fn_signatures_ok (modules : list (string * ModuleInfo)) :
  Forall (fun b : list Z * list candidate => Forall (cand_ok min_lines) b.2)
         (fn_signatures hash safe_read modules min_lines).
Proof.
  unfold fn_signatures.
  apply (fold_left_preserves
           (Forall (fun b : list Z * list candidate =>
                      Forall (cand_ok min_lines) b.2))
           (fun sc : list Z * candidate => cand_ok min_lines sc.2)).
  - intros d sc Hd Hsc. by apply bucket_add_ok.
  - apply Forall_flat_map, Forall_forall. intros pm _.
    apply candidates_of_module_ok.
  - constructor.
Qed.

Lemma detect_duplicates_inv (modules : list (string * ModuleInfo)) (thr : Q) :
  exists seen,
    dup_inv min_lines
      (seen, detect_duplicates hash safe_read modules min_lines thr).
Proof.
  unfold detect_duplicates.
  set (st := fold_left _ _ _).
  exists st.1. replace (st.1, st.2) with st by by destruct st.
  apply (fold_left_preserves (dup_inv min_lines)
           (fun b : list Z * list candidate => Forall (cand_ok min_lines) b.2)).
  - intros; by apply compare_bucket_inv.
  - apply fn_signatures_ok.
  - split; [constructor|]. split; constructor.
Qed.

End DuplicateInvariant.

Lemma cluster_ok_no_shared_file (min_lines : Z) (c : DuplicateCluster) :
  cluster_ok min_lines c -> no_shared_file c.
Proof.
  intros (l1 & l2 & Hl & Hne & _) i j x y Hij Hi Hj.
  rewrite Hl in Hi, Hj.
  destruct i as [|[|i]], j as [|[|j]]; simpl in *; try done;
    simplify_eq; congruence.
Qed.

Lemma cluster_ok_no_short_location (min_lines : Z) (c : DuplicateCluster) :
  cluster_ok min_lines c -> no_short_location min_lines c.
Proof.
  intros (l1 & l2 & Hl & _ & H1 & H2). unfold no_short_location.
  rewrite Hl. by repeat constructor.
Qed.

Lemma NoDup_pairs_reported_once (cs : list DuplicateCluster) :
  NoDup (map pair_key cs) -> pairs_reported_once cs.
Proof.
  intros Hnd i j ci cj Hij Hi Hj Heq. apply Hij.
  eapply (NoDup_lookup _ i j (pair_key ci) Hnd).
  - by rewrite map_fmap, list_lookup_fmap, Hi.
  - by rewrite map_fmap, list_lookup_fmap, Hj, Heq.
Qed.

(** C10. Every cluster [detect_duplicates] reports has exactly two
    locations. *)
Theorem detect_duplicates_two_locations (hash : string -> Z)
  (safe_read : string -> option string)
  (modules : list (string * ModuleInfo)) (min_lines : Z) (thr : Q) :
  Forall (fun c => length (locations c) = 2%nat)
         (detect_duplicates hash safe_read modules min_lines thr).
Proof.
  destruct (detect_duplicates_inv min_lines hash safe_read modules thr)
    as (seen & Hok & _).
  eapply Forall_impl; [exact Hok|].
  intros c (l1 & l2 & Hl & _). by rewrite Hl.
Qed.

(** C2, as the program has it. In every run of [detect_duplicates] no
    reported cluster has two locations in the same file, no reported location
    spans fewer lines than the minimum body length, and no two reported
    clusters stand for the same sorted pair of location keys. (One location
    may be paired with several others and then occurs in several clusters.) *)
Theorem detect_duplicates_sound (hash : string -> Z)
  (safe_read : string -> option string)
  (modules : list (string * ModuleInfo)) (min_lines : Z) (thr : Q) :
  let cs := detect_duplicates hash safe_read modules min_lines thr in
  Forall no_shared_file cs
  /\ Forall (no_short_location min_lines) cs
  /\ pairs_reported_once cs.
Proof.
  intros cs.
  destruct (detect_duplicates_inv min_lines hash safe_read modules thr)
    as (seen & Hok & _ & Hnd).
  fold cs in Hok, Hnd. simpl in Hok, Hnd.
  split; [|split].
  - eapply Forall_impl; [exact Hok|]. apply cluster_ok_no_shared_file.
  - eapply Forall_impl; [exact Hok|]. apply cluster_ok_no_short_location.
  - by apply NoDup_pairs_reported_once.
Qed.

(** The sample modules are what the extractor yields on the sample files. *)
Example dup_modules_extracted :
  map (fun p => extract_symbols_regex dup_text p "demo") ["a.rs"; "b.rs"; "c.rs"]
  = map (fun pm : string * ModuleInfo => Ok pm.2) dup_modules.
Proof. vm_compute. reflexivity. Qed.

Example dup_clusters :
  detect_duplicates poly_hash dup_read dup_modules 5 (8 # 10)
  = [dup_cluster "a.rs" "b.rs"; dup_cluster "a.rs" "c.rs";
     dup_cluster "b.rs" "c.rs"].
Proof. vm_compute. reflexivity. Qed.

(** Which near-duplicates are found depends on the values of the string hash:
    the two functions below have similarity 37/41, yet they are compared only
    when their ten smallest shingle hashes coincide. *)
Example near_dup_modules_extracted :
  extract_symbols_regex (near_dup_text "alpha") "a.rs" "demo"
  = Ok (near_dup_module "a.rs" "alpha")
  /\ extract_symbols_regex (near_dup_text "beta") "b.rs" "demo"
     = Ok (near_dup_module "b.rs" "beta").
Proof. split; vm_compute; reflexivity. Qed.

Example duplicates_depend_on_hash :
  map signature
      (detect_duplicates poly_hash near_dup_read near_dup_modules 5 (8 # 10))
  = ["alpha ~ beta"]
  /\ detect_duplicates neg_hash near_dup_read near_dup_modules 5 (8 # 10) = [].
Proof. split; vm_compute; reflexivity. Qed.

(** C2, as stated, fails: with the same function in three files every pair is
    reported, so the location key of [a.rs], line 1, occurs in the first and
    in the second cluster. *)
Lemma detect_duplicates_key_in_two_clusters :
  ~ keys_in_one_cluster
      (detect_duplicates poly_hash dup_read dup_modules 5 (8 # 10)).
Proof.
  rewrite dup_clusters. intros H.
  apply (H 0%nat 1%nat (dup_cluster "a.rs" "b.rs") (dup_cluster "a.rs" "c.rs")
           ("a.rs", 1)); [lia | reflexivity | reflexivity | |]; simpl.
  - apply list_elem_of_here.
  - apply list_elem_of_here.
Qed.

(* ======================================================================= *)
(** * Properties of the feature matrix *)
(* ======================================================================= *)

Section FeatureSpread.

Lemma merge_view_empty o : merge_view ∅ o = o.
Proof.
  destruct o as [X|]; simpl; [|done].
  f_equal. set_solver.
Qed.

Lemma merge_view_merge (S1 S2 : gset string) o :
  merge_view S2 (merge_view S1 o) = merge_view (S2 ∪ S1) o.
Proof.
  destruct o as [X|]; simpl.
  - f_equal. set_solver.
  - repeat case_bool_decide; simpl; try case_bool_decide;
      first [done | f_equal; set_solver | set_solver].
Qed.

Lemma view_matrix_update (f g : string) (upd : usage_acc -> usage_acc)
  (p : string) m :
  (forall a, acc_files (upd a) = {[ p ]} ∪ acc_files a) ->
  view f (matrix_update g upd m)
  = merge_view (if bool_decide (g = f) then {[ p ]} else ∅) (view f m).
Proof.
  intros Hupd. unfold view.
  induction m as [|[k a] m IH]; simpl.
  - destruct (decide (g = f)) as [->|Hgf].
    + rewrite !bool_decide_eq_true_2 by done. simpl. rewrite Hupd. simpl.
      rewrite bool_decide_eq_false_2; [f_equal | ]; set_solver.
    + by rewrite !bool_decide_eq_false_2 by done.
  - destruct (decide (k = g)) as [->|Hkg].
    + rewrite (bool_decide_eq_true_2 (g = g)) by done. simpl.
      destruct (decide (g = f)) as [->|Hgf].
      * rewrite !bool_decide_eq_true_2 by done. simpl. by rewrite Hupd.
      * rewrite !bool_decide_eq_false_2 by done. by rewrite merge_view_empty.
    + rewrite (bool_decide_eq_false_2 (k = g)) by done. simpl.
      destruct (decide (k = f)) as [->|Hkf].
      * rewrite (bool_decide_eq_true_2 (f = f)) by done.
        rewrite (bool_decide_eq_false_2 (g = f)) by congruence. simpl.
        f_equal. set_solver.
      * rewrite (bool_decide_eq_false_2 (k = f)) by done. exact IH.
Qed.

(** A loop that updates the entries of the features [key x] for [x] in [xs],
    each update recording file [p]. *)
Lemma view_fold_update {X} (key : X -> string)
  (upd : X -> usage_acc -> usage_acc) (p f : string) (xs : list X) m :
  (forall x a, acc_files (upd x a) = {[ p ]} ∪ acc_files a) ->
  view f (fold_left (fun m x => matrix_update (key x) (upd x) m) xs m)
  = merge_view (if bool_decide (f ∈ map key xs) then {[ p ]} else ∅) (view f m).
Proof.
  intros Hupd. revert m.
  induction xs as [|x xs IH]; intros m; simpl.
  - by rewrite merge_view_empty.
  - rewrite IH, (view_matrix_update f (key x) (upd x) p) by apply Hupd.
    rewrite merge_view_merge. f_equal.
    repeat case_bool_decide; set_solver.
Qed.

Lemma view_matrix_add_module (f : string) m (pm : string * ModuleInfo) :
  view f (matrix_add_module m pm)
  = merge_view (if references f pm.2 then {[ pm.1 ]} else ∅) (view f m).
Proof.
  destruct pm as [p md]. unfold matrix_add_module, references. simpl.
  set (m1 := fold_left _ (feature_gates md) m).
  assert (Hm1 : view f m1
    = merge_view (if bool_decide (f ∈ map feature (feature_gates md))
                  then {[ p ]} else ∅) (view f m)).
  { apply (view_fold_update feature (fun _ => add_gate (crate_name md) p)).
    reflexivity. }
  clearbody m1.
  assert (Hsyms : forall syms m1,
    view f (fold_left (fun m symbol =>
              fold_left (fun m f =>
                 matrix_update f (add_symbol (crate_name md) p symbol) m)
                (cfg_features symbol) m) syms m1)
    = merge_view (if bool_decide (f ∈ flat_map cfg_features syms)
                  then {[ p ]} else ∅) (view f m1)).
  { clear. induction syms as [|s syms IH]; intros m1; simpl.
    - by rewrite merge_view_empty.
    - rewrite IH.
      rewrite (view_fold_update id (fun _ => add_symbol (crate_name md) p s) p)
        by reflexivity.
      rewrite merge_view_merge, map_id. f_equal.
      repeat case_bool_decide; set_solver. }
  rewrite Hsyms, Hm1, merge_view_merge. f_equal.
  repeat case_bool_decide; simpl; set_solver.
Qed.

Lemma feature_files_cons (f : string) (pm : string * ModuleInfo) modules :
  feature_files f (pm :: modules)
  = (if references f pm.2 then {[ pm.1 ]} else ∅) ∪ feature_files f modules.
Proof.
  unfold feature_files. rewrite filter_cons.
  destruct (references f pm.2) eqn:Href.
  - rewrite decide_True by done. simpl. done.
  - rewrite decide_False by (intros ?; congruence). set_solver.
Qed.

Lemma view_build_matrix (f : string) (modules : list (string * ModuleInfo)) m :
  view f (fold_left matrix_add_module modules m)
  = merge_view (feature_files f modules) (view f m).
Proof.
  revert m. induction modules as [|pm modules IH]; intros m; simpl.
  - by rewrite merge_view_empty.
  - rewrite IH, view_matrix_add_module, merge_view_merge, feature_files_cons.
    f_equal. set_solver.
Qed.

Variable list_of_set : gset string -> list string.

Lemma dict_get_finish (f : string) (m : list (string * usage_acc)) :
  dict_get f (map (fun fa : string * usage_acc =>
                     (fa.1, finish_usage list_of_set fa.2)) m)
  = finish_usage list_of_set <$> dict_get f m.
Proof.
  induction m as [|[k a] m IH]; simpl; [done|].
  case_bool_decide; [done | exact IH].
Qed.

(** C8. For a feature referenced in the module index, the matrix has an
    entry whose [spread] is the number of distinct files that reference the
    feature, and whose [files] list enumerates exactly that set. *)
Theorem spread_counts_files (modules : list (string * ModuleInfo)) (f : string) :
  feature_files f modules ≠ ∅ ->
  exists u,
    dict_get f (build_feature_matrix list_of_set modules) = Some u
    /\ spread u = Z.of_nat (size (feature_files f modules))
    /\ files u = list_of_set (feature_files f modules).
Proof.
  intros Hne.
  pose proof (view_build_matrix f modules []) as Hview.
  unfold view in Hview. simpl in Hview.
  rewrite (bool_decide_eq_false_2 _ Hne) in Hview.
  unfold build_feature_matrix, build_matrix. rewrite dict_get_finish.
  destruct (dict_get f (fold_left matrix_add_module modules [])) as [a|];
    simpl in *; [|done].
  injection Hview as Hfiles.
  eexists. split; [reflexivity|]. simpl. by rewrite Hfiles.
Qed.

End FeatureSpread.

Lemma spread_counts_files_witness :
  feature_files "x" gated_modules ≠ ∅
  /\ exists u,
       dict_get "x" (build_feature_matrix elements gated_modules) = Some u
       /\ spread u = Z.of_nat (size (feature_files "x" gated_modules))
       /\ files u = elements (feature_files "x" gated_modules).
Proof.
  assert (Hne : feature_files "x" gated_modules ≠ ∅)
    by (vm_compute; discriminate).
  split; [exact Hne|].
  exact (spread_counts_files elements gated_modules "x" Hne).
Defined.

Example spread_of_sample :
  spread <$> dict_get "x" (build_feature_matrix elements gated_modules) = Some 2
  /\ spread <$> dict_get "y" (build_feature_matrix elements gated_modules) = Some 1.
Proof. split; vm_compute; reflexivity. Qed.

(* ======================================================================= *)
(** * Properties of smell detection *)
(* ======================================================================= *)

Section SmellConfidence.

Lemma structural_kinds_not_in_table :
  Forall (fun k => k ∉ line_pattern_kinds) structural_kinds.
Proof.
  repeat constructor; intros H; vm_compute in H;
    repeat (apply elem_of_cons in H as [H|H]; [discriminate|]);
    by apply elem_of_nil in H.
Qed.

Lemma smell_class_confidence (s : Smell) :
  smell_class s -> confidence_by_kind s.
Proof.
  pose proof structural_kinds_not_in_table as Hnot.
  unfold structural_kinds in Hnot.
  apply Forall_cons in Hnot as [Hlong Hnot].
  apply Forall_cons in Hnot as [Hdeep Hnot].
  apply Forall_cons in Hnot as [Hlow _].
  intros [Hk Hc | Hk Hc | Hk Hc | Hk Hc]; unfold confidence_by_kind;
    rewrite Hc; (split; [split; unfold Qle; simpl; lia|]).
  - repeat split; try done; intros Hk'; rewrite Hk' in Hk; contradiction.
  - rewrite Hk. repeat split; try done; intros Hk'; contradiction.
  - rewrite Hk. repeat split; try done; intros Hk'; contradiction.
  - rewrite Hk. repeat split; try done; intros Hk'; contradiction.
Qed.

Lemma line_pattern_smells_class (file_path : string) (lines : list string)
  (r : smell_rule) :
  r ∈ SMELL_PATTERNS ->
  Forall smell_class (line_pattern_smells file_path lines r).
Proof.
  intros Hr. unfold line_pattern_smells.
  apply Forall_flat_map, Forall_forall. intros [i l] _. simpl.
  destruct (is_match _ _); [|constructor].
  apply Forall_singleton, class_line_pattern; [|reflexivity].
  simpl. apply elem_of_map. by exists r.
Qed.

Lemma long_function_smells_class (file_path : string) (lines : list string)
  (starts : list Z) :
  Forall smell_class (long_function_smells file_path lines starts).
Proof.
  induction starts as [|start rest IH]; simpl; [constructor|].
  apply Forall_app. split; [|exact IH].
  destruct (100 <? _); [|constructor].
  by apply Forall_singleton, class_long_function.
Qed.

Lemma deep_nesting_smells_class (file_path : string) (lines : list string) :
  Forall smell_class (deep_nesting_smells file_path lines).
Proof.
  unfold deep_nesting_smells.
  apply Forall_flat_map, Forall_forall. intros [i l] _. simpl.
  destruct (24 <=? _); [|constructor].
  by apply Forall_singleton, class_deep_nesting.
Qed.

Lemma detect_smells_class (content file_path : string) :
  Forall smell_class (detect_smells content file_path).
Proof.
  unfold detect_smells.
  apply Forall_app; split; [|apply Forall_app; split].
  - apply Forall_flat_map, Forall_forall. intros r Hr.
    by apply line_pattern_smells_class.
  - apply long_function_smells_class.
  - apply deep_nesting_smells_class.
Qed.

Lemma detect_imported_but_low_signal_class (str_symbol : Symbol -> string)
  (module : ModuleInfo) :
  Forall smell_class (detect_imported_but_low_signal str_symbol module).
Proof.
  unfold detect_imported_but_low_signal.
  apply Forall_flat_map, Forall_forall. intros [imp users] _. simpl.
  destruct (bool_decide _); [|constructor].
  unfold low_signal_smells_for.
  apply Forall_flat_map, Forall_forall. intros sym _.
  destruct (_ && _); [|constructor].
  destruct (_ <? 10); [|constructor].
  by apply Forall_singleton, class_low_signal.
Qed.

(** C4, as the program has it. Every smell of [detect_smells] and of
    [detect_imported_but_low_signal] has a confidence in [0, 1]: [0.9] for a
    line-pattern match, [1.0] for a long function, [0.8] for deep nesting and
    [0.6] for an imported-but-low-signal function; the smell built for a
    dependency cycle has confidence [1.0]. *)
Theorem smell_confidences (content file_path : string)
  (str_symbol : Symbol -> string) (module : ModuleInfo) (cycle : list string) :
  Forall confidence_by_kind (detect_smells content file_path)
  /\ Forall confidence_by_kind (detect_imported_but_low_signal str_symbol module)
  /\ confidence (cycle_smell cycle) = 1%Q.
Proof.
  split; [|split].
  - eapply Forall_impl; [apply detect_smells_class|].
    apply smell_class_confidence.
  - eapply Forall_impl; [apply detect_imported_but_low_signal_class|].
    apply smell_class_confidence.
  - reflexivity.
Qed.

End SmellConfidence.

Example long_fn_smells :
  map (fun s => (kind s, line s, message s, confidence s))
      (detect_smells long_fn_text "src/big.rs")
  = [("long_function", 1, "102 line function", 1%Q)].
Proof. vm_compute. reflexivity. Qed.

(** C4, as stated, fails: the smell reported for a function of 102 lines is a
    heuristic structural match and carries confidence [1.0], above [0.8]. *)
Lemma long_function_confidence_above_range :
  ~ Forall confidence_as_specified (detect_smells long_fn_text "src/big.rs").
Proof.
  intros H.
  pose proof long_fn_smells as Hs.
  destruct (detect_smells long_fn_text "src/big.rs") as [|s [|s' l]];
    try discriminate Hs.
  simpl in Hs. injection Hs as Hk _ _ Hc.
  apply Forall_singleton in H as (_ & _ & Hrange).
  rewrite Hk, Hc in Hrange.
  destruct Hrange as [_ Hle]; [apply list_elem_of_here|].
  vm_compute in Hle. by apply Hle.
Qed.

(* ======================================================================= *)
(** * Properties of the end-line estimate *)
(* ======================================================================= *)

Section EndLine.

Lemma estimate_scan_lower (w : list string) (i bc : Z) (started : bool) (e : Z) :
  estimate_scan w i bc started = Some e -> i + 1 <= e.
Proof.
  revert i bc started.
  induction w as [|l w IH]; intros i bc started; simpl; [done|].
  destruct (_ && _); [intros [= <-]; lia|].
  destruct (_ && _); [intros [= <-]; lia|].
  intros He. apply IH in He. lia.
Qed.

Lemma estimate_symbol_end_lower (lines : list string) (start_idx : Z) :
  start_idx + 1 <= estimate_symbol_end lines start_idx.
Proof.
  unfold estimate_symbol_end.
  destruct (estimate_scan _ _ _ _) as [e|] eqn:He; [|lia].
  by apply estimate_scan_lower in He.
Qed.

Lemma extract_symbols_end_after_start (content file_path : string)
  (lines : list string) :
  Forall (fun s => line_start s <= line_end s)
         (extract_symbols content file_path lines).
Proof.
  unfold extract_symbols. apply Forall_app. split.
  - apply Forall_flat_map, Forall_forall. intros [k r] _. simpl.
    apply Forall_forall. intros s Hs.
    apply elem_of_map in Hs as (m & -> & _). simpl.
    pose proof (estimate_symbol_end_lower lines (line_of content m - 1)). lia.
  - apply Forall_forall. intros s Hs.
    apply elem_of_map in Hs as (m & -> & _). simpl.
    pose proof (estimate_symbol_end_lower lines (line_of content m - 1)). lia.
Qed.

(** The scan returns within the first [n] lines when the braces balance
    there. *)
Lemma estimate_scan_converges (w : list string) :
  forall (n : nat) (i bc : Z) (started : bool),
    (1 <= n <= length w)%nat ->
    started || existsb has_open_brace (take n w) = true ->
    bc + depth_change (take n w) = 0 ->
    exists e, estimate_scan w i bc started = Some e /\ i < e <= i + Z.of_nat n.
Proof.
  induction w as [|l w IH]; intros n i bc started Hn Hopen Hdepth;
    simpl in Hn; [lia|].
  destruct n as [|n]; [lia|].
  simpl in Hopen, Hdepth. simpl.
  fold (brace_delta l). fold (has_open_brace l).
  destruct ((started || has_open_brace l) && (bc + brace_delta l =? 0))
    eqn:Hfirst; [eexists; split; [reflexivity | lia]|].
  destruct (negb (started || has_open_brace l) && _);
    [eexists; split; [reflexivity | lia]|].
  destruct n as [|n].
  - simpl in Hopen, Hdepth. rewrite ?take_0 in Hopen, Hdepth.
    simpl in Hopen, Hdepth.
    rewrite orb_false_r in Hopen. rewrite Hopen in Hfirst. simpl in Hfirst.
    apply Z.eqb_neq in Hfirst. lia.
  - destruct (IH (S n) (i + 1) (bc + brace_delta l)
                (started || has_open_brace l)) as (e & He & Hrange).
    + lia.
    + by rewrite <- orb_assoc.
    + lia.
    + exists e. split; [exact He | lia].
Qed.

(** C7, as the program has it. The end line of every symbol the extractor
    yields is at least its start line; and when the braces of a definition
    balance on one of its first 500 lines, the estimate is found inside the
    scan window, no later than that line. *)
Theorem symbol_end_estimate (content file_path crate_name : string)
  (lines : list string) (start_idx : Z) (n : nat) :
  (forall m, extract_symbols_regex content file_path crate_name = Ok m ->
             Forall (fun s => line_start s <= line_end s) (symbols m))
  /\ (0 <= start_idx -> (n <= 500)%nat ->
      balanced_after n (drop (Z.to_nat start_idx) lines) = true ->
      converges lines start_idx
      /\ start_idx < estimate_symbol_end lines start_idx
           <= start_idx + Z.of_nat n).
Proof.
  split.
  - intros m Hm. unfold extract_symbols_regex in Hm.
    destruct (extract_gates _ _ _) as [gates|]; simpl in Hm; [|done].
    injection Hm as <-. simpl. apply extract_symbols_end_after_start.
  - intros Hstart Hn Hbal. unfold balanced_after in Hbal.
    apply andb_prop in Hbal as [Hbal Hdepth].
    apply andb_prop in Hbal as [Hbal Hopen].
    apply andb_prop in Hbal as [Hpos Hlen].
    apply Nat.ltb_lt in Hpos. apply Nat.leb_le in Hlen.
    apply Z.eqb_eq in Hdepth.
    set (ls := drop (Z.to_nat start_idx) lines) in *.
    assert (Hls : length ls = (length lines - Z.to_nat start_idx)%nat)
      by apply length_drop.
    assert (Hwin : take n (scan_window lines start_idx) = take n ls).
    { unfold scan_window. fold ls. rewrite take_take. f_equal. lia. }
    destruct (estimate_scan_converges (scan_window lines start_idx) n
                start_idx 0 false) as (e & He & Hrange).
    + unfold scan_window. fold ls. rewrite length_take. lia.
    + by rewrite Hwin.
    + by rewrite Hwin.
    + unfold converges, estimate_symbol_end. rewrite He. split; [by eexists|lia].
Qed.

End EndLine.

Lemma symbol_end_estimate_witness :
  (forall m, extract_symbols_regex dup_text "a.rs" "demo" = Ok m ->
             Forall (fun s => line_start s <= line_end s) (symbols m))
  /\ converges (Py.split_char Py.newline dup_text) 0
  /\ 0 < estimate_symbol_end (Py.split_char Py.newline dup_text) 0 <= 5.
Proof.
  destruct (symbol_end_estimate dup_text "a.rs" "demo"
              (Py.split_char Py.newline dup_text) 0 5) as [Hsyms Hconv].
  split; [exact Hsyms|].
  apply Hconv; [lia | lia | vm_compute; reflexivity].
Defined.

Example huge_fn_estimate :
  balanced_after 502 huge_fn_lines = true
  /\ estimate_scan (scan_window huge_fn_lines 0) 0 0 false = None
  /\ estimate_symbol_end huge_fn_lines 0 = 1.
Proof. vm_compute. repeat split. Qed.

(** C7, as stated, fails: a function of 502 lines has balanced braces, yet
    the scan uses up its window of 500 lines without returning (and the
    estimate falls back to the start line). *)
Lemma balanced_function_outruns_window :
  ~ (forall (lines : list string) (start_idx : Z) (n : nat),
       0 <= start_idx ->
       balanced_after n (drop (Z.to_nat start_idx) lines) = true ->
       converges lines start_idx).
Proof.
  intros H.
  destruct huge_fn_estimate as (Hbal & Hscan & _).
  specialize (H huge_fn_lines 0 502%nat (Z.le_refl 0) Hbal).
  unfold converges in H. rewrite Hscan in H. clear Hbal Hscan.
  destruct H as [e He]. discriminate He.
Qed.

(* ======================================================================= *)
(** * When the structural extractor raises *)
(* ======================================================================= *)

Section ExtractorTotality.

Lemma count_char_nonneg (c : ascii) (s : string) : 0 <= Py.count_char c s.
Proof. induction s as [|a s IH]; simpl; [lia|]. destruct (Ascii.eqb a c); lia. Qed.

Lemma count_char_take_le (c : ascii) (k : nat) (s : string) :
  Py.count_char c (Py.str_take k s) <= Py.count_char c s.
Proof.
  revert k. induction s as [|a s IH]; intros [|k]; simpl; try lia.
  - pose proof (count_char_nonneg c s). destruct (Ascii.eqb a c); lia.
  - specialize (IH k). destruct (Ascii.eqb a c); lia.
Qed.

Lemma length_split_char (c : ascii) (s : string) :
  Z.of_nat (length (Py.split_char c s)) = Py.count_char c s + 1.
Proof.
  induction s as [|a s IH]; simpl; [done|].
  destruct (Ascii.eqb a c); simpl.
  - lia.
  - pose proof (count_char_nonneg c s).
    destruct (Py.split_char c s); simpl in *; lia.
Qed.

(** A match starts on one of the lines of the text. *)
Lemma line_of_range (content : string) (m : Re.rmatch) :
  1 <= line_of content m
    <= Z.of_nat (length (Py.split_char Py.newline content)).
Proof.
  unfold line_of. rewrite length_split_char.
  pose proof (count_char_nonneg Py.newline (Py.str_take (Re.m_start m) content)).
  pose proof (count_char_take_le Py.newline (Re.m_start m) content). lia.
Qed.

Lemma getitem_range {A} (l : list A) (i : Z) :
  0 <= i ->
  if i <? Z.of_nat (length l) then exists a, getitem l i = Ok a
  else getitem l i = Raised IndexError.
Proof.
  intros Hi. unfold getitem.
  destruct (Z.ltb_spec i 0); [lia|]. destruct (Z.ltb_spec i 0); [lia|].
  destruct (Z.ltb_spec i (Z.of_nat (length l))) as [Hlt|Hge].
  - destruct (lookup_lt_is_Some_2 l (Z.to_nat i)) as [a Ha]; [lia|].
    rewrite Ha. by eexists.
  - rewrite (lookup_ge_None_2 l (Z.to_nat i)) by lia. done.
Qed.

Lemma extract_gate_cases (content file_path : string) (k : string)
  (m : Re.rmatch) :
  let lines := Py.split_char Py.newline content in
  if line_of content m =? Z.of_nat (length lines)
  then extract_gate content file_path lines k m = Raised IndexError
  else exists g, extract_gate content file_path lines k m = Ok g.
Proof.
  intros lines. unfold extract_gate.
  pose proof (line_of_range content m) as Hr. fold lines in Hr.
  destruct (Z.leb_spec (line_of content m) (Z.of_nat (length lines))); [|lia].
  pose proof (getitem_range lines (line_of content m)) as Hget.
  destruct (Z.eqb_spec (line_of content m) (Z.of_nat (length lines))) as [He|Hne].
  - rewrite He in Hget. rewrite Z.ltb_irrefl in Hget.
    rewrite He at 1. rewrite Hget by lia. done.
  - destruct (Z.ltb_spec (line_of content m) (Z.of_nat (length lines)));
      [|lia].
    destruct Hget as [a Ha]; [lia|]. rewrite Ha. by eexists.
Qed.

(** A loop whose body either raises [IndexError] or returns: it raises when
    the body raises on some element. *)
Lemma for_each_cases {A B} (f : A -> result B) (bad : A -> bool) (l : list A) :
  (forall a, if bad a then f a = Raised IndexError else exists b, f a = Ok b) ->
  if existsb bad l then for_each f l = Raised IndexError
  else exists bs, for_each f l = Ok bs.
Proof.
  intros Hf. induction l as [|a l IH]; simpl; [by eexists|].
  specialize (Hf a). destruct (bad a); simpl.
  - by rewrite Hf.
  - destruct Hf as [b ->]. simpl.
    destruct (existsb bad l).
    + by rewrite IH.
    + destruct IH as [bs ->]. by eexists.
Qed.

Lemma extract_gates_cases (content file_path : string) :
  let lines := Py.split_char Py.newline content in
  if gate_on_last_line content
  then extract_gates content file_path lines = Raised IndexError
  else exists gs, extract_gates content file_path lines = Ok gs.
Proof.
  intros lines. unfold extract_gates, gate_on_last_line. fold lines.
  generalize gate_patterns. intros pats.
  set (bad := fun m => line_of content m =? Z.of_nat (length lines)).
  assert (Hinner : forall kp : string * Re.regex,
    if existsb bad (Re.finditer kp.2 content)
    then for_each (extract_gate content file_path lines kp.1)
                  (Re.finditer kp.2 content) = Raised IndexError
    else exists gs, for_each (extract_gate content file_path lines kp.1)
                             (Re.finditer kp.2 content) = Ok gs).
  { intros kp. apply for_each_cases. intros m. apply extract_gate_cases. }
  pose proof (for_each_cases _ _ pats Hinner) as Hall.
  destruct (existsb _ pats).
  - by rewrite Hall.
  - destruct Hall as [gs ->]. by eexists.
Qed.

(** The extractor raises exactly on the texts in which a feature-gate match
    starts on the last line, and returns a module on all others. *)
Lemma extract_symbols_regex_cases (content file_path crate_name : string) :
  if gate_on_last_line content
  then extract_symbols_regex content file_path crate_name = Raised IndexError
  else exists m, extract_symbols_regex content file_path crate_name = Ok m.
Proof.
  unfold extract_symbols_regex.
  pose proof (extract_gates_cases content file_path) as Hg. simpl in Hg.
  destruct (gate_on_last_line content).
  - by rewrite Hg.
  - destruct Hg as [gs ->]. by eexists.
Qed.

End ExtractorTotality.

(** C1 fails on the program. A feature gate on the last line of a file makes
    the extractor index one past the last line ([lines[line_num]] under the
    guard [line_num <= len(lines)]), and it raises [IndexError] instead of
    returning a module: here on a file that only holds a gate, and on a file
    that ends with a gated declaration. *)
Theorem extract_symbols_regex_raises_on_last_line_gate :
  extract_symbols_regex gate_only_text "src/lib.rs" "demo" = Raised IndexError
  /\ extract_symbols_regex gate_at_end_text "src/lib.rs" "demo"
     = Raised IndexError.
Proof. split; vm_compute; reflexivity. Qed.

(* ======================================================================= *)
(** * Properties of cycle detection *)
(* ======================================================================= *)

Section Graph.

Lemma graph_get_add (k v : string) (g : list (string * list string))
  (a b : string) :
  b ∈ graph_get (graph_add k v g) a <-> (a = k /\ b = v) \/ b ∈ graph_get g a.
Proof.
  induction g as [|[k' vs] g IH]; simpl.
  - case_bool_decide; set_solver.
  - destruct (decide (k' = k)) as [->|Hk].
    + rewrite (bool_decide_eq_true_2 (k = k)) by done. simpl.
      case_bool_decide; set_solver.
    + rewrite (bool_decide_eq_false_2 (k' = k)) by done. simpl.
      case_bool_decide; set_solver.
Qed.

Lemma graph_keys_add (k v : string) (g : list (string * list string))
  (a : string) :
  a ∈ map fst (graph_add k v g) <-> a = k \/ a ∈ map fst g.
Proof.
  induction g as [|[k' vs] g IH]; simpl.
  - set_solver.
  - case_bool_decide; simpl; set_solver.
Qed.

Variable edges : list DependencyEdge.

Lemma graph_get_fold (es : list DependencyEdge) g (a b : string) :
  b ∈ graph_get (fold_left (fun g e => graph_add (from_crate e) (to_crate e) g)
                   es g) a
  <-> b ∈ graph_get g a \/ has_edge es a b.
Proof.
  revert g. induction es as [|e es IH]; intros g; simpl.
  - split; [by left|]. intros [H|(e & He & _)]; [done|].
    by apply elem_of_nil in He.
  - rewrite IH, graph_get_add. unfold has_edge. split.
    + intros [[[-> ->]|H]|(e' & He' & Hft)].
      * right. exists e. split; [left|done].
      * by left.
      * right. exists e'. split; [by right|done].
    + intros [H|(e' & He' & <- & <-)]; [left; by right|].
      apply elem_of_cons in He' as [->|He']; [left; by left|].
      right. by exists e'.
Qed.

Lemma graph_get_build (a b : string) :
  b ∈ graph_get (build_graph edges) a <-> has_edge edges a b.
Proof.
  unfold build_graph. rewrite graph_get_fold. simpl.
  split; [intros [H|H]; [by apply elem_of_nil in H | done] | by right].
Qed.

Lemma graph_keys_fold (es : list DependencyEdge) g (a : string) :
  a ∈ map fst (fold_left (fun g e => graph_add (from_crate e) (to_crate e) g)
                 es g)
  -> a ∈ map fst g \/ exists e, e ∈ es /\ from_crate e = a.
Proof.
  revert g. induction es as [|e es IH]; intros g; simpl; [by left|].
  intros H. apply IH in H as [H|(e' & He' & Hf)].
  - apply graph_keys_add in H as [->|H]; [|by left].
    right. exists e. split; [left|done].
  - right. exists e'. split; [by right|done].
Qed.

Lemma edge_nodes_from (e : DependencyEdge) :
  e ∈ edges -> from_crate e ∈ edge_nodes edges /\ to_crate e ∈ edge_nodes edges.
Proof.
  intros He. unfold edge_nodes.
  split; apply elem_of_list_to_set, elem_of_flat_map; exists e; set_solver.
Qed.

Lemma has_edge_nodes (a b : string) :
  has_edge edges a b -> a ∈ edge_nodes edges /\ b ∈ edge_nodes edges.
Proof. intros (e & He & <- & <-). by apply edge_nodes_from. Qed.

Lemma graph_keys_nodes (a : string) :
  a ∈ map fst (build_graph edges) -> a ∈ edge_nodes edges.
Proof.
  intros H. apply graph_keys_fold in H as [H|(e & He & <-)].
  - by apply elem_of_nil in H.
  - by apply edge_nodes_from.
Qed.

Hypothesis Hacyclic : acyclic edges.

Abbreviation N := (edge_nodes edges).
Abbreviation G := (build_graph edges).

Lemma dfs_neighbors_acyclic rec (depth : nat) (node : string)
  (path : list string) (R : gset string) :
  quiet_call edges rec depth ->
  node ∈ R -> (forall x, x ∈ R -> x = node \/ reach edges x node) ->
  forall neighbors st,
    (forall nb, nb ∈ neighbors -> has_edge edges node nb) ->
    rec_stack st = R -> node ∈ visited st -> visited st ⊆ N ->
    (size (N ∖ visited st) <= depth)%nat ->
    exists st', dfs_neighbors rec node path neighbors st = Ok (st', None)
      /\ cycles st' = cycles st /\ rec_stack st' = R ∖ {[ node ]}
      /\ visited st ⊆ visited st' /\ visited st' ⊆ N.
Proof.
  intros Hrec HnodeR HR.
  induction neighbors as [|nb rest IH]; intros st Hedges Hst Hvis HN Hdepth;
    simpl.
  - rewrite Hst, bool_decide_eq_true_2 by done.
    eexists. split; [reflexivity|]. simpl. done.
  - assert (Hnb : has_edge edges node nb) by (apply Hedges; left).
    assert (Hrest : forall nb', nb' ∈ rest -> has_edge edges node nb')
      by (intros; apply Hedges; by right).
    destruct (decide (nb ∈ visited st)) as [Hin|Hout].
    + rewrite bool_decide_eq_false_2 by (intros Hc; by apply Hc).
      assert (HnbR : nb ∉ rec_stack st).
      { rewrite Hst. intros HnbR. apply HR in HnbR as [->|Hreach].
        - apply (Hacyclic node). by apply reach_edge.
        - apply (Hacyclic nb). by eapply reach_step. }
      rewrite (bool_decide_eq_false_2 _ HnbR). simpl.
      by apply IH.
    + rewrite bool_decide_eq_true_2 by done.
      destruct (Hrec nb (path ++ [nb]) st) as (st' & -> & Hc & Hr & Hv & _ & HN');
        [by apply (has_edge_nodes node nb) | done | done | done | |].
      { intros x Hx. rewrite Hst in Hx. apply HR in Hx as [->|Hreach].
        - by apply reach_edge.
        - by eapply reach_step. }
      destruct (IH st') as (st'' & -> & Hc' & Hr' & Hv' & HN'');
        [done | congruence | set_solver | done | |].
      { eapply Nat.le_trans; [|exact Hdepth].
        apply subseteq_size. set_solver. }
      exists st''. split; [done|]. split; [congruence|].
      split; [done|]. split; [set_solver | done].
Qed.

Lemma dfs_acyclic (depth : nat) : quiet_call edges (dfs depth G) depth.
Proof.
  induction depth as [|depth IH];
    intros node path st HnodeN Hnew HN Hdepth Hstack.
  { assert (Hz : size (N ∖ visited st) = 0%nat) by lia.
    apply size_empty_inv in Hz. exfalso.
    apply (not_elem_of_empty (C := gset string) node), Hz.
    by apply elem_of_difference. }
  assert (Hfresh : node ∉ rec_stack st).
  { intros Hin. apply (Hacyclic node). by apply Hstack. }
  simpl.
  destruct (dfs_neighbors_acyclic (dfs depth G) depth node path
              ({[ node ]} ∪ rec_stack st)) with
    (neighbors := graph_get G node)
    (st := mkDfs (cycles st) ({[ node ]} ∪ visited st)
                 ({[ node ]} ∪ rec_stack st))
    as (st' & -> & Hc & Hr & Hv & HN'); simpl.
  - exact IH.
  - set_solver.
  - intros x Hx. apply elem_of_union in Hx as [Hx|Hx].
    + left. by apply elem_of_singleton in Hx.
    + right. by apply Hstack.
  - intros nb Hnb. by apply graph_get_build.
  - done.
  - set_solver.
  - set_solver.
  - assert (Hsub : N ∖ ({[ node ]} ∪ visited st) ⊂ N ∖ visited st).
    { split; [set_solver|]. intros Hsup. specialize (Hsup node). set_solver. }
    apply subset_size in Hsub. lia.
  - exists st'. split; [done|]. simpl in *. split; [done|].
    split; [rewrite Hr; set_solver|]. split; [set_solver|].
    split; [set_solver | done].
Qed.

Lemma visit_all_acyclic (depth : nat) (keys : list string) :
  (size N <= depth)%nat ->
  forall st, (forall k, k ∈ keys -> k ∈ N) -> visited st ⊆ N ->
    rec_stack st = ∅ ->
    exists st', visit_all depth G keys st = Ok st'
      /\ cycles st' = cycles st.
Proof.
  intros Hdepth. induction keys as [|k keys IH]; intros st Hkeys HN Hempty;
    simpl.
  - by eexists.
  - destruct (decide (k ∈ visited st)) as [Hin|Hout].
    + rewrite bool_decide_eq_false_2 by (intros Hc; by apply Hc).
      apply IH; [|done|done]. intros; apply Hkeys; by right.
    + rewrite bool_decide_eq_true_2 by done.
      destruct (dfs_acyclic depth k [k] st)
        as (st' & -> & Hc & Hr & Hv & _ & HN');
        [apply Hkeys; left | done | done | | |].
      { eapply Nat.le_trans; [|exact Hdepth].
        apply subseteq_size. set_solver. }
      { intros x Hx. rewrite Hempty in Hx. set_solver. }
      destruct (IH st') as (st'' & -> & Hc'); [|done|congruence|].
      { intros; apply Hkeys; by right. }
      exists st''. split; [done | congruence].
Qed.

(** On a graph without a cycle whose crates are no more than the nested
    calls allowed, the detector returns the empty list. *)
Lemma detect_cycles_acyclic (depth : nat) :
  (size N <= depth)%nat -> detect_cycles depth edges = Ok [].
Proof.
  intros Hdepth. unfold detect_cycles.
  destruct (visit_all_acyclic depth (map fst G) Hdepth) with
    (st := mkDfs [] ∅ ∅) as (st' & -> & Hc); simpl; try done.
  - intros k. apply graph_keys_nodes.
  - by rewrite Hc.
Qed.

End Graph.

(** ** A traversal no deeper than allowed returns *)

Section Totality.

Variable edges : list DependencyEdge.

Abbreviation N := (edge_nodes edges).
Abbreviation G := (build_graph edges).

Lemma dfs_neighbors_total rec (depth : nat) (node : string)
  (path : list string) :
  total_call edges rec depth ->
  forall neighbors st,
    (forall nb, nb ∈ neighbors -> nb ∈ N) ->
    node ∈ rec_stack st -> visited st ⊆ N -> rec_stack st ⊆ visited st ->
    (size (N ∖ visited st) <= depth)%nat ->
    exists st' r, dfs_neighbors rec node path neighbors st = Ok (st', r)
      /\ visited st ⊆ visited st' /\ visited st' ⊆ N
      /\ rec_stack st ∖ {[ node ]} ⊆ rec_stack st'
      /\ rec_stack st' ⊆ visited st'.
Proof.
  intros Hrec.
  induction neighbors as [|nb rest IH]; intros st Hnbs Hnode HN Hstack Hdepth;
    simpl.
  - rewrite bool_decide_eq_true_2 by done.
    eexists _, _. split; [reflexivity|]. simpl. set_solver.
  - assert (Hrest : forall nb', nb' ∈ rest -> nb' ∈ N)
      by (intros; apply Hnbs; by right).
    destruct (decide (nb ∈ visited st)) as [Hin|Hout].
    + rewrite bool_decide_eq_false_2 by (intros Hc; by apply Hc).
      destruct (_ && _).
      * eexists _, _. split; [reflexivity|]. set_solver.
      * by apply IH.
    + rewrite bool_decide_eq_true_2 by done.
      destruct (Hrec nb (path ++ [nb]) st)
        as (st1 & r & -> & Hv & _ & HN1 & Hr & Hs);
        [apply Hnbs; left | done | done | done | done |].
      assert (Hdepth1 : (size (N ∖ visited st1) <= depth)%nat).
      { eapply Nat.le_trans; [|exact Hdepth].
        apply subseteq_size. set_solver. }
      destruct r as [[|x res]|].
      * destruct (IH st1) as (st2 & r2 & -> & Hv2 & HN2 & Hr2 & Hs2);
          [done | set_solver | done | done | done |].
        eexists _, _. split; [reflexivity|]. set_solver.
      * destruct (IH (mkDfs (cycles st1 ++ [x :: res]) (visited st1)
                        (rec_stack st1)))
          as (st2 & r2 & -> & Hv2 & HN2 & Hr2 & Hs2); simpl;
          [done | set_solver | done | done | done |].
        simpl in *. eexists _, _. split; [reflexivity|]. set_solver.
      * destruct (IH st1) as (st2 & r2 & -> & Hv2 & HN2 & Hr2 & Hs2);
          [done | set_solver | done | done | done |].
        eexists _, _. split; [reflexivity|]. set_solver.
Qed.

Lemma dfs_total (depth : nat) : total_call edges (dfs depth G) depth.
Proof.
  induction depth as [|depth IH];
    intros node path st HnodeN Hnew HN Hstack Hdepth.
  { assert (Hz : size (N ∖ visited st) = 0%nat) by lia.
    apply size_empty_inv in Hz. exfalso.
    apply (not_elem_of_empty (C := gset string) node), Hz.
    by apply elem_of_difference. }
  simpl.
  destruct (dfs_neighbors_total (dfs depth G) depth node path IH
              (graph_get G node)
              (mkDfs (cycles st) ({[ node ]} ∪ visited st)
                     ({[ node ]} ∪ rec_stack st)))
    as (st' & r & -> & Hv & HN' & Hr & Hs); simpl.
  - intros nb Hnb. apply graph_get_build in Hnb.
    by apply (has_edge_nodes edges node nb).
  - set_solver.
  - set_solver.
  - set_solver.
  - assert (Hsub : N ∖ ({[ node ]} ∪ visited st) ⊂ N ∖ visited st).
    { split; [set_solver|]. intros Hsup. specialize (Hsup node). set_solver. }
    apply subset_size in Hsub. lia.
  - simpl in *. eexists _, _. split; [reflexivity|]. set_solver.
Qed.

Lemma visit_all_total (depth : nat) (keys : list string) :
  (size N <= depth)%nat ->
  forall st, (forall k, k ∈ keys -> k ∈ N) -> visited st ⊆ N ->
    rec_stack st ⊆ visited st ->
    exists st', visit_all depth G keys st = Ok st'.
Proof.
  intros Hdepth. induction keys as [|k keys IH]; intros st Hkeys HN Hstack;
    simpl.
  - by eexists.
  - assert (Hrest : forall k', k' ∈ keys -> k' ∈ N)
      by (intros; apply Hkeys; by right).
    destruct (decide (k ∈ visited st)) as [Hin|Hout].
    + rewrite bool_decide_eq_false_2 by (intros Hc; by apply Hc).
      by apply IH.
    + rewrite bool_decide_eq_true_2 by done.
      destruct (dfs_total depth k [k] st)
        as (st' & r & -> & Hv & _ & HN' & Hr & Hs);
        [apply Hkeys; left | done | done | done | |].
      { eapply Nat.le_trans; [|exact Hdepth].
        apply subseteq_size. set_solver. }
      by apply IH.
Qed.

(** [detect_cycles] returns a list of cycles on an edge list whose crates are
    no more than the nested calls allowed: no call of [dfs] is too deep, and
    [rec_stack.remove] finds its node. *)
Lemma detect_cycles_total (depth : nat) :
  (size N <= depth)%nat -> exists cs, detect_cycles depth edges = Ok cs.
Proof.
  intros Hdepth. unfold detect_cycles.
  destruct (visit_all_total depth (map fst G) Hdepth) with
    (st := mkDfs [] ∅ ∅) as (st' & ->); simpl; try done.
  - intros k. apply graph_keys_nodes.
  - by eexists.
Qed.

End Totality.

(** ** The one exception of the traversal *)

Section Outcome.

Variable edges : list DependencyEdge.

Lemma dfs_neighbors_safe rec (node : string) (path : list string) :
  safe_call rec ->
  forall neighbors st,
    node ∈ rec_stack st -> rec_stack st ⊆ visited st ->
    dfs_neighbors rec node path neighbors st = Raised RecursionError
    \/ exists st' r, dfs_neighbors rec node path neighbors st = Ok (st', r)
         /\ visited st ⊆ visited st'
         /\ rec_stack st ∖ {[ node ]} ⊆ rec_stack st'
         /\ rec_stack st' ⊆ visited st'.
Proof.
  intros Hrec.
  induction neighbors as [|nb rest IH]; intros st Hnode Hstack; simpl.
  - rewrite bool_decide_eq_true_2 by done.
    right. eexists _, _. split; [reflexivity|]. simpl. set_solver.
  - destruct (decide (nb ∈ visited st)) as [Hin|Hout].
    + rewrite bool_decide_eq_false_2 by (intros Hc; by apply Hc).
      destruct (_ && _).
      * right. eexists _, _. split; [reflexivity|]. set_solver.
      * by apply IH.
    + rewrite bool_decide_eq_true_2 by done.
      destruct (Hrec nb (path ++ [nb]) st Hout Hstack)
        as [->|(st1 & r & -> & Hv & _ & Hr & Hs)]; [by left|].
      destruct r as [[|x res]|].
      * destruct (IH st1) as [->|(st2 & r2 & -> & Hv2 & Hr2 & Hs2)];
          [set_solver | done | by left |].
        right. eexists _, _. split; [reflexivity|]. set_solver.
      * destruct (IH (mkDfs (cycles st1 ++ [x :: res]) (visited st1)
                        (rec_stack st1)))
          as [->|(st2 & r2 & -> & Hv2 & Hr2 & Hs2)]; simpl;
          [set_solver | done | by left |].
        simpl in *. right. eexists _, _. split; [reflexivity|]. set_solver.
      * destruct (IH st1) as [->|(st2 & r2 & -> & Hv2 & Hr2 & Hs2)];
          [set_solver | done | by left |].
        right. eexists _, _. split; [reflexivity|]. set_solver.
Qed.

Lemma dfs_safe (depth : nat) : safe_call (dfs depth (build_graph edges)).
Proof.
  induction depth as [|depth IH]; intros node path st Hnew Hstack;
    [by left|].
  simpl.
  destruct (dfs_neighbors_safe (dfs depth (build_graph edges)) node path IH
              (graph_get (build_graph edges) node)
              (mkDfs (cycles st) ({[ node ]} ∪ visited st)
                     ({[ node ]} ∪ rec_stack st)))
    as [->|(st' & r & -> & Hv & Hr & Hs)]; simpl.
  - set_solver.
  - set_solver.
  - by left.
  - simpl in *. right. eexists _, _. split; [reflexivity|]. set_solver.
Qed.

Lemma visit_all_safe (depth : nat) (keys : list string) :
  forall st, rec_stack st ⊆ visited st ->
    visit_all depth (build_graph edges) keys st = Raised RecursionError
    \/ exists st', visit_all depth (build_graph edges) keys st = Ok st'.
Proof.
  induction keys as [|k keys IH]; intros st Hstack; simpl.
  - right. by eexists.
  - destruct (decide (k ∈ visited st)) as [Hin|Hout].
    + rewrite bool_decide_eq_false_2 by (intros Hc; by apply Hc).
      by apply IH.
    + rewrite bool_decide_eq_true_2 by done.
      destruct (dfs_safe depth k [k] st Hout Hstack)
        as [->|(st' & r & -> & Hv & _ & Hr & Hs)]; [by left|].
      by apply IH.
Qed.

(** Whatever the depth allowed, a run of [detect_cycles] that does not
    return raises [RecursionError]: [rec_stack.remove] finds its node. *)
Lemma detect_cycles_outcome (depth : nat) :
  detect_cycles depth edges = Raised RecursionError
  \/ exists cs, detect_cycles depth edges = Ok cs.
Proof.
  unfold detect_cycles.
  destruct (visit_all_safe depth (map fst (build_graph edges))
              (mkDfs [] ∅ ∅)) as [->|[st' ->]]; simpl; [done | by left |].
  right. by eexists.
Qed.

End Outcome.

(** An edge list whose edges all go down a ranking of the crates has no
    cycle. *)
Lemma acyclic_by_rank (edges : list DependencyEdge) (rank : string -> nat) :
  Forall (fun e => (rank (to_crate e) < rank (from_crate e))%nat) edges ->
  acyclic edges.
Proof.
  intros Hrank.
  assert (Hdown : forall a b, reach edges a b -> (rank b < rank a)%nat).
  { rewrite Forall_forall in Hrank.
    induction 1 as [a b (e & He & <- & <-)|a b c _ IH (e & He & <- & <-)].
    - by apply Hrank.
    - specialize (Hrank e He). lia. }
  intros a Ha. apply Hdown in Ha. lia.
Qed.

Lemma detect_cycles_triangle (depth : nat) (a b c k1 k2 k3 : string)
  (f1 f2 f3 : list string) (o1 o2 o3 : bool) :
  a ≠ b -> b ≠ c -> a ≠ c -> (3 <= depth)%nat ->
  detect_cycles depth
    [mkDependencyEdge a b k1 f1 o1; mkDependencyEdge b c k2 f2 o2;
     mkDependencyEdge c a k3 f3 o3]
  = Ok [[a; b; c; a]].
Proof.
  intros Hab Hbc Hac Hdepth.
  destruct depth as [|[|[|depth]]]; [lia..|].
  unfold detect_cycles, build_graph.
  run_dfs. reflexivity.
Qed.

(** ** A chain deeper than the recursion allowed *)

Lemma chain_crate_length (i : nat) : String.length (chain_crate i) = S i.
Proof. induction i as [|i IH]; simpl; [done | by rewrite IH]. Qed.

Lemma chain_crate_inj (i j : nat) : chain_crate i = chain_crate j -> i = j.
Proof.
  intros H. apply (f_equal String.length) in H.
  rewrite !chain_crate_length in H. lia.
Qed.

Lemma deep_chain_edge (n : nat) (a b : string) :
  has_edge (deep_chain n) a b
  <-> exists i, (i < n)%nat /\ a = chain_crate i /\ b = chain_crate (S i).
Proof.
  unfold has_edge, deep_chain. split.
  - intros (e & He & <- & <-). apply list_elem_of_fmap in He as (i & -> & Hi).
    apply elem_of_seq in Hi. exists i. simpl. split; [lia | done].
  - intros (i & Hi & -> & ->).
    exists (mkDependencyEdge (chain_crate i) (chain_crate (S i)) "normal" []
              false).
    split; [|done].
    apply list_elem_of_fmap. exists i. split; [done|].
    apply elem_of_seq. lia.
Qed.

Lemma deep_chain_acyclic (n : nat) : acyclic (deep_chain n).
Proof.
  apply (acyclic_by_rank _ (fun s => (S n - String.length s)%nat)).
  apply Forall_forall. intros e He.
  apply list_elem_of_fmap in He as (i & -> & Hi). apply elem_of_seq in Hi.
  simpl. rewrite !chain_crate_length. lia.
Qed.

(** The first key of the graph is the crate the first edge starts from. *)
Lemma build_graph_first (e : DependencyEdge) (es : list DependencyEdge) :
  exists keys, map fst (build_graph (e :: es)) = from_crate e :: keys.
Proof.
  unfold build_graph. simpl.
  assert (Hkeep : forall es' g k keys,
    map fst g = k :: keys ->
    exists keys', map fst (fold_left (fun g e =>
                    graph_add (from_crate e) (to_crate e) g) es' g)
                  = k :: keys').
  { induction es' as [|e' es' IH]; intros g k keys Hg; simpl; [by eexists|].
    destruct g as [|[k' vs] g]; [done|]. injection Hg as -> Hg.
    simpl. case_bool_decide; by eapply IH. }
  by eapply Hkeep.
Qed.

(** A call of [dfs] on a crate of the chain that has at least as many
    crates after it as nested calls are allowed runs out of them. *)
Lemma dfs_deep_chain (n depth : nat) :
  forall i path st,
    (i + depth <= n)%nat ->
    (forall j, (i < j)%nat -> chain_crate j ∉ visited st) ->
    dfs depth (build_graph (deep_chain n)) (chain_crate i) path st
    = Raised RecursionError.
Proof.
  induction depth as [|depth IH]; intros i path st Hi Hnew; [done|].
  cbn [dfs].
  assert (Hnext : chain_crate (S i)
                  ∈ graph_get (build_graph (deep_chain n)) (chain_crate i)).
  { apply graph_get_build, deep_chain_edge. exists i. split; [lia | done]. }
  destruct (graph_get (build_graph (deep_chain n)) (chain_crate i))
    as [|nb rest] eqn:Hget; [by apply elem_of_nil in Hnext|].
  assert (nb = chain_crate (S i)) as ->.
  { assert (Hnb : nb ∈ graph_get (build_graph (deep_chain n)) (chain_crate i))
      by (rewrite Hget; left).
    apply graph_get_build, deep_chain_edge in Hnb as (j & _ & Hj & ->).
    by apply chain_crate_inj in Hj as <-. }
  cbn [dfs_neighbors visited]. rewrite bool_decide_eq_true_2.
  - rewrite IH; [done | lia |].
    intros j Hj. cbn [visited]. apply not_elem_of_union. split.
    + intros Heq%elem_of_singleton%chain_crate_inj. lia.
    + apply Hnew. lia.
  - apply not_elem_of_union. split.
    + intros Heq%elem_of_singleton%chain_crate_inj. lia.
    + apply Hnew. lia.
Qed.

(** On a chain of [n] edges, which has [n + 1] crates and no cycle, the
    detector raises [RecursionError] when fewer than [n + 1] nested calls are
    allowed. *)
Lemma detect_cycles_deep_chain (n depth : nat) :
  (1 <= n)%nat -> (depth <= n)%nat ->
  detect_cycles depth (deep_chain n) = Raised RecursionError.
Proof.
  intros Hn Hdepth. unfold detect_cycles.
  destruct n as [|n]; [lia|].
  destruct (build_graph_first
              (mkDependencyEdge (chain_crate 0) (chain_crate 1) "normal" [] false)
              (map (fun i => mkDependencyEdge (chain_crate i) (chain_crate (S i))
                               "normal" [] false) (seq 1 n)))
    as [keys Hkeys].
  change (deep_chain (S n)) with
    (mkDependencyEdge (chain_crate 0) (chain_crate 1) "normal" [] false
     :: map (fun i => mkDependencyEdge (chain_crate i) (chain_crate (S i))
                        "normal" [] false) (seq 1 n)) at 2.
  rewrite Hkeys. cbn [visit_all from_crate visited].
  rewrite bool_decide_eq_true_2 by set_solver.
  rewrite (dfs_deep_chain (S n) depth 0); [done | lia | set_solver].
Qed.


Lemma chain_edges_acyclic : acyclic chain_edges.
Proof.
  apply (acyclic_by_rank chain_edges chain_rank).
  repeat constructor; cbv; lia.
Qed.

Lemma chain_edges_size : size (edge_nodes chain_edges) = 3%nat.
Proof. by vm_compute. Qed.



Example detect_cycles_samples :
  detect_cycles 996
    [mkDependencyEdge "B" "C" "normal" [] false;
     mkDependencyEdge "C" "A" "normal" [] false;
     mkDependencyEdge "A" "B" "normal" [] false]
  = Ok [["B"; "C"; "A"; "B"]]
  /\ detect_cycles 996 [mkDependencyEdge "A" "A" "normal" [] false] = Ok []
  /\ detect_cycles 996 chain_edges = Ok []
  /\ detect_cycles 2 chain_edges = Raised RecursionError
  /\ detect_cycles 996 (deep_chain 1200) = Raised RecursionError.
Proof.
  split_and!; [by vm_compute.. |].
  apply detect_cycles_deep_chain; lia.
Qed.

(* ======================================================================= *)
(** * Two runs of the pipeline *)
(* ======================================================================= *)

(** ** The matrix entry of a feature is the sum of what the modules add *)

Section MatrixSum.

Lemma acc_eq (a b : usage_acc) :
  acc_crates a = acc_crates b -> acc_files a = acc_files b ->
  acc_symbols a = acc_symbols b -> acc_cfg_count a = acc_cfg_count b -> a = b.
Proof. destruct a, b; simpl; by intros -> -> -> ->. Qed.

Lemma join_None_l c : join None c = c.
Proof. by destruct c. Qed.

Lemma join_assoc o c1 c2 : join (join o c1) c2 = join o (join c1 c2).
Proof.
  destruct o as [a|], c1 as [b|], c2 as [c|]; simpl; try done.
  f_equal. apply acc_eq; simpl.
  - set_solver.
  - set_solver.
  - by rewrite app_assoc.
  - lia.
Qed.

Variable f : string.

Lemma additive_update (g : string) (upd : usage_acc -> usage_acc) :
  (forall a, upd a = acc_join a (upd empty_acc)) ->
  additive f (matrix_update g upd).
Proof.
  intros Hupd m. simpl.
  induction m as [|[k a] m IH]; simpl.
  - by case_bool_decide.
  - destruct (decide (k = g)) as [->|Hkg].
    + rewrite (bool_decide_eq_true_2 (g = g)) by done. simpl.
      case_bool_decide; simpl;
        [by rewrite (Hupd a) | by destruct (dict_get f m)].
    + rewrite (bool_decide_eq_false_2 (k = g)) by done. simpl.
      destruct (decide (k = f)) as [->|Hkf].
      * rewrite (bool_decide_eq_true_2 (f = f)) by done.
        by rewrite (bool_decide_eq_false_2 (g = f)) by congruence.
      * rewrite (bool_decide_eq_false_2 (k = f)) by done. exact IH.
Qed.

Lemma additive_fold {X} (step : X -> list (string * usage_acc)
                                 -> list (string * usage_acc)) (xs : list X) :
  (forall x, additive f (step x)) ->
  additive f (fun m => fold_left (fun m x => step x m) xs m).
Proof.
  intros Hstep. induction xs as [|x xs IH]; intros m; simpl.
  - by destruct (dict_get f m).
  - rewrite (IH (step x m)), (IH (step x [])), (Hstep x m).
    apply join_assoc.
Qed.

Lemma additive_compose F F' :
  additive f F -> additive f F' -> additive f (fun m => F' (F m)).
Proof.
  intros HF HF' m. rewrite (HF' (F m)), (HF' (F [])), (HF m).
  apply join_assoc.
Qed.

Lemma add_gate_join (c p : string) (a : usage_acc) :
  add_gate c p a = acc_join a (add_gate c p empty_acc).
Proof.
  apply acc_eq; simpl; [set_solver | set_solver | by rewrite app_nil_r | lia].
Qed.

Lemma add_symbol_join (c p : string) (s : Symbol) (a : usage_acc) :
  add_symbol c p s a = acc_join a (add_symbol c p s empty_acc).
Proof.
  apply acc_eq; simpl; [set_solver | set_solver | done | lia].
Qed.

Lemma additive_add_module (pm : string * ModuleInfo) :
  additive f (fun m => matrix_add_module m pm).
Proof.
  destruct pm as [p md]. unfold matrix_add_module.
  apply (additive_compose
           (fun m => fold_left (fun m gate =>
                       matrix_update (feature gate)
                         (add_gate (crate_name md) p) m)
                     (feature_gates md) m)
           (fun m => fold_left (fun m symbol =>
                       fold_left (fun m f0 =>
                         matrix_update f0
                           (add_symbol (crate_name md) p symbol) m)
                         (cfg_features symbol) m)
                     (symbols md) m)).
  - apply (additive_fold (fun gate => matrix_update (feature gate)
                                        (add_gate (crate_name md) p))).
    intros gate. apply additive_update, add_gate_join.
  - apply (additive_fold (fun symbol m =>
             fold_left (fun m f0 =>
                          matrix_update f0
                            (add_symbol (crate_name md) p symbol) m)
                       (cfg_features symbol) m)).
    intros symbol.
    apply (additive_fold (fun f0 => matrix_update f0
                                      (add_symbol (crate_name md) p symbol))).
    intros f0. apply additive_update, add_symbol_join.
Qed.

Lemma dict_get_fold_modules (modules : list (string * ModuleInfo)) m :
  dict_get f (fold_left matrix_add_module modules m)
  = fold_left (fun o pm => join o (contribution f pm)) modules (dict_get f m).
Proof.
  revert m. induction modules as [|pm modules IH]; intros m; simpl; [done|].
  by rewrite IH, (additive_add_module pm m).
Qed.

Lemma acc_equiv_refl a : acc_equiv a a.
Proof. by repeat split. Qed.

Lemma option_rel_refl (o : option usage_acc) : option_rel acc_equiv o o.
Proof. destruct o; simpl; [apply acc_equiv_refl | done]. Qed.

Lemma option_rel_trans (o1 o2 o3 : option usage_acc) :
  option_rel acc_equiv o1 o2 -> option_rel acc_equiv o2 o3 ->
  option_rel acc_equiv o1 o3.
Proof.
  destruct o1, o2, o3; simpl; try done.
  intros (H1 & H2 & H3 & H4) (H1' & H2' & H3' & H4').
  repeat split; try congruence. by etrans.
Qed.

Lemma join_equiv (o1 o2 c : option usage_acc) :
  option_rel acc_equiv o1 o2 ->
  option_rel acc_equiv (join o1 c) (join o2 c).
Proof.
  destruct o1 as [a|], o2 as [b|], c as [d|]; simpl; try done.
  intros (H1 & H2 & H3 & H4). unfold acc_equiv. simpl.
  rewrite H1, H2, H3, H4. done.
Qed.

Lemma join_swap (o c1 c2 : option usage_acc) :
  option_rel acc_equiv (join (join o c1) c2) (join (join o c2) c1).
Proof.
  destruct o as [a|], c1 as [b|], c2 as [c|]; simpl;
    try apply acc_equiv_refl; try done.
  - unfold acc_equiv. simpl. split; [set_solver|]. split; [set_solver|].
    split; [|lia]. rewrite <- !app_assoc. apply Permutation_app_head.
    apply Permutation_app_comm.
  - unfold acc_equiv. simpl. split; [set_solver|]. split; [set_solver|].
    split; [apply Permutation_app_comm | lia].
Qed.

Lemma fold_join_equiv (l : list (option usage_acc)) (o1 o2 : option usage_acc) :
  option_rel acc_equiv o1 o2 ->
  option_rel acc_equiv (fold_left join l o1) (fold_left join l o2).
Proof.
  revert o1 o2. induction l as [|c l IH]; intros o1 o2 Ho; simpl; [done|].
  by apply IH, join_equiv.
Qed.

Lemma fold_join_perm (l1 l2 : list (option usage_acc)) :
  l1 ≡ₚ l2 -> forall o,
  option_rel acc_equiv (fold_left join l1 o) (fold_left join l2 o).
Proof.
  induction 1 as [|c l1 l2 _ IH|c1 c2 l|l1 l2 l3 _ IH1 _ IH2]; intros o; simpl.
  - apply option_rel_refl.
  - apply IH.
  - apply fold_join_equiv, join_swap.
  - eapply option_rel_trans; [apply IH1 | apply IH2].
Qed.

Lemma fold_contribution (modules : list (string * ModuleInfo)) o :
  fold_left (fun o pm => join o (contribution f pm)) modules o
  = fold_left join (map (contribution f) modules) o.
Proof.
  revert o. induction modules as [|pm modules IH]; intros o; simpl; [done|].
  apply IH.
Qed.

(** The entry of [f] does not depend on the order of the module index, up to
    the order of its symbol list. *)
Lemma build_matrix_perm (ms1 ms2 : list (string * ModuleInfo)) :
  ms1 ≡ₚ ms2 ->
  option_rel acc_equiv (dict_get f (build_matrix ms1))
                       (dict_get f (build_matrix ms2)).
Proof.
  intros Hperm. unfold build_matrix.
  rewrite !dict_get_fold_modules, !fold_contribution.
  apply fold_join_perm. by apply Permutation_map.
Qed.

End MatrixSum.

(** ** The module index in terms of the completion order *)

Section CompletionOrder.

Variable ws : workspace.

Lemma parse_file_cases (file_path : string) :
  parse_file ws file_path = Raised IndexError
  \/ parse_file ws file_path = Ok None
  \/ exists m, parse_file ws file_path = Ok (Some m) /\ path m = file_path.
Proof.
  unfold parse_file.
  destruct (ws_read ws file_path) as [content|]; [|by right; left].
  case_bool_decide; [by right; left|].
  pose proof (extract_symbols_regex_cases content file_path
                (ws_crate ws file_path)) as Hcases.
  destruct (gate_on_last_line content).
  - left. by rewrite Hcases.
  - right. right. destruct Hcases as [m Hm]. rewrite Hm. simpl.
    exists m. split; [done|].
    unfold extract_symbols_regex in Hm.
    destruct (extract_gates _ _ _); simpl in Hm; [|done].
    by injection Hm as <-.
Qed.

Lemma dict_set_fresh {V} (k : string) (v : V) (d : list (string * V)) :
  k ∉ map fst d -> dict_set k v d = d ++ [(k, v)].
Proof.
  induction d as [|[k' v'] d IH]; simpl; [done|].
  intros Hk. apply not_elem_of_cons in Hk as [Hne Hk].
  rewrite bool_decide_eq_false_2 by congruence. by rewrite IH.
Qed.

Lemma parsed_keys (l : list string) (k : string) :
  k ∈ map fst (flat_map (parsed ws) l) -> k ∈ l.
Proof.
  induction l as [|f l IH]; simpl; [done|].
  rewrite map_app, elem_of_app. intros [Hk|Hk]; [|right; by apply IH].
  unfold parsed in Hk. destruct (parse_file ws f) as [[m|]|]; simpl in Hk;
    try by apply elem_of_nil in Hk.
  apply list_elem_of_singleton in Hk as ->. left.
Qed.

Lemma parsed_keys_NoDup (l : list string) :
  NoDup l -> NoDup (map fst (flat_map (parsed ws) l)).
Proof.
  induction 1 as [|f l Hf Hl IH]; simpl; [constructor|].
  rewrite map_app. apply NoDup_app. split; [|split; [|exact IH]].
  - unfold parsed. destruct (parse_file ws f) as [[m|]|]; simpl;
      [apply NoDup_singleton | constructor | constructor].
  - intros k Hk Hk'. apply parsed_keys in Hk'.
    unfold parsed in Hk. destruct (parse_file ws f) as [[m|]|]; simpl in Hk;
      try by apply elem_of_nil in Hk.
    apply list_elem_of_singleton in Hk as ->. contradiction.
Qed.

Lemma merge_modules_spec (completion : list string) :
  NoDup completion ->
  forall modules,
    (forall f, f ∈ completion -> f ∉ map fst modules) ->
    merge_modules ws completion modules
    = if existsb (raises ws) completion then Raised IndexError
      else Ok (modules ++ flat_map (parsed ws) completion).
Proof.
  induction 1 as [|f rest Hf Hrest IH]; intros modules Hfresh; simpl.
  - by rewrite app_nil_r.
  - unfold raises at 1, parsed at 1.
    destruct (parse_file_cases f) as [->|[->|(m & -> & Hpath)]]; simpl.
    + done.
    + apply IH. intros f' Hf'. apply Hfresh. by right.
    + rewrite Hpath, dict_set_fresh by (apply Hfresh; left).
      rewrite IH.
      * by rewrite <- app_assoc.
      * intros f' Hf'. rewrite map_app. simpl.
        intros Hin. apply elem_of_app in Hin as [Hin|Hin].
        -- by apply (Hfresh f'); [right|].
        -- apply list_elem_of_singleton in Hin as ->. contradiction.
Qed.

Lemma existsb_perm {A} (p : A -> bool) (l1 l2 : list A) :
  l1 ≡ₚ l2 -> existsb p l1 = existsb p l2.
Proof.
  induction 1 as [|x l1 l2 _ IH|x y l|l1 l2 l3 _ IH1 _ IH2]; simpl.
  - done.
  - by rewrite IH.
  - by destruct (p x), (p y).
  - congruence.
Qed.

End CompletionOrder.

Lemma dict_get_Some_NoDup {V} (k : string) (v : V) (d : list (string * V)) :
  NoDup (map fst d) -> dict_get k d = Some v <-> (k, v) ∈ d.
Proof.
  induction d as [|[k' v'] d IH]; simpl.
  - intros _. split; [done | by intros ?%elem_of_nil].
  - intros Hnd. apply NoDup_cons in Hnd as [Hk' Hnd].
    case_bool_decide as Hk.
    + subst k'. split.
      * intros [= ->]. left.
      * intros Hin. apply elem_of_cons in Hin as [[= ->]|Hin]; [done|].
        exfalso. apply Hk'. apply elem_of_map. by exists (k, v).
    + rewrite (IH Hnd). split; [by right|].
      intros Hin. apply elem_of_cons in Hin as [[= -> ->]|Hin]; [done|done].
Qed.

Lemma dict_get_perm {V} (k : string) (d1 d2 : list (string * V)) :
  NoDup (map fst d1) -> d1 ≡ₚ d2 -> dict_get k d1 = dict_get k d2.
Proof.
  intros Hnd1 Hperm.
  assert (Hnd2 : NoDup (map fst d2)).
  { assert (Hkeys : map fst d1 ≡ₚ map fst d2) by (by apply Permutation_map).
    by rewrite <- Hkeys. }
  destruct (dict_get k d1) as [v|] eqn:H1.
  - symmetry. apply dict_get_Some_NoDup; [done|].
    rewrite <- Hperm. by apply dict_get_Some_NoDup.
  - destruct (dict_get k d2) as [v|] eqn:H2; [|done].
    apply dict_get_Some_NoDup in H2; [|done].
    rewrite <- Hperm in H2. apply dict_get_Some_NoDup in H2; [|done].
    congruence.
Qed.

(** ** Two completion orders *)

Section TwoRuns.

Lemma finish_usage_equiv (los1 los2 : gset string -> list string)
  (a b : usage_acc) :
  (forall s, los1 s ≡ₚ elements s) -> (forall s, los2 s ≡ₚ elements s) ->
  acc_equiv a b ->
  usage_equiv (finish_usage los1 a) (finish_usage los2 b).
Proof.
  intros H1 H2 (Hc & Hf & Hs & Hn). unfold usage_equiv. simpl.
  rewrite Hc, Hf, Hn. repeat split; try done.
  - by rewrite H1, H2.
  - by rewrite H1, H2.
Qed.

Lemma feature_matrix_perm (los1 los2 : gset string -> list string)
  (ms1 ms2 : list (string * ModuleInfo)) (f : string) :
  (forall s, los1 s ≡ₚ elements s) -> (forall s, los2 s ≡ₚ elements s) ->
  ms1 ≡ₚ ms2 ->
  option_rel usage_equiv (dict_get f (build_feature_matrix los1 ms1))
                         (dict_get f (build_feature_matrix los2 ms2)).
Proof.
  intros H1 H2 Hperm. unfold build_feature_matrix.
  rewrite !dict_get_finish.
  pose proof (build_matrix_perm f ms1 ms2 Hperm) as Hacc.
  destruct (dict_get f (build_matrix ms1)), (dict_get f (build_matrix ms2));
    simpl in *; try done.
  by apply finish_usage_equiv.
Qed.

Lemma analyze_workspace_unfold (hash : string -> Z)
  (los : gset string -> list string) (ws : workspace)
  (completion : list string) :
  NoDup completion ->
  analyze_workspace hash los ws completion
  = if existsb (raises ws) completion then Raised IndexError
    else
      let modules := flat_map (parsed ws) completion in
      match cycle_smells (ws_depth ws) (ws_edges ws) with
      | Raised e => Raised e
      | Ok cs =>
          Ok (mkAnalysis modules (build_feature_matrix los modules)
                ((flat_map (file_smells ws) (ws_files ws)
                  ++ flat_map (fun pm : string * ModuleInfo =>
                       detect_imported_but_low_signal repr_symbol_dict
                         pm.2) modules) ++ cs)
                (detect_duplicates hash (ws_read ws) modules 5 (8 # 10)))
      end.
Proof.
  intros Hnd. unfold analyze_workspace.
  rewrite (merge_modules_spec ws completion Hnd []) by (intros; apply not_elem_of_nil).
  by destruct (existsb _ _).
Qed.

(** C3, as the program has it. Two runs over the same workspace, whatever
    the order in which the parse workers finish and whatever the string
    hashing of the two interpreter processes, end the same way; when they
    return, they yield the same module index, smell lists that are
    permutations of one another, and feature matrices whose entries agree up
    to the order of their lists. *)
Theorem analyze_workspace_up_to_order (hash1 hash2 : string -> Z)
  (los1 los2 : gset string -> list string) (ws : workspace)
  (order1 order2 : list string) :
  NoDup (ws_files ws) ->
  order1 ≡ₚ ws_files ws -> order2 ≡ₚ ws_files ws ->
  (forall s, los1 s ≡ₚ elements s) -> (forall s, los2 s ≡ₚ elements s) ->
  runs_agree outputs_up_to_order
    (analyze_workspace hash1 los1 ws order1)
    (analyze_workspace hash2 los2 ws order2).
Proof.
  intros Hnd Ho1 Ho2 Hlos1 Hlos2.
  assert (Hnd1 : NoDup order1) by (by rewrite Ho1).
  assert (Hnd2 : NoDup order2) by (by rewrite Ho2).
  assert (Hperm : order1 ≡ₚ order2) by (by rewrite Ho1, Ho2).
  rewrite !analyze_workspace_unfold by done.
  rewrite (existsb_perm (raises ws) order1 order2 Hperm).
  destruct (existsb (raises ws) order2); [done|]. simpl.
  assert (Hmods : flat_map (parsed ws) order1 ≡ₚ flat_map (parsed ws) order2)
    by (by apply Permutation_flat_map).
  destruct (cycle_smells (ws_depth ws) (ws_edges ws)) as [cs|e]; simpl;
    [|done].
  split; [|split]; simpl.
  - intros p. apply dict_get_perm; [|done]. by apply parsed_keys_NoDup.
  - apply Permutation_app_tail, Permutation_app_head.
    by apply Permutation_flat_map.
  - intros f. by apply feature_matrix_perm.
Qed.

End TwoRuns.

Lemma analyze_workspace_up_to_order_witness :
  runs_agree outputs_up_to_order
    (analyze_workspace poly_hash elements two_files ["src/a.rs"; "src/b.rs"])
    (analyze_workspace poly_hash elements two_files ["src/b.rs"; "src/a.rs"]).
Proof.
  apply (analyze_workspace_up_to_order poly_hash poly_hash elements elements
           two_files ["src/a.rs"; "src/b.rs"] ["src/b.rs"; "src/a.rs"]).
  - apply NoDup_cons. split; [|apply NoDup_singleton].
    intros Hin. apply list_elem_of_singleton in Hin. discriminate.
  - reflexivity.
  - apply perm_swap.
  - reflexivity.
  - reflexivity.
Defined.

Lemma usage_of_identical (x y : result analysis) (f : string) :
  runs_agree identical_outputs x y -> usage_of x f = usage_of y f.
Proof.
  destruct x as [r1|e1], y as [r2|e2]; simpl; try done.
  intros (_ & _ & Hu). apply Hu.
Qed.

Example two_files_usage :
  usage_symbols <$>
    usage_of (analyze_workspace poly_hash elements two_files
                ["src/a.rs"; "src/b.rs"]) "x"
  = Some [mkSymbolRef "run" "fn" "src/a.rs" 2;
          mkSymbolRef "run" "fn" "src/b.rs" 2]
  /\ usage_symbols <$>
       usage_of (analyze_workspace poly_hash elements two_files
                   ["src/b.rs"; "src/a.rs"]) "x"
     = Some [mkSymbolRef "run" "fn" "src/b.rs" 2;
             mkSymbolRef "run" "fn" "src/a.rs" 2].
Proof. split; vm_compute; reflexivity. Qed.

(** C3, as stated, fails: with two files that gate a function on the same
    feature, the run in which the worker of [a.rs] finishes first and the run
    in which the worker of [b.rs] finishes first list the gated symbols of the
    feature in different orders, so the matrix outputs are not identical. *)
Lemma analyze_workspace_depends_on_completion_order :
  ~ runs_agree identical_outputs
      (analyze_workspace poly_hash elements two_files ["src/a.rs"; "src/b.rs"])
      (analyze_workspace poly_hash elements two_files ["src/b.rs"; "src/a.rs"]).
Proof.
  intros H. apply (usage_of_identical _ _ "x") in H.
  destruct two_files_usage as [H1 H2].
  rewrite H in H1. rewrite H1 in H2. discriminate H2.
Qed.

(* ======================================================================= *)
(** * Progress of the matcher *)
(* ======================================================================= *)

Section Matcher.

Lemma str_drop_empty (n : nat) : Py.str_drop n EmptyString = EmptyString.
Proof. by destruct n. Qed.

Lemma str_drop_drop (n m : nat) (s : string) :
  Py.str_drop m (Py.str_drop n s) = Py.str_drop (n + m) s.
Proof.
  revert s. induction n as [|n IH]; intros s; simpl; [done|].
  destruct s as [|c s]; simpl; [apply str_drop_empty | apply IH].
Qed.

Lemma length_str_drop (n : nat) (s : string) :
  String.length (Py.str_drop n s) = (String.length s - n)%nat.
Proof.
  revert s. induction n as [|n IH]; intros s; simpl; [lia|].
  destruct s as [|c s]; simpl; [done | apply IH].
Qed.

Lemma extends_refl st : extends st st.
Proof. exists 0%nat. simpl. repeat split; lia. Qed.

Lemma extends_trans st1 st2 st3 :
  extends st1 st2 -> extends st2 st3 -> extends st1 st3.
Proof.
  intros (n & Hp & Hr & Hn) (m & Hp' & Hr' & Hm).
  exists (n + m)%nat. rewrite Hp', Hp, Hr', Hr, str_drop_drop.
  rewrite Hr, length_str_drop in Hm. repeat split; lia.
Qed.

Lemma run_star (greedy : bool) (r : Re.regex) st k :
  Re.run (Re.Star greedy r) st k
  = star_loop greedy r k (S (String.length (Re.st_rest st))) st.
Proof. reflexivity. Qed.

(** Whatever the matcher hands to its continuation lies further on in the
    same text. *)
Lemma run_extends (r : Re.regex) :
  forall st k x, Re.run r st k = Some x ->
    exists st', k st' = Some x /\ extends st st'.
Proof.
  induction r as [|p|r1 IH1 r2 IH2|r1 IH1 r2 IH2|greedy r IH|n r IH|ml|ml| |p|p];
    intros st k x H; [simpl in H|simpl in H|simpl in H|simpl in H|rewrite run_star in H|simpl in H..].
  - exists st. split; [done | apply extends_refl].
  - destruct st as [prev pos rest caps]; simpl in *.
    destruct rest as [|c rest]; [done|]. destruct (p c); [|done].
    eexists. split; [exact H|]. exists 1%nat. simpl. repeat split; lia.
  - apply IH1 in H as (st1 & H & E1). apply IH2 in H as (st2 & H & E2).
    exists st2. split; [done | by eapply extends_trans].
  - destruct (Re.run r1 st k) eqn:E.
    + apply IH1 in E as (st1 & E & E1). exists st1. split; [congruence | done].
    + by apply IH2.
  - revert H. generalize (S (String.length (Re.st_rest st))). intros fuel.
    revert st. induction fuel as [|fuel IHf]; intros st H; simpl in H.
    + exists st. split; [done | apply extends_refl].
    + destruct greedy.
      * match type of H with
        | match ?e with _ => _ end = _ => destruct e as [y|] eqn:E
        end.
        -- apply IH in E as (st1 & E & E1).
           destruct (Re.st_pos st <? Re.st_pos st1)%nat; [|done].
           injection H as <-. apply IHf in E as (st2 & E & E2).
           exists st2. split; [done | by eapply extends_trans].
        -- exists st. split; [done | apply extends_refl].
      * destruct (k st) as [y|] eqn:Ek.
        -- exists st. split; [congruence | apply extends_refl].
        -- apply IH in H as (st1 & E & E1).
           destruct (Re.st_pos st <? Re.st_pos st1)%nat; [|done].
           apply IHf in E as (st2 & E & E2).
           exists st2. split; [done | by eapply extends_trans].
  - apply IH in H as (st1 & H & E1). eexists. split; [exact H|].
    destruct E1 as (m & ? & ? & ?). exists m. simpl. done.
  - destruct (Re.at_bol ml st); [|done].
    exists st. split; [done | apply extends_refl].
  - destruct (Re.at_eol ml st); [|done].
    exists st. split; [done | apply extends_refl].
  - destruct (Re.at_wordb st); [|done].
    exists st. split; [done | apply extends_refl].
  - destruct (Re.prev_is p (Re.st_prev st)); [done|].
    exists st. split; [done | apply extends_refl].
  - destruct (Re.head_is p (Re.st_rest st)); [done|].
    exists st. split; [done | apply extends_refl].
Qed.

(** The span of a match lies within the text. *)
Lemma match_at_span (r : Re.regex) prev (pos : nat) (rest : string) m :
  Re.match_at r prev pos rest = Some m ->
  Re.m_start m = pos
  /\ (pos <= Re.m_end m <= pos + String.length rest)%nat.
Proof.
  unfold Re.match_at. intros H.
  destruct (Re.run r _ Some) as [st|] eqn:E; [|done].
  injection H as <-. apply run_extends in E as (st' & [= ->] & n & Hp & _ & Hn).
  simpl in *. lia.
Qed.

(** A match found by a search starts at some position of the text, where the
    pattern matches the rest of the text. *)
Lemma search_from_spec (r : Re.regex) (rest : string) :
  forall prev pos m, Re.search_from r prev pos rest = Some m ->
    exists (k : nat) prev',
      (k <= String.length rest)%nat
      /\ Re.match_at r prev' (pos + k) (Py.str_drop k rest) = Some m.
Proof.
  induction rest as [|c rest IH]; intros prev pos m H; simpl in H.
  - destruct (Re.match_at r prev pos EmptyString) eqn:E; [|done].
    exists 0%nat, prev. simpl. rewrite Nat.add_0_r. split; [lia | congruence].
  - destruct (Re.match_at r prev pos (String c rest)) eqn:E.
    + exists 0%nat, prev. simpl. rewrite Nat.add_0_r. split; [lia | congruence].
    + apply IH in H as (k & prev' & Hk & H).
      exists (S k), prev'. simpl. split; [lia|].
      by replace (pos + S k)%nat with (S pos + k)%nat by lia.
Qed.

Lemma advance_spec (n : nat) :
  forall prev rest prev' rest',
    Re.advance n prev rest = Some (prev', rest') ->
    rest' = Py.str_drop n rest /\ (n <= String.length rest)%nat.
Proof.
  induction n as [|n IH]; intros prev rest prev' rest' H; simpl in H.
  - injection H as <- <-. simpl. split; [done | lia].
  - destruct rest as [|c rest]; [done|].
    apply IH in H as [-> Hn]. simpl. split; [done | lia].
Qed.

(** Every match of [finditer] is a match of the pattern at some position of
    the text. *)
Lemma finditer_from_spec (r : Re.regex) (fuel : nat) :
  forall prev pos rest m,
    m ∈ Re.finditer_from fuel r prev pos rest ->
    exists (k : nat) prev',
      (k <= String.length rest)%nat
      /\ Re.match_at r prev' (pos + k) (Py.str_drop k rest) = Some m.
Proof.
  induction fuel as [|fuel IH]; intros prev pos rest m H; simpl in H.
  - by apply elem_of_nil in H.
  - destruct (Re.search_from r prev pos rest) as [m0|] eqn:E;
      [|by apply elem_of_nil in H].
    pose proof (search_from_spec _ _ _ _ _ E) as (k0 & p0 & Hk0 & Hm0).
    pose proof (match_at_span _ _ _ _ _ Hm0) as (Hs & He).
    set (next := if (Re.m_end m0 =? Re.m_start m0)%nat then S (Re.m_end m0)
                 else Re.m_end m0) in *.
    assert (Hnext : (pos <= next)%nat).
    { unfold next. destruct (_ =? _)%nat; lia. }
    destruct (Re.advance (next - pos) prev rest) as [[prev' rest']|] eqn:Ea.
    + apply elem_of_cons in H as [-> | H]; [by exists k0, p0|].
      apply advance_spec in Ea as [-> Hn].
      apply IH in H as (k & p & Hk & H).
      rewrite str_drop_drop in H. rewrite length_str_drop in Hk.
      exists (next - pos + k)%nat, p. split; [lia|].
      by replace (pos + (next - pos + k))%nat with (next + k)%nat by lia.
    + apply list_elem_of_singleton in H as ->. by exists k0, p0.
Qed.

Lemma finditer_start (r : Re.regex) (s : string) (m : Re.rmatch) :
  needs_char r -> m ∈ Re.finditer r s ->
  (Re.m_start m < String.length s)%nat.
Proof.
  intros Hr H. apply finditer_from_spec in H as (k & p & Hk & H).
  pose proof (match_at_span _ _ _ _ _ H) as (-> & _).
  destruct (decide (k = String.length s)) as [->|]; [|simpl; lia].
  assert (Py.str_drop (String.length s) s = EmptyString) as Hd.
  { clear. induction s; simpl; done. }
  rewrite Hd, Hr in H. done.
Qed.

End Matcher.

(* ======================================================================= *)
(** * What an extracted module records *)
(* ======================================================================= *)

Section ExtractedModule.

Lemma pow2_pos (e : Z) : 0 < Float.pow2 e.
Proof. unfold Float.pow2. apply Z.pow_pos_nonneg; lia. Qed.

Lemma pow2_nonpos (e : Z) : e <= 0 -> Float.pow2 e = 1.
Proof.
  intros He. unfold Float.pow2. by replace (Z.max 0 e) with 0 by lia.
Qed.

Lemma nearest_int_nonneg (n d : Z) :
  0 <= n -> 0 < d -> 0 <= Float.nearest_int n d.
Proof.
  intros Hn Hd. unfold Float.nearest_int.
  assert (0 <= n / d) by (apply Z.div_pos; lia).
  cbv zeta. repeat case_match; lia.
Qed.

Lemma nearest_int_le (n d k : Z) :
  0 < d -> n <= k * d -> Float.nearest_int n d <= k.
Proof.
  intros Hd Hn. unfold Float.nearest_int.
  pose proof (Z.div_mod n d ltac:(lia)) as Hdm.
  pose proof (Z.mod_pos_bound n d Hd) as Hm.
  assert (Hfl : n / d <= k) by (apply Z.div_le_upper_bound; lia).
  cbv zeta. destruct (2 * (n mod d) <? d) eqn:E1; [lia|].
  apply Z.ltb_ge in E1.
  assert (n / d < k) by nia.
  repeat case_match; lia.
Qed.

Lemma last_place_nonpos (n d : Z) :
  0 < n -> n <= d -> Float.last_place n d <= 0.
Proof.
  intros Hn Hd. unfold Float.last_place.
  pose proof (Z.log2_le_mono n d Hd).
  cbv zeta. case_match; lia.
Qed.

Lemma nearest_significand_nonneg (n d e : Z) :
  0 <= n -> 0 < d ->
  0 <= Float.nearest_int (n * Float.pow2 (- e)) (d * Float.pow2 e).
Proof.
  intros Hn Hd. pose proof (pow2_pos e). pose proof (pow2_pos (- e)).
  apply nearest_int_nonneg;
    [apply Z.mul_nonneg_nonneg | apply Z.mul_pos_pos]; lia.
Qed.

(** Rounding to the nearest double keeps a value at or above 0 there. *)
Lemma nearest_nonneg (q : Q) : (0 <= q)%Q -> (0 <= Float.nearest q)%Q.
Proof.
  intros Hq. unfold Qle in Hq. simpl in Hq.
  unfold Float.nearest. cbv zeta.
  destruct (Z.abs (Qnum q) =? 0) eqn:E; [apply Qle_refl|].
  apply Z.eqb_neq in E.
  pose proof (nearest_significand_nonneg (Z.abs (Qnum q)) (Zpos (Qden q))
                (Float.last_place (Z.abs (Qnum q)) (Zpos (Qden q)))
                ltac:(lia) ltac:(lia)) as Hm.
  pose proof (pow2_pos (Float.last_place (Z.abs (Qnum q)) (Zpos (Qden q)))).
  assert (Z.sgn (Qnum q) = 1) as -> by (apply Z.sgn_pos; lia).
  unfold Qle. cbn [Qnum Qden]. rewrite Z.mul_0_l, Z.mul_1_l, Z.mul_1_r.
  apply Z.mul_nonneg_nonneg; lia.
Qed.

(** Rounding to the nearest double keeps a value at or below 1 there. *)
Lemma nearest_le_1 (q : Q) : (q <= 1)%Q -> (Float.nearest q <= 1)%Q.
Proof.
  intros Hq. unfold Qle in Hq. simpl in Hq.
  unfold Float.nearest. cbv zeta.
  destruct (Z.abs (Qnum q) =? 0) eqn:E; [done|].
  apply Z.eqb_neq in E.
  set (e := Float.last_place _ _).
  pose proof (nearest_significand_nonneg (Z.abs (Qnum q)) (Zpos (Qden q)) e
                ltac:(lia) ltac:(lia)) as Hm0.
  pose proof (pow2_pos e) as He1. pose proof (pow2_pos (- e)) as He2.
  unfold Qle. cbn [Qnum Qden]. rewrite Z2Pos.id by done.
  rewrite Z.mul_1_r, Z.mul_1_l.
  destruct (Z.sgn_spec (Qnum q)) as [[Hs ->]|[[Hs ->]|[Hs ->]]]; [|lia|].
  - assert (He : e <= 0) by (apply last_place_nonpos; lia).
    rewrite (pow2_nonpos e He), Z.mul_1_l, !Z.mul_1_r.
    apply nearest_int_le; [lia|]. nia.
  - set (m := Float.nearest_int _ _) in *. nia.
Qed.

(** [Float.nearest] gives the value of the binary64 quotient of the library's
    specification of IEEE 754, on the quotients [i / u] with [u] up to 64
    and [i] up to [2 * u]. *)
Example nearest_agrees_with_binary64 :
  forallb (fun u =>
             forallb (fun i => Float.agrees_on (Z.of_nat i) (Z.of_nat u))
                     (seq 1 (2 * u)))
          (seq 1 64)
  = true.
Proof. by vm_compute. Qed.

(** Two roundings in which the float matters: the float of [37 / 40] lies
    above 0.925, which itself is half way between two decimals, and the
    float of [23 / 160 * 100] lies below 14.375. *)
Example round2_of_floats :
  round2 (Float.nearest (37 # 40)) = 93 # 100
  /\ round2 (37 # 40) = 92 # 100
  /\ round2 (Float.mul (Float.div (Float.of_int 23) (Float.of_int 160))
                       (Float.of_int 100))
     = 1437 # 100.
Proof. by vm_compute. Qed.

Lemma round2_nonneg (q : Q) : (0 <= q)%Q -> (0 <= round2 q)%Q.
Proof.
  intros Hq. unfold round2, Qle in *. simpl in *.
  rewrite Z.mul_1_r. apply nearest_int_nonneg; lia.
Qed.

Lemma count_from_nonneg (fuel : nat) (needle : string) :
  forall hay, 0 <= Py.count_from fuel needle hay.
Proof.
  induction fuel as [|fuel IH]; intros hay; simpl; [lia|].
  destruct hay as [|c hay]; [lia|].
  destruct (Py.startswith needle _).
  - specialize (IH (Py.str_drop (Nat.max 1 (String.length needle))
                                (String c hay))). lia.
  - apply IH.
Qed.

Lemma calculate_complexity_nonneg (content : string) (lines : list string) :
  (0 <= calculate_complexity content lines)%Q.
Proof.
  unfold calculate_complexity. apply round2_nonneg. cbv zeta.
  match goal with
  | |- context [fold_left ?f decision_keywords 0%Q] =>
      set (score := fold_left f decision_keywords 0%Q)
  end.
  assert (Hs : (0 <= score)%Q).
  { apply (fold_left_preserves (fun z => (0 <= z)%Q) (fun _ => True));
      [|by apply Forall_true|apply Qle_refl].
    intros z kw Hz _. unfold Py.count.
    pose proof (count_from_nonneg (String.length content)
                  (" " +:+ kw +:+ " ") content).
    pose proof (count_from_nonneg (String.length content)
                  (" " +:+ kw +:+ "(") content).
    pose proof (count_from_nonneg (String.length content)
                  (String Py.tab kw +:+ " ") content).
    apply nearest_nonneg.
    apply (Qplus_le_compat 0 z 0 _ Hz).
    apply nearest_nonneg. unfold Qle. simpl in *. lia. }
  clearbody score. destruct lines as [|l lines]; [done|].
  apply nearest_nonneg.
  apply Qmult_le_0_compat; [|by apply nearest_nonneg].
  apply nearest_nonneg.
  apply Qmult_le_0_compat; [done|].
  apply Qinv_le_0_compat, nearest_nonneg. unfold Qle. simpl. lia.
Qed.

(** A loop that returns has run its body, without an exception, on every
    element. *)
Lemma for_each_Ok {A B} (f : A -> result B) (l : list A) (bs : list B) :
  for_each f l = Ok bs -> Forall2 (fun a b => f a = Ok b) l bs.
Proof.
  revert bs. induction l as [|a l IH]; intros bs H; simpl in H.
  - injection H as <-. constructor.
  - destruct (f a) as [b|e] eqn:Ea; [|done]. simpl in H.
    destruct (for_each f l) as [bs'|e] eqn:El; [|done]. simpl in H.
    injection H as <-. constructor; [done | by apply IH].
Qed.

Lemma for_each_Forall {A B} (f : A -> result B) (P : B -> Prop)
  (l : list A) (bs : list B) :
  (forall a b, f a = Ok b -> P b) -> for_each f l = Ok bs -> Forall P bs.
Proof.
  intros Hf H. apply for_each_Ok in H.
  induction H as [|a b l bs Hab _ IH]; constructor; eauto.
Qed.

Lemma getitem_lookup {A} (l : list A) (i : Z) (a : A) :
  0 <= i -> getitem l i = Ok a ->
  i < Z.of_nat (length l) /\ l !! Z.to_nat i = Some a.
Proof.
  intros Hi. unfold getitem.
  destruct (Z.ltb_spec i 0); [lia|]. destruct (Z.ltb_spec i 0); [lia|].
  destruct (l !! Z.to_nat i) as [b|] eqn:E; [|done].
  intros [= ->]. split; [|done]. apply lookup_lt_Some in E. lia.
Qed.

Lemma estimate_scan_upper (w : list string) :
  forall (i bc : Z) (started : bool) (e : Z),
    estimate_scan w i bc started = Some e -> e <= i + Z.of_nat (length w).
Proof.
  induction w as [|l w IH]; intros i bc started e H; simpl in H; [done|].
  destruct (_ && _); [injection H as <-; simpl; lia|].
  destruct (_ && _); [injection H as <-; simpl; lia|].
  apply IH in H. simpl. lia.
Qed.

(** The estimated end lies within the scan window: at most 500 lines from
    the start, and not after the last line of the file. *)
Lemma estimate_symbol_end_upper (lines : list string) (start_idx : Z) :
  0 <= start_idx < Z.of_nat (length lines) ->
  estimate_symbol_end lines start_idx
    <= Z.min (start_idx + 500) (Z.of_nat (length lines)).
Proof.
  intros Hs. unfold estimate_symbol_end.
  destruct (estimate_scan _ _ _ _) as [e|] eqn:E; [|lia].
  apply estimate_scan_upper in E. unfold scan_window in E.
  rewrite length_take, length_drop in E. lia.
Qed.

Variables content file_path crate : string.

Abbreviation text_lines := (Py.split_char Py.newline content).

Lemma extract_gate_Ok (k : string) (m : Re.rmatch) (g : FeatureGate) :
  extract_gate content file_path text_lines k m = Ok g ->
  g_file g = file_path /\ g_kind g = k
  /\ 1 <= g_line g < Z.of_nat (length text_lines)
  /\ text_lines !! Z.to_nat (g_line g) = Some (scope g).
Proof.
  unfold extract_gate. pose proof (line_of_range content m) as Hr.
  destruct (Z.leb_spec (line_of content m) (Z.of_nat (length text_lines)));
    [|lia].
  destruct (getitem _ _) as [sc|e] eqn:E; [|done]. simpl.
  intros [= <-]. simpl. apply getitem_lookup in E as [? ?]; [|lia].
  repeat split; done || lia.
Qed.

Lemma extract_gates_Ok (gs : list FeatureGate) :
  extract_gates content file_path text_lines = Ok gs ->
  Forall (fun g =>
            g_file g = file_path
            /\ g_kind g ∈ map fst gate_patterns
            /\ 1 <= g_line g < Z.of_nat (length text_lines)
            /\ text_lines !! Z.to_nat (g_line g) = Some (scope g)) gs.
Proof.
  unfold extract_gates. generalize gate_patterns. intros pats.
  destruct (for_each _ pats) as [gss|e] eqn:E; [|done]. simpl.
  intros [= <-]. apply for_each_Ok in E.
  induction E as [|kp gs pats gss Hkp _ IH]; simpl; [constructor|].
  apply Forall_app. split.
  - eapply for_each_Forall; [|exact Hkp]. simpl.
    intros m g Hg. apply extract_gate_Ok in Hg as (? & -> & ? & ?).
    split_and!; try done; try lia. apply list_elem_of_here.
  - eapply Forall_impl; [exact IH|]. simpl.
    intros g (? & ? & ? & ?). split_and!; try done; try lia.
    by apply list_elem_of_further.
Qed.

Lemma extract_symbol_lines (k : string) (m : Re.rmatch) :
  let s := extract_symbol content file_path text_lines k m in
  s_file s = file_path
  /\ 1 <= line_start s <= line_end s
  /\ line_end s <= Z.of_nat (length text_lines)
  /\ line_end s - line_start s < 500.
Proof.
  simpl. pose proof (line_of_range content m) as Hr.
  pose proof (estimate_symbol_end_lower text_lines (line_of content m - 1)).
  pose proof (estimate_symbol_end_upper text_lines (line_of content m - 1)).
  repeat split; lia.
Qed.

Lemma extract_impl_lines (m : Re.rmatch) :
  let s := extract_impl content file_path text_lines m in
  s_file s = file_path
  /\ 1 <= line_start s <= line_end s
  /\ line_end s <= Z.of_nat (length text_lines)
  /\ line_end s - line_start s < 500.
Proof.
  simpl. pose proof (line_of_range content m) as Hr.
  pose proof (estimate_symbol_end_lower text_lines (line_of content m - 1)).
  pose proof (estimate_symbol_end_upper text_lines (line_of content m - 1)).
  repeat split; lia.
Qed.

Lemma extract_symbols_lines :
  Forall (fun s =>
            s_file s = file_path
            /\ 1 <= line_start s <= line_end s
            /\ line_end s <= Z.of_nat (length text_lines)
            /\ line_end s - line_start s < 500)
         (extract_symbols content file_path text_lines).
Proof.
  unfold extract_symbols. generalize symbol_patterns. intros pats.
  apply Forall_app. split.
  - apply Forall_forall. intros s Hs.
    apply elem_of_flat_map in Hs as (kp & _ & Hs).
    apply elem_of_map in Hs as (m & -> & _). apply extract_symbol_lines.
  - apply Forall_forall. intros s Hs.
    apply elem_of_map in Hs as (m & -> & _). apply extract_impl_lines.
Qed.

Lemma extract_symbols_regex_Ok (m : ModuleInfo) :
  extract_symbols_regex content file_path crate = Ok m ->
  exists gs,
    extract_gates content file_path text_lines = Ok gs
    /\ m = mkModuleInfo (module_name file_path crate) file_path crate
             (extract_symbols content file_path text_lines)
             (extract_imports content file_path) gs
             (Z.of_nat (length text_lines))
             (Z.of_nat (length (filter (fun l => is_doc_line l = true)
                                       text_lines)))
             (calculate_complexity content text_lines).
Proof.
  unfold extract_symbols_regex.
  destruct (extract_gates _ _ _) as [gs|e]; [|done]. simpl.
  intros [= <-]. by exists gs.
Qed.

(** X1. The extractor raises [IndexError] exactly on the texts in which a
    feature-gate match starts on the last line, and raises nothing else; on
    every other text it returns a module that carries the path and crate name
    it was given, the module name derived from them, one line more than the
    text has newline characters, a count of documentation lines between zero
    and the number of lines, and a complexity score that is not negative. *)
Theorem extract_symbols_regex_outcome :
  if gate_on_last_line content
  then extract_symbols_regex content file_path crate = Raised IndexError
  else exists m,
         extract_symbols_regex content file_path crate = Ok m
         /\ path m = file_path /\ crate_name m = crate
         /\ m_name m = module_name file_path crate
         /\ lines m = Py.count_char Py.newline content + 1
         /\ 0 <= doc_lines m <= lines m
         /\ (0 <= complexity_score m)%Q.
Proof.
  pose proof (extract_symbols_regex_cases content file_path crate) as H.
  destruct (gate_on_last_line content); [done|].
  destruct H as [m Hm]. exists m. split; [done|].
  apply extract_symbols_regex_Ok in Hm as (gs & _ & ->). simpl.
  rewrite <- length_split_char. repeat split; try lia.
  - pose proof (length_filter (fun l => is_doc_line l = true) text_lines). lia.
  - apply calculate_complexity_nonneg.
Qed.

(** X2. In a module the extractor returns, every symbol, import and feature
    gate is recorded under the path of the file and on one of its lines; a
    symbol ends on a line of the file, not before its start and fewer than
    500 lines after it; a feature gate is never on the last line, and its
    scope is the text of the line that follows it. *)
Theorem extracted_positions (m : ModuleInfo) :
  extract_symbols_regex content file_path crate = Ok m ->
  Forall (fun s => s_file s = file_path
                   /\ 1 <= line_start s <= line_end s
                   /\ line_end s <= lines m
                   /\ line_end s - line_start s < 500) (symbols m)
  /\ Forall (fun i => i_file i = file_path /\ 1 <= i_line i <= lines m)
            (imports m)
  /\ Forall (fun g => g_file g = file_path
                      /\ 1 <= g_line g < lines m
                      /\ text_lines !! Z.to_nat (g_line g) = Some (scope g))
            (feature_gates m).
Proof.
  intros Hm. apply extract_symbols_regex_Ok in Hm as (gs & Hgs & ->). simpl.
  split; [apply extract_symbols_lines|]. split.
  - apply Forall_forall. intros i Hi.
    apply elem_of_map in Hi as (r & -> & _). simpl.
    split; [done | apply line_of_range].
  - apply extract_gates_Ok in Hgs. eapply Forall_impl; [exact Hgs|].
    simpl. intros g (? & _ & ? & ?). done.
Qed.

(** X3. What the extractor never records. The kind of a symbol is one of the
    eight kinds of the symbol table and its visibility is [pub] or
    [private], never [pub(crate)]; an [impl] block is always [pub] and names
    its type as parent, any other symbol has no parent; no symbol has a count
    of documentation lines, no import has an alias, and the kind of a
    feature gate is [cfg], [cfg_any] or [cfg_attr]. *)
Theorem extracted_kinds (m : ModuleInfo) :
  extract_symbols_regex content file_path crate = Ok m ->
  Forall (fun s =>
            s_kind s ∈ ["struct"; "enum"; "trait"; "fn"; "const"; "type";
                        "macro"; "impl"]
            /\ visibility s ∈ ["pub"; "private"]
            /\ (s_kind s = "impl" ->
                visibility s = "pub" /\ is_Some (parent s)
                /\ cfg_features s = [])
            /\ (s_kind s ≠ "impl" -> parent s = None)
            /\ s_doc_lines s = 0) (symbols m)
  /\ Forall (fun i => alias i = None) (imports m)
  /\ Forall (fun g => g_kind g ∈ ["cfg"; "cfg_any"; "cfg_attr"])
            (feature_gates m).
Proof.
  intros Hm. apply extract_symbols_regex_Ok in Hm as (gs & Hgs & ->). simpl.
  split; [|split].
  - unfold extract_symbols. apply Forall_app. split.
    + apply Forall_forall. intros s Hs.
      apply elem_of_flat_map in Hs as (kp & Hkp & Hs).
      apply elem_of_map in Hs as (r & -> & _). simpl.
      assert (Hk : kp.1 ∈ map fst symbol_patterns)
        by (apply elem_of_map; by exists kp).
      split; [|split; [|split; [|split]]].
      * simpl in Hk. set_solver.
      * destruct (Re.group r 1) as [g|]; [destruct (Py.contains "pub" g)|];
          set_solver.
      * intros He. rewrite He in Hk. simpl in Hk. set_solver.
      * done.
      * done.
    + apply Forall_forall. intros s Hs.
      apply elem_of_map in Hs as (r & -> & _). simpl.
      split; [set_solver|]. split; [set_solver|]. split; [|done].
      intros _. split; [done|]. split; [by eexists | done].
  - apply Forall_forall. intros i Hi.
    by apply elem_of_map in Hi as (r & -> & _).
  - apply extract_gates_Ok in Hgs. eapply Forall_impl; [exact Hgs|].
    simpl. intros g (_ & ? & _). done.
Qed.

End ExtractedModule.

Section NewlineTerminated.

Lemma count_char_app (c : ascii) (s t : string) :
  Py.count_char c (s +:+ t) = Py.count_char c s + Py.count_char c t.
Proof. induction s as [|a s IH]; simpl; [done|]. rewrite IH. lia. Qed.

Lemma str_take_app (n : nat) (s t : string) :
  (n <= String.length s)%nat -> Py.str_take n (s +:+ t) = Py.str_take n s.
Proof.
  revert n. induction s as [|a s IH]; intros [|n] Hn; simpl in *.
  - by destruct t.
  - lia.
  - done.
  - rewrite IH by lia. done.
Qed.

Lemma length_append (s t : string) :
  String.length (s +:+ t) = (String.length s + String.length t)%nat.
Proof. induction s as [|a s IH]; simpl; [done | by rewrite IH]. Qed.

Lemma gate_patterns_need_char :
  Forall (fun kp : string * Re.regex => needs_char kp.2) gate_patterns.
Proof. repeat constructor. Qed.

(** No feature-gate match starts on the last line of a text that ends with
    a newline: that line is empty. *)
Lemma no_gate_after_final_newline (s : string) :
  gate_on_last_line (s +:+ Py.nl) = false.
Proof.
  unfold gate_on_last_line. pose proof gate_patterns_need_char as Hpats.
  revert Hpats. generalize gate_patterns. intros pats Hpats.
  apply not_true_is_false. intros H.
  apply existsb_exists in H as (kp & Hkp & H).
  apply existsb_exists in H as (m & Hm & H).
  apply Z.eqb_eq in H. rewrite length_split_char in H.
  rewrite Forall_forall in Hpats.
  apply list_elem_of_In in Hkp, Hm.
  pose proof (finditer_start _ _ _ (Hpats _ Hkp) Hm) as Hlt.
  rewrite length_append in Hlt. simpl in Hlt.
  unfold line_of in H. rewrite str_take_app in H by lia.
  rewrite count_char_app in H. simpl in H.
  pose proof (count_char_take_le Py.newline (Re.m_start m) s). lia.
Qed.

(** X4. On a text that ends with a newline the extractor raises no exception:
    it returns a module. *)
Theorem extract_symbols_regex_newline_terminated
  (s file_path crate : string) :
  exists m, extract_symbols_regex (s +:+ Py.nl) file_path crate = Ok m.
Proof.
  pose proof (extract_symbols_regex_cases (s +:+ Py.nl) file_path crate) as H.
  by rewrite no_gate_after_final_newline in H.
Qed.

End NewlineTerminated.

Lemma extracted_positions_witness :
  exists m,
    extract_symbols_regex gated_text "src/a.rs" "demo" = Ok m
    /\ Forall (fun s => s_file s = "src/a.rs"
                        /\ 1 <= line_start s <= line_end s
                        /\ line_end s <= lines m
                        /\ line_end s - line_start s < 500) (symbols m)
    /\ Forall (fun i => i_file i = "src/a.rs" /\ 1 <= i_line i <= lines m)
              (imports m)
    /\ Forall (fun g => g_file g = "src/a.rs"
                        /\ 1 <= g_line g < lines m
                        /\ Py.split_char Py.newline gated_text
                             !! Z.to_nat (g_line g) = Some (scope g))
              (feature_gates m).
Proof.
  eexists. split; [vm_compute; reflexivity|].
  apply (extracted_positions gated_text "src/a.rs" "demo").
  vm_compute. reflexivity.
Defined.

Lemma extracted_kinds_witness :
  exists m,
    extract_symbols_regex gated_text "src/a.rs" "demo" = Ok m
    /\ Forall (fun s =>
            s_kind s ∈ ["struct"; "enum"; "trait"; "fn"; "const"; "type";
                        "macro"; "impl"]
            /\ visibility s ∈ ["pub"; "private"]
            /\ (s_kind s = "impl" ->
                visibility s = "pub" /\ is_Some (parent s)
                /\ cfg_features s = [])
            /\ (s_kind s ≠ "impl" -> parent s = None)
            /\ s_doc_lines s = 0) (symbols m)
    /\ Forall (fun i => alias i = None) (imports m)
    /\ Forall (fun g => g_kind g ∈ ["cfg"; "cfg_any"; "cfg_attr"])
              (feature_gates m).
Proof.
  eexists. split; [vm_compute; reflexivity|].
  apply (extracted_kinds gated_text "src/a.rs" "demo").
  vm_compute. reflexivity.
Defined.

(* ======================================================================= *)
(** * Names of extracted symbols *)
(* ======================================================================= *)

Section SymbolNames.

Lemma str_take_0 (s : string) : Py.str_take 0 s = EmptyString.
Proof. by destruct s. Qed.

(** What a greedy loop over a character class consumes. *)
Lemma star_cls_consumes (p : ascii -> bool) k x (fuel : nat) :
  forall st,
    star_loop true (Re.Cls p) k fuel st = Some x ->
    exists st' (n : nat),
      k st' = Some x
      /\ Re.st_pos st' = (Re.st_pos st + n)%nat
      /\ Re.st_caps st' = Re.st_caps st
      /\ all_chars p (Py.str_take n (Re.st_rest st)) = true.
Proof.
  assert (Hstay : forall st, k st = Some x ->
    exists st' (n : nat),
      k st' = Some x
      /\ Re.st_pos st' = (Re.st_pos st + n)%nat
      /\ Re.st_caps st' = Re.st_caps st
      /\ all_chars p (Py.str_take n (Re.st_rest st)) = true).
  { intros st Hk. exists st, 0%nat. rewrite str_take_0.
    split_and!; done || lia. }
  induction fuel as [|fuel IH]; intros st H; simpl in H; [by apply Hstay|].
  destruct (Re.st_rest st) as [|c rest] eqn:Hrest;
    [rewrite <- Hrest; by apply Hstay|].
  destruct (p c) eqn:Hc; [|rewrite <- Hrest; by apply Hstay].
  simpl in H.
  destruct (Re.st_pos st <? S (Re.st_pos st))%nat eqn:Hlt;
    [|apply Nat.ltb_ge in Hlt; lia].
  match type of H with
  | match ?e with _ => _ end = _ => destruct e as [y|] eqn:Hloop
  end; [|rewrite <- Hrest; by apply Hstay].
  injection H as <-.
  apply IH in Hloop as (st' & n & Hk & Hp & Hcaps & Ha). simpl in *.
  exists st', (S n). simpl. rewrite Hc, Ha. split_and!; done || lia.
Qed.

Lemma run_grp (n : nat) (r : Re.regex) st k :
  Re.run (Re.Grp n r) st k
  = Re.run r st (fun st' =>
      k (Re.MState (Re.st_prev st') (Re.st_pos st') (Re.st_rest st')
           ((n, Py.str_take (Re.st_pos st' - Re.st_pos st) (Re.st_rest st))
              :: Re.st_caps st'))).
Proof. reflexivity. Qed.

Lemma run_seq (r1 r2 : Re.regex) st k :
  Re.run (Re.Seq r1 r2) st k = Re.run r1 st (fun st' => Re.run r2 st' k).
Proof. reflexivity. Qed.

Lemma run_cls (p : ascii -> bool) st k :
  Re.run (Re.Cls p) st k
  = match Re.st_rest st with
    | String c s' =>
        if p c
        then k (Re.MState (Some c) (S (Re.st_pos st)) s' (Re.st_caps st))
        else None
    | EmptyString => None
    end.
Proof. reflexivity. Qed.

(** A group over [p+] at the end of a pattern binds a non-empty text of the
    class, on top of the groups bound before. *)
Lemma run_group_plus (p : ascii -> bool) (g : nat) st x :
  Re.run (Re.Grp g (Re.plus (Re.Cls p))) st Some = Some x ->
  exists name,
    Re.st_caps x = (g, name) :: Re.st_caps st
    /\ name ≠ EmptyString /\ all_chars p name = true.
Proof.
  unfold Re.plus. rewrite run_grp, run_seq, run_cls.
  destruct (Re.st_rest st) as [|c rest] eqn:Hrest; [done|].
  destruct (p c) eqn:Hc; [|done].
  rewrite run_star. intros H.
  apply star_cls_consumes in H as (st' & n & Hk & Hp & Hcaps & Ha).
  injection Hk as <-. simpl in *. rewrite Hp, Hcaps.
  replace (S (Re.st_pos st + n) - Re.st_pos st)%nat with (S n) by lia.
  eexists. split; [reflexivity|]. simpl. by rewrite Hc, Ha.
Qed.

(** The last element of a sequence is matched after the others. *)
Lemma run_seq_last (rs : list Re.regex) (r : Re.regex) :
  forall st k x,
    Re.run (Re.seq (rs ++ [r])) st k = Some x ->
    exists st1, Re.run r st1 k = Some x.
Proof.
  induction rs as [|a rs IH]; intros st k x H; [by exists st|].
  assert (Hseq : Re.seq ((a :: rs) ++ [r]) = Re.Seq a (Re.seq (rs ++ [r])))
    by (simpl; by destruct rs).
  rewrite Hseq in H. simpl in H.
  apply run_extends in H as (st1 & H & _). by eapply IH.
Qed.

Lemma assoc_nat_here (g : nat) (name : string) caps :
  Re.assoc_nat g ((g, name) :: caps) = Some name.
Proof. simpl. by rewrite Nat.eqb_refl. Qed.

(** In a match of a pattern that ends with the group [(\w+)], the group
    holds an identifier. *)
Lemma match_at_name (rs : list Re.regex) prev (pos : nat) (rest : string) m :
  Re.match_at (Re.seq (rs ++ [Re.Grp 2 (Re.plus Re.wd)])) prev pos rest
  = Some m ->
  identifier (group_str m 2).
Proof.
  unfold Re.match_at. intros H.
  destruct (Re.run _ _ Some) as [x|] eqn:E; [|done]. injection H as <-.
  apply run_seq_last in E as (st1 & E).
  apply run_group_plus in E as (name & Hcaps & Hne & Hall).
  unfold group_str, Re.group. simpl. rewrite Hcaps, assoc_nat_here. done.
Qed.

Lemma finditer_name (rs : list Re.regex) (content : string) m :
  m ∈ Re.finditer (Re.seq (rs ++ [Re.Grp 2 (Re.plus Re.wd)])) content ->
  identifier (group_str m 2).
Proof.
  intros H. apply finditer_from_spec in H as (k & prev & _ & H).
  by eapply match_at_name.
Qed.

(** Each pattern of the symbol table, and the [impl] pattern, ends with the
    group [(\w+)] of the name. *)
Lemma symbol_patterns_end_with_name :
  Forall (fun kp : string * Re.regex =>
            exists rs, kp.2 = Re.seq (rs ++ [Re.Grp 2 (Re.plus Re.wd)]))
         (("impl", Patterns.impl_block) :: symbol_patterns).
Proof.
  assert (Hitem : forall keyword,
    exists rs, Patterns.item keyword
               = Re.seq (rs ++ [Re.Grp 2 (Re.plus Re.wd)])).
  { intros keyword.
    by exists [Re.Bol true; Re.star Re.ws; Patterns.vis_group;
               Re.lit keyword; Re.plus Re.ws]. }
  unfold symbol_patterns.
  repeat match goal with
         | |- Forall _ (_ :: _) => apply List.Forall_cons
         | |- Forall _ [] => apply List.Forall_nil
         end; cbv beta; cbn [snd]; try apply Hitem.
  - by exists [Re.Bol true; Re.star Re.ws; Re.lit "impl";
               Re.opt (Re.seq [Re.chr "<"; Re.plus (Re.notchr ">");
                               Re.chr ">"]);
               Re.plus Re.ws;
               Re.opt (Re.seq [Re.Grp 1 (Re.plus Re.wd); Re.plus Re.ws;
                               Re.lit "for"; Re.plus Re.ws])].
  - by exists [Re.Bol true; Re.star Re.ws; Patterns.vis_group;
               Re.opt (Re.seq [Re.lit "async"; Re.plus Re.ws]);
               Re.opt (Re.seq [Re.lit "const"; Re.plus Re.ws]);
               Re.opt (Re.seq [Re.lit "unsafe"; Re.plus Re.ws]);
               Re.lit "fn"; Re.plus Re.ws].
Qed.

(** X5. Names are identifiers. In a module the extractor returns, the name
    of every symbol other than an [impl] block is a non-empty run of word
    characters, and the parent of an [impl] block, the type it implements,
    is one too. *)
Theorem extracted_names (content file_path crate : string) (m : ModuleInfo) :
  extract_symbols_regex content file_path crate = Ok m ->
  Forall (fun s =>
            if bool_decide (s_kind s = "impl")
            then exists t, parent s = Some t /\ identifier t
            else identifier (s_name s))
         (symbols m).
Proof.
  intros Hm. apply extract_symbols_regex_Ok in Hm as (gs & _ & ->). simpl.
  pose proof symbol_patterns_end_with_name as Hpats.
  apply Forall_cons in Hpats as [[rs Himpl] Hpats]. simpl in Himpl.
  unfold extract_symbols. apply Forall_app. split.
  - apply Forall_forall. intros s Hs.
    apply elem_of_flat_map in Hs as (kp & Hkp & Hs).
    apply elem_of_map in Hs as (r & -> & Hr). simpl.
    assert (Hk : kp.1 ∈ map fst symbol_patterns)
      by (apply elem_of_map; by exists kp).
    rewrite bool_decide_eq_false_2
      by (intros He; rewrite He in Hk; simpl in Hk; set_solver).
    rewrite Forall_forall in Hpats. destruct (Hpats kp Hkp) as [rs' Hkp'].
    rewrite Hkp' in Hr. by eapply finditer_name.
  - apply Forall_forall. intros s Hs.
    apply elem_of_map in Hs as (r & -> & Hr). simpl.
    eexists. split; [reflexivity|]. rewrite Himpl in Hr.
    by eapply finditer_name.
Qed.

End SymbolNames.

Lemma extracted_names_witness :
  exists m,
    extract_symbols_regex gated_text "src/a.rs" "demo" = Ok m
    /\ Forall (fun s =>
                 if bool_decide (s_kind s = "impl")
                 then exists t, parent s = Some t /\ identifier t
                 else identifier (s_name s))
              (symbols m).
Proof.
  eexists. split; [vm_compute; reflexivity|].
  apply (extracted_names gated_text "src/a.rs" "demo").
  vm_compute. reflexivity.
Defined.

(* ======================================================================= *)
(** * Range of the similarity measure, and shingle sets *)
(* ======================================================================= *)

Section Similarity.

Lemma Zpos_of_nat (n : nat) : (0 < n)%nat -> Z.pos (Pos.of_nat n) = Z.of_nat n.
Proof.
  intros Hn. rewrite <- positive_nat_Z. by rewrite Nat2Pos.id by lia.
Qed.

Lemma size_pos_nonempty (A : gset Z) : A ≠ ∅ -> (0 < size A)%nat.
Proof.
  intros HA. apply Nat.neq_0_lt_0. intros Hz. apply size_empty_iff in Hz.
  apply HA. by apply leibniz_equiv.
Qed.

(** The quotient the function computes on two non-empty sets. *)
Lemma jaccard_similarity_quotient (A B : gset Z) :
  A ≠ ∅ -> B ≠ ∅ ->
  jaccard_similarity A B
  = Qmake (Z.of_nat (size (A ∩ B))) (Pos.of_nat (size (A ∪ B)))
  /\ (0 < size (A ∪ B))%nat.
Proof.
  intros HA HB. unfold jaccard_similarity.
  rewrite (bool_decide_eq_false_2 _ HA), (bool_decide_eq_false_2 _ HB). simpl.
  assert (Hpos : (0 < size (A ∪ B))%nat).
  { pose proof (size_pos_nonempty A HA).
    pose proof (subseteq_size A (A ∪ B)) as Hle.
    assert (A ⊆ A ∪ B) as Hsub by set_solver. specialize (Hle Hsub). lia. }
  destruct (Nat.ltb_spec 0 (size (A ∪ B))); [done | lia].
Qed.

Lemma jaccard_similarity_bounds (A B : gset Z) :
  (0 <= jaccard_similarity A B <= 1)%Q.
Proof.
  destruct (decide (A = ∅)) as [->|HA].
  { unfold jaccard_similarity. by rewrite bool_decide_eq_true_2. }
  destruct (decide (B = ∅)) as [->|HB].
  { unfold jaccard_similarity. rewrite (bool_decide_eq_true_2 (∅ = ∅)) by done.
    by rewrite orb_true_r. }
  destruct (jaccard_similarity_quotient A B HA HB) as [-> Hpos].
  pose proof (subseteq_size (A ∩ B) (A ∪ B)) as Hle.
  assert (A ∩ B ⊆ A ∪ B) as Hsub by set_solver. specialize (Hle Hsub).
  unfold Qle. simpl. rewrite (Zpos_of_nat _ Hpos). lia.
Qed.

(** X6. The similarity of two sets lies between 0 and 1; it is 1 exactly
    when the two sets are equal and not empty, and 0 exactly when they have
    no element in common. *)
Theorem jaccard_similarity_range (A B : gset Z) :
  (0 <= jaccard_similarity A B <= 1)%Q
  /\ ((jaccard_similarity A B == 1)%Q <-> A = B /\ A ≠ ∅)
  /\ ((jaccard_similarity A B == 0)%Q <-> A ∩ B = ∅).
Proof.
  split; [apply jaccard_similarity_bounds|].
  destruct (decide (A = ∅)) as [->|HA].
  { unfold jaccard_similarity. rewrite bool_decide_eq_true_2 by done. simpl.
    split; [|split; [set_solver | done]].
    split; [done | by intros [_ ?]]. }
  destruct (decide (B = ∅)) as [->|HB].
  { unfold jaccard_similarity. rewrite (bool_decide_eq_true_2 (∅ = ∅)) by done.
    rewrite orb_true_r.
    split; [|split; [set_solver | done]].
    split; [done | by intros [? _]]. }
  destruct (jaccard_similarity_quotient A B HA HB) as [-> Hpos].
  pose proof (subseteq_size (A ∩ B) (A ∪ B)) as Hle.
  assert (A ∩ B ⊆ A ∪ B) as Hsub by set_solver. specialize (Hle Hsub).
  unfold Qeq. simpl. rewrite (Zpos_of_nat _ Hpos).
  split.
  - split.
    + intros He. split; [|done].
      assert (A ∩ B = A ∪ B) as Heq.
      { apply set_subseteq_size_eq; [done | lia]. }
      apply set_eq. intros x. split; intros Hx.
      * assert (x ∈ A ∩ B) by (rewrite Heq; set_solver). set_solver.
      * assert (x ∈ A ∩ B) by (rewrite Heq; set_solver). set_solver.
    + intros [<- _].
      assert (A ∩ A = A) as -> by apply intersection_idemp_L.
      assert (A ∪ A = A) as -> by apply union_idemp_L. lia.
  - split.
    + intros He. apply leibniz_equiv, size_empty_iff. lia.
    + intros ->. rewrite size_empty. lia.
Qed.

Variable hash : string -> Z.

Lemma size_list_to_set_le (l : list Z) :
  (size (list_to_set (C := gset Z) l) <= length l)%nat.
Proof.
  induction l as [|x l IH].
  - rewrite list_to_set_nil, size_empty. simpl. lia.
  - rewrite list_to_set_cons, size_union_alt, size_singleton. simpl.
    pose proof (subseteq_size (list_to_set (C := gset Z) l ∖ {[ x ]})
                  (list_to_set l)) as Hle.
    assert (list_to_set (C := gset Z) l ∖ {[ x ]} ⊆ list_to_set l) as Hsub
      by set_solver.
    specialize (Hle Hsub). lia.
Qed.

Lemma compute_shingle_hash_not_empty (text : string) (k : nat) :
  compute_shingle_hash hash text k ≠ ∅.
Proof.
  unfold compute_shingle_hash.
  destruct (Nat.ltb_spec (length (Py.words text)) k) as [Hlt|Hge].
  - set_solver.
  - replace (length (Py.words text) - k + 1)%nat
      with (S (length (Py.words text) - k)) by lia.
    simpl. set_solver.
Qed.

(** X7. The shingle set of a text is never empty: a text with fewer than [k]
    words, also the empty text, has the one-element set of its own hash;
    otherwise there are at most [len(words) - k + 1] shingles. So every
    text has similarity 1 with itself. *)
Theorem compute_shingle_hash_size (text : string) (k : nat) :
  let shingles := compute_shingle_hash hash text k in
  let n := length (Py.words text) in
  shingles ≠ ∅
  /\ (if (n <? k)%nat then shingles = {[ hash text ]}
      else (1 <= size shingles <= n - k + 1)%nat)
  /\ (jaccard_similarity shingles shingles == 1)%Q.
Proof.
  intros shingles n.
  pose proof (compute_shingle_hash_not_empty text k) as Hne.
  fold shingles in Hne. split; [done|]. split.
  - subst shingles n. unfold compute_shingle_hash in *.
    destruct (length (Py.words text) <? k)%nat; [done|].
    split; [pose proof (size_pos_nonempty _ Hne); lia|].
    etrans; [apply size_list_to_set_le|].
    by rewrite length_map, length_seq.
  - by apply jaccard_similarity_diag.
Qed.

End Similarity.

(* ======================================================================= *)
(** * Where duplicate clusters come from, and which duplicates are found *)
(* ======================================================================= *)

Section DuplicateProvenance.

Lemma round2_le_1 (q : Q) : (q <= 1)%Q -> (round2 q <= 1)%Q.
Proof.
  intros Hq. unfold round2, Qle in *. simpl in *.
  rewrite Z.mul_1_r. apply nearest_int_le; lia.
Qed.

Lemma compare_bucket_fold (thr : Q) st (bucket : list Z * list candidate) :
  compare_bucket thr st bucket
  = fold_left (compare_pair thr) (pairs bucket.2) st.
Proof.
  unfold compare_bucket. destruct bucket as [k [|c1 [|c2 cs]]]; done.
Qed.

Lemma bucket_add_Forall (P : list Z -> candidate -> Prop) (sig : list Z)
  (c : candidate) d :
  P sig c ->
  Forall (fun b : list Z * list candidate => Forall (P b.1) b.2) d ->
  Forall (fun b : list Z * list candidate => Forall (P b.1) b.2)
         (bucket_add sig c d).
Proof.
  intros Hc. induction d as [|[k cs] d IH]; intros Hd; simpl.
  - apply Forall_singleton. simpl. by apply Forall_singleton.
  - inversion Hd; subst. case_bool_decide as Hk.
    + constructor; [|done]. simpl in *. apply Forall_app. split; [done|].
      apply Forall_singleton. by rewrite Hk.
    + constructor; [done|]. by apply IH.
Qed.

Lemma compare_pair_cluster_of (P : candidate -> Prop) (thr : Q) st
  (cc : candidate * candidate) :
  Forall (cluster_of P thr) st.2 -> P cc.1 -> P cc.2 ->
  cand_sig cc.1 = cand_sig cc.2 ->
  Forall (cluster_of P thr) (compare_pair thr st cc).2.
Proof.
  intros Hst H1 H2 Hsig. destruct cc as [c1 c2]. unfold compare_pair.
  case_bool_decide as Hfile; [done|].
  destruct (Qle_bool _ _) eqn:Hle; [|done].
  case_bool_decide; [done|]. simpl.
  apply Forall_app. split; [done|]. apply Forall_singleton.
  exists c1, c2. apply Qle_bool_iff in Hle. done.
Qed.

Variable hash : string -> Z.
Variable safe_read : string -> option string.
Variable modules : list (string * ModuleInfo).
Variable min_lines : Z.

Abbreviation candidates :=
  (flat_map (fun pm : string * ModuleInfo =>
               candidates_of_module hash safe_read min_lines pm.2) modules).

(** The candidates of stage 1 are those of the functions of the index that
    span at least [min_lines] lines, each under the key cut from its shingle
    set. *)
Lemma candidates_spec (sc : list Z * candidate) :
  sc ∈ candidates
  <-> from_index hash safe_read modules min_lines sc.2 /\ sc.1 = cand_sig sc.2.
Proof.
  rewrite elem_of_flat_map. split.
  - intros ([p m] & Hpm & Hsc). simpl in Hsc.
    unfold candidates_of_module in Hsc.
    destruct (safe_read (path m)) as [t|] eqn:Hread;
      [|by apply elem_of_nil in Hsc].
    case_bool_decide as Ht; [by apply elem_of_nil in Hsc|].
    apply elem_of_flat_map in Hsc as (s & Hs & Hsc).
    unfold candidate_of_symbol in Hsc.
    case_bool_decide as Hk; cbn [negb] in Hsc; [|by apply elem_of_nil in Hsc].
    destruct (Z.ltb_spec (Z.min (line_end s)
                            (Z.of_nat (length (Py.split_char Py.newline t)))
                          - (line_start s - 1)) min_lines) as [|Hge];
      [by apply elem_of_nil in Hsc|].
    apply list_elem_of_singleton in Hsc as ->. cbn [fst snd]. split; [|done].
    exists m, s, t. split; [|done]. split; [by exists p | done].
  - destruct sc as [sig c]. cbn [fst snd].
    intros [(m & s & t & ([p Hpm] & Hs & Hk & Hread & Ht) & Hspan & ->) ->].
    exists (p, m). split; [done|]. cbn [fst snd].
    unfold candidates_of_module. rewrite Hread.
    rewrite bool_decide_eq_false_2 by done.
    apply elem_of_flat_map. exists s. split; [done|].
    unfold candidate_of_symbol. rewrite (bool_decide_eq_true_2 _ Hk).
    cbn [negb]. unfold fn_body_span in Hspan.
    destruct (Z.ltb_spec (Z.min (line_end s)
                            (Z.of_nat (length (Py.split_char Py.newline t)))
                          - (line_start s - 1)) min_lines) as [|Hge]; [lia|].
    apply list_elem_of_singleton. done.
Qed.

Lemma fn_signatures_from_index :
  Forall (fun b : list Z * list candidate =>
            Forall (fun c => from_index hash safe_read modules min_lines c
                             /\ cand_sig c = b.1) b.2)
         (fn_signatures hash safe_read modules min_lines).
Proof.
  unfold fn_signatures.
  apply (fold_left_preserves
           (Forall (fun b : list Z * list candidate =>
                      Forall (fun c =>
                                from_index hash safe_read modules min_lines c
                                /\ cand_sig c = b.1) b.2))
           (fun sc : list Z * candidate =>
              from_index hash safe_read modules min_lines sc.2
              /\ cand_sig sc.2 = sc.1)).
  - intros d sc Hd Hsc.
    by apply (bucket_add_Forall
                (fun k c => from_index hash safe_read modules min_lines c
                            /\ cand_sig c = k)).
  - apply Forall_forall. intros sc Hsc.
    by apply candidates_spec in Hsc as [? ?].
  - constructor.
Qed.

Lemma detect_duplicates_cluster_of (thr : Q) :
  Forall (cluster_of (from_index hash safe_read modules min_lines) thr)
         (detect_duplicates hash safe_read modules min_lines thr).
Proof.
  unfold detect_duplicates.
  apply (fold_left_preserves
           (fun st => Forall (cluster_of _ thr) st.2)
           (fun b : list Z * list candidate =>
              Forall (fun c => from_index hash safe_read modules min_lines c
                               /\ cand_sig c = b.1) b.2));
    [|apply fn_signatures_from_index|constructor].
  intros st b Hst Hb. rewrite compare_bucket_fold.
  apply (fold_left_preserves
           (fun st => Forall (cluster_of _ thr) st.2)
           (fun cc : candidate * candidate =>
              from_index hash safe_read modules min_lines cc.1
              /\ from_index hash safe_read modules min_lines cc.2
              /\ cand_sig cc.1 = cand_sig cc.2));
    [|clear Hst|done].
  - intros st' cc Hst' (H1 & H2 & Hsig). by apply compare_pair_cluster_of.
  - apply Forall_forall. intros [c1 c2] Hin.
    apply pairs_elem_of in Hin as [Hc1 Hc2].
    rewrite Forall_forall in Hb.
    destruct (Hb c1 Hc1) as [? Hs1]. destruct (Hb c2 Hc2) as [? Hs2].
    simpl. split_and!; try done. congruence.
Qed.

(** X8. Every reported cluster pairs two functions of the module index that
    lie in different files, both files readable and not empty: its two
    locations are the files and line spans of the two functions, its
    signature joins their names, and the similarity of their shingle sets
    meets the threshold. The similarity it records is what [round] makes of
    the float quotient: the quotient of the set sizes rounded to the nearest
    double, and that double rounded to two decimal places; it is a number
    between 0 and 1. Only functions of one bucket are paired: the ten
    smallest shingle hashes of the two functions are the same. *)
Theorem detect_duplicates_provenance (thr : Q) :
  Forall (fun cl =>
            exists m1 s1 t1 m2 s2 t2,
              indexed_fn safe_read modules m1 s1 t1
              /\ indexed_fn safe_read modules m2 s2 t2
              /\ path m1 ≠ path m2
              /\ min_lines <= fn_body_span t1 s1
              /\ min_lines <= fn_body_span t2 s2
              /\ locations cl
                 = [mkLocation (path m1) (line_start s1) (line_end s1);
                    mkLocation (path m2) (line_start s2) (line_end s2)]
              /\ signature cl = s_name s1 +:+ " ~ " +:+ s_name s2
              /\ take 10 (merge_sort Z.le
                             (elements (fn_shingles hash t1 s1)))
                 = take 10 (merge_sort Z.le
                              (elements (fn_shingles hash t2 s2)))
              /\ (thr <= jaccard_similarity (fn_shingles hash t1 s1)
                                            (fn_shingles hash t2 s2))%Q
              /\ similarity cl
                 = round2 (Float.nearest
                             (jaccard_similarity (fn_shingles hash t1 s1)
                                                 (fn_shingles hash t2 s2)))
              /\ (0 <= similarity cl <= 1)%Q)
         (detect_duplicates hash safe_read modules min_lines thr).
Proof.
  eapply Forall_impl; [apply detect_duplicates_cluster_of|].
  intros cl (c1 & c2 & (m1 & s1 & t1 & H1 & Hs1 & ->)
             & (m2 & s2 & t2 & H2 & Hs2 & ->) & Hsig & Hfile & Hthr & ->).
  exists m1, s1, t1, m2, s2, t2.
  cbn [cand_of c_file c_shingles make_cluster locations signature similarity
       c_name c_line_start c_line_end] in *.
  split_and!; try done.
  - apply round2_nonneg, nearest_nonneg, jaccard_similarity_bounds.
  - apply round2_le_1, nearest_le_1, jaccard_similarity_bounds.
Qed.

(** ** Exact duplicates *)

Lemma pairs_complete {A} (l : list A) (x y : A) :
  x ∈ l -> y ∈ l -> x ≠ y -> (x, y) ∈ pairs l \/ (y, x) ∈ pairs l.
Proof.
  induction l as [|a l IH]; [by intros ?%elem_of_nil|].
  intros Hx Hy Hne. simpl.
  apply elem_of_cons in Hx as [->|Hx]; apply elem_of_cons in Hy as [->|Hy].
  - done.
  - left. apply elem_of_app. left. apply elem_of_map. by exists y.
  - right. apply elem_of_app. left. apply elem_of_map. by exists x.
  - destruct (IH Hx Hy Hne); [left | right]; apply elem_of_app; by right.
Qed.

Lemma sorted_pair_comm (k1 k2 : string) : sorted_pair k1 k2 = sorted_pair k2 k1.
Proof.
  unfold sorted_pair, String.ltb. rewrite (String.compare_antisym k1 k2).
  destruct (String.compare k2 k1) eqn:E; simpl; try done.
  apply String.compare_eq_iff in E. by subst.
Qed.

Lemma bucket_get_add (s sig : list Z) (c : candidate) d :
  bucket_get s (bucket_add sig c d)
  = if bool_decide (s = sig)
    then Some (default [] (bucket_get sig d) ++ [c])
    else bucket_get s d.
Proof.
  induction d as [|[k cs] d IH]; simpl.
  - case_bool_decide; case_bool_decide; congruence.
  - destruct (decide (k = sig)) as [->|Hk].
    + rewrite !(bool_decide_eq_true_2 (sig = sig)) by done. simpl.
      case_bool_decide; case_bool_decide; congruence.
    + rewrite !(bool_decide_eq_false_2 (k = sig)) by done. simpl.
      rewrite IH. case_bool_decide; case_bool_decide; congruence.
Qed.

Lemma bucket_get_elem_of (sig : list Z) d (cs : list candidate) :
  bucket_get sig d = Some cs -> (sig, cs) ∈ d.
Proof.
  induction d as [|[k cs'] d IH]; simpl; [done|].
  case_bool_decide as Hk.
  - intros [= ->]. subst. apply list_elem_of_here.
  - intros H. apply list_elem_of_further. by apply IH.
Qed.

(** A candidate stays in the bucket of its key while more are added. *)
Lemma bucket_fold_keeps (l : list (list Z * candidate)) :
  forall d sig c cs,
    bucket_get sig d = Some cs -> c ∈ cs ->
    exists cs', bucket_get sig (fold_left (fun d sc => bucket_add sc.1 sc.2 d)
                                  l d) = Some cs'
                /\ c ∈ cs'.
Proof.
  induction l as [|[sig' c'] l IH]; intros d sig c cs Hget Hc; simpl.
  - by exists cs.
  - destruct (decide (sig = sig')) as [<-|Hne].
    + eapply IH.
      * rewrite bucket_get_add, bool_decide_eq_true_2 by done.
        rewrite Hget. reflexivity.
      * simpl. apply elem_of_app. by left.
    + eapply IH; [|exact Hc].
      by rewrite bucket_get_add, bool_decide_eq_false_2.
Qed.

Lemma bucket_fold_adds (l : list (list Z * candidate)) :
  forall d sig c,
    (sig, c) ∈ l ->
    exists cs, bucket_get sig (fold_left (fun d sc => bucket_add sc.1 sc.2 d)
                                 l d) = Some cs
               /\ c ∈ cs.
Proof.
  induction l as [|[sig' c'] l IH]; intros d sig c Hin;
    [by apply elem_of_nil in Hin|].
  apply elem_of_cons in Hin as [[= <- <-]|Hin]; simpl; [|by apply IH].
  eapply bucket_fold_keeps.
  - rewrite bucket_get_add, bool_decide_eq_true_2 by done. reflexivity.
  - apply elem_of_app. right. apply list_elem_of_here.
Qed.

Variable thr : Q.

Lemma compare_pair_seen_reported st (cc : candidate * candidate) :
  seen_reported st -> seen_reported (compare_pair thr st cc).
Proof.
  intros Hst. destruct cc as [c1 c2]. unfold compare_pair.
  case_bool_decide; [done|]. destruct (Qle_bool _ _); [|done].
  case_bool_decide; [done|].
  intros k Hk. simpl in *. apply elem_of_union in Hk as [Hk|Hk].
  - apply elem_of_singleton in Hk as ->. eexists. split.
    + apply elem_of_app. right. apply list_elem_of_here.
    + done.
  - destruct (Hst k Hk) as (cl & Hcl & <-).
    exists cl. split; [|done]. apply elem_of_app. by left.
Qed.

Lemma compare_pair_reported k st (cc : candidate * candidate) :
  reported k st -> reported k (compare_pair thr st cc).
Proof.
  intros (cl & Hcl & <-). destruct cc as [c1 c2]. unfold compare_pair.
  case_bool_decide; [by exists cl|].
  destruct (Qle_bool _ _); [|by exists cl].
  case_bool_decide; [by exists cl|].
  exists cl. split; [|done]. simpl. apply elem_of_app. by left.
Qed.

Lemma compare_pair_reports st (c1 c2 : candidate) :
  seen_reported st -> c_file c1 ≠ c_file c2 ->
  (thr <= jaccard_similarity (c_shingles c1) (c_shingles c2))%Q ->
  reported (cluster_key c1 c2) (compare_pair thr st (c1, c2)).
Proof.
  intros Hst Hfile Hle. unfold compare_pair.
  rewrite bool_decide_eq_false_2 by done.
  apply Qle_bool_iff in Hle. rewrite Hle.
  case_bool_decide as Hk; [by apply Hst|].
  eexists. split; [apply elem_of_app; right; apply list_elem_of_here | done].
Qed.

Lemma fold_seen_reported {X} (step : _ -> X -> _) (l : list X) st :
  (forall st x, seen_reported st -> seen_reported (step st x)) ->
  seen_reported st -> seen_reported (fold_left step l st).
Proof.
  intros Hstep. revert st. induction l as [|x l IH]; intros st Hst; simpl;
    [done|]. apply IH. by apply Hstep.
Qed.

Lemma fold_reported {X} k (step : _ -> X -> _) (l : list X) st :
  (forall st x, reported k st -> reported k (step st x)) ->
  reported k st -> reported k (fold_left step l st).
Proof.
  intros Hstep. revert st. induction l as [|x l IH]; intros st Hst; simpl;
    [done|]. apply IH. by apply Hstep.
Qed.

(** A step that reports [k] somewhere in a loop whose other steps keep what
    has been reported. *)
Lemma fold_reports {X} k (step : _ -> X -> _) (l : list X) (x : X) st :
  (forall st x, seen_reported st -> seen_reported (step st x)) ->
  (forall st x, reported k st -> reported k (step st x)) ->
  (forall st, seen_reported st -> reported k (step st x)) ->
  x ∈ l -> seen_reported st -> reported k (fold_left step l st).
Proof.
  intros Hseen Hkeep Hx Hin Hst.
  apply list_elem_of_split in Hin as (l1 & l2 & ->).
  rewrite fold_left_app. simpl. apply fold_reported; [done|].
  apply Hx. by apply fold_seen_reported.
Qed.

Lemma compare_bucket_seen_reported st (b : list Z * list candidate) :
  seen_reported st -> seen_reported (compare_bucket thr st b).
Proof.
  intros Hst. rewrite compare_bucket_fold.
  apply fold_seen_reported; [|done]. intros; by apply compare_pair_seen_reported.
Qed.

Lemma compare_bucket_reported k st (b : list Z * list candidate) :
  reported k st -> reported k (compare_bucket thr st b).
Proof.
  intros Hst. rewrite compare_bucket_fold.
  apply fold_reported; [|done]. intros; by apply compare_pair_reported.
Qed.

(** Two candidates of one bucket, in different files and with the same
    shingle set, are reported. *)
Lemma compare_bucket_reports st (b : list Z * list candidate)
  (c1 c2 : candidate) :
  seen_reported st -> c1 ∈ b.2 -> c2 ∈ b.2 ->
  c_file c1 ≠ c_file c2 -> c_shingles c1 = c_shingles c2 ->
  c_shingles c1 ≠ ∅ -> (thr <= 1)%Q ->
  reported (cluster_key c1 c2) (compare_bucket thr st b).
Proof.
  intros Hst H1 H2 Hfile Hsh Hne Hthr. rewrite compare_bucket_fold.
  assert (Hsim : (thr <= jaccard_similarity (c_shingles c1) (c_shingles c1))%Q).
  { rewrite (jaccard_similarity_diag _ Hne). done. }
  destruct (pairs_complete b.2 c1 c2 H1 H2) as [Hin|Hin]; [congruence| |].
  - eapply fold_reports; [| | |exact Hin|done].
    + intros; by apply compare_pair_seen_reported.
    + intros; by apply compare_pair_reported.
    + intros st' Hst'. apply compare_pair_reports; [done..|].
      by rewrite <- Hsh.
  - unfold cluster_key. rewrite sorted_pair_comm.
    eapply fold_reports; [| | |exact Hin|done].
    + intros; by apply compare_pair_seen_reported.
    + intros; by apply compare_pair_reported.
    + intros st' Hst'. apply compare_pair_reports; [done|congruence|].
      by rewrite <- Hsh.
Qed.

(** X9. Exact duplicates are always found, whatever the hash function: two
    functions of the index in different readable files, each spanning at
    least [min_lines] lines, whose texts are equal after normalisation, are
    reported in a cluster under the pair of their location keys, for every
    threshold up to 1. *)
Theorem identical_functions_reported (m1 m2 : ModuleInfo) (s1 s2 : Symbol)
  (t1 t2 : string) :
  indexed_fn safe_read modules m1 s1 t1 ->
  indexed_fn safe_read modules m2 s2 t2 ->
  path m1 ≠ path m2 ->
  min_lines <= fn_body_span t1 s1 ->
  min_lines <= fn_body_span t2 s2 ->
  normalize_code (fn_body t1 s1) = normalize_code (fn_body t2 s2) ->
  (thr <= 1)%Q ->
  exists cl,
    cl ∈ detect_duplicates hash safe_read modules min_lines thr
    /\ pair_key cl
       = sorted_pair (location_key (path m1) (line_start s1))
                     (location_key (path m2) (line_start s2)).
Proof.
  intros H1 H2 Hfile Hs1 Hs2 Hnorm Hthr.
  set (c1 := cand_of hash m1 s1 t1). set (c2 := cand_of hash m2 s2 t2).
  assert (Hsh : c_shingles c1 = c_shingles c2).
  { unfold c1, c2, cand_of, fn_shingles. cbn [c_shingles]. by rewrite Hnorm. }
  assert (Hc1 : (cand_sig c1, c1) ∈ candidates).
  { apply candidates_spec. split; [|done]. by exists m1, s1, t1. }
  assert (Hc2 : (cand_sig c1, c2) ∈ candidates).
  { apply candidates_spec. split; [by exists m2, s2, t2|].
    cbn [fst snd]. unfold cand_sig. by rewrite Hsh. }
  destruct (bucket_fold_adds candidates [] _ _ Hc1) as (cs & Hget & Hin1).
  destruct (bucket_fold_adds candidates [] _ _ Hc2) as (cs' & Hget' & Hin2).
  rewrite Hget in Hget'. injection Hget' as <-.
  apply bucket_get_elem_of in Hget.
  change (reported (cluster_key c1 c2)
            (fold_left (compare_bucket thr)
               (fn_signatures hash safe_read modules min_lines) (∅, []))).
  eapply fold_reports; [| | |exact Hget|].
  - intros; by apply compare_bucket_seen_reported.
  - intros; by apply compare_bucket_reported.
  - intros st Hst. apply compare_bucket_reports; try done.
    apply compute_shingle_hash_not_empty.
  - intros k Hk. simpl in Hk. set_solver.
Qed.

End DuplicateProvenance.

Lemma identical_functions_reported_witness :
  exists cl,
    cl ∈ detect_duplicates poly_hash dup_read dup_modules 5 (8 # 10)
    /\ pair_key cl
       = sorted_pair (location_key "a.rs" 1) (location_key "b.rs" 1).
Proof.
  apply (identical_functions_reported poly_hash dup_read dup_modules 5
           (8 # 10) (dup_module "a.rs") (dup_module "b.rs")
           (mkSymbol "scale" "fn" "a.rs" 1 5 "private" None [] 0)
           (mkSymbol "scale" "fn" "b.rs" 1 5 "private" None [] 0)
           dup_text dup_text).
  - split; [exists "a.rs"; apply list_elem_of_here|].
    split; [apply list_elem_of_here|]. split; [reflexivity|].
    split; [reflexivity | discriminate].
  - split; [exists "b.rs"; apply list_elem_of_further, list_elem_of_here|].
    split; [apply list_elem_of_here|]. split; [reflexivity|].
    split; [reflexivity | discriminate].
  - discriminate.
  - vm_compute. discriminate.
  - vm_compute. discriminate.
  - vm_compute. reflexivity.
  - vm_compute. discriminate.
Defined.

(* ======================================================================= *)
(** * Counts and symbol lists of the feature matrix *)
(* ======================================================================= *)

Section MatrixCounts.

Variable f : string.

Lemma entry_count_join o c : entry_count (join o c) = entry_count o + entry_count c.
Proof. destruct o, c; simpl; lia. Qed.

Lemma entry_symbols_join o c : entry_symbols (join o c) = entry_symbols o ++ entry_symbols c.
Proof. destruct o, c; simpl; by rewrite ?app_nil_r. Qed.

Lemma dict_get_update_empty (g : string) (upd : usage_acc -> usage_acc) :
  dict_get f (matrix_update g upd [])
  = if bool_decide (g = f) then Some (upd empty_acc) else None.
Proof. reflexivity. Qed.

(** What the loop over the gates of a module adds to an entry. *)
Lemma gates_fold (c p : string) (gs : list FeatureGate) :
  forall m,
    let m' := fold_left (fun m gate =>
                           matrix_update (feature gate) (add_gate c p) m)
                        gs m in
    entry_count (dict_get f m')
    = entry_count (dict_get f m)
      + Z.of_nat (length (filter (fun g => feature g = f) gs))
    /\ entry_symbols (dict_get f m') = entry_symbols (dict_get f m).
Proof.
  induction gs as [|g gs IH]; intros m; simpl; [split; [lia | done]|].
  destruct (IH (matrix_update (feature g) (add_gate c p) m)) as [-> ->].
  rewrite (additive_update f (feature g) (add_gate c p) (add_gate_join c p) m).
  rewrite entry_count_join, entry_symbols_join, dict_get_update_empty, filter_cons.
  case_decide as Hg.
  - rewrite bool_decide_eq_true_2 by done. simpl.
    split; [lia | by rewrite app_nil_r].
  - rewrite bool_decide_eq_false_2 by done. simpl.
    split; [lia | by rewrite app_nil_r].
Qed.

(** What the loop over the annotation of one symbol adds. *)
Lemma features_fold (c p : string) (s : Symbol) (fs : list string) :
  forall m,
    let m' := fold_left (fun m g => matrix_update g (add_symbol c p s) m)
                        fs m in
    entry_count (dict_get f m') = entry_count (dict_get f m)
    /\ entry_symbols (dict_get f m')
       = entry_symbols (dict_get f m)
         ++ flat_map (fun g => if bool_decide (g = f)
                               then [mkSymbolRef (s_name s) (s_kind s) p
                                       (line_start s)]
                               else []) fs.
Proof.
  induction fs as [|g fs IH]; intros m; simpl;
    [split; [done | by rewrite app_nil_r]|].
  destruct (IH (matrix_update g (add_symbol c p s) m)) as [-> ->].
  rewrite (additive_update f g (add_symbol c p s) (add_symbol_join c p s) m).
  rewrite entry_count_join, entry_symbols_join, dict_get_update_empty.
  case_bool_decide; simpl.
  - split; [lia | by rewrite <- app_assoc].
  - split; [lia | by rewrite app_nil_r].
Qed.

Lemma symbols_fold (c p : string) (ss : list Symbol) :
  forall m,
    let m' := fold_left (fun m s =>
                           fold_left (fun m g =>
                                        matrix_update g (add_symbol c p s) m)
                                     (cfg_features s) m)
                        ss m in
    entry_count (dict_get f m') = entry_count (dict_get f m)
    /\ entry_symbols (dict_get f m')
       = entry_symbols (dict_get f m)
         ++ flat_map (fun s =>
              flat_map (fun g => if bool_decide (g = f)
                                 then [mkSymbolRef (s_name s) (s_kind s) p
                                         (line_start s)]
                                 else []) (cfg_features s)) ss.
Proof.
  induction ss as [|s ss IH]; intros m; simpl;
    [split; [done | by rewrite app_nil_r]|].
  match goal with
  | |- context [fold_left _ ss ?m1] => destruct (IH m1) as [-> ->]
  end.
  destruct (features_fold c p s (cfg_features s) m) as [-> ->].
  split; [done | by rewrite <- app_assoc].
Qed.

Lemma module_fold (pm : string * ModuleInfo) m :
  entry_count (dict_get f (matrix_add_module m pm))
  = entry_count (dict_get f m)
    + Z.of_nat (length (filter (fun g => feature g = f) (feature_gates pm.2)))
  /\ entry_symbols (dict_get f (matrix_add_module m pm))
     = entry_symbols (dict_get f m) ++ symbol_refs f pm.
Proof.
  destruct pm as [p md]. unfold matrix_add_module, symbol_refs.
  match goal with
  | |- context [fold_left _ (symbols md) ?m1] =>
      destruct (symbols_fold (crate_name md) p (symbols md) m1) as [-> ->]
  end.
  destruct (gates_fold (crate_name md) p (feature_gates md) m) as [-> ->].
  done.
Qed.

Lemma modules_fold (modules : list (string * ModuleInfo)) :
  forall m,
    entry_count (dict_get f (fold_left matrix_add_module modules m))
    = entry_count (dict_get f m) + feature_gate_count f modules
    /\ entry_symbols (dict_get f (fold_left matrix_add_module modules m))
       = entry_symbols (dict_get f m) ++ flat_map (symbol_refs f) modules.
Proof.
  unfold feature_gate_count.
  induction modules as [|pm modules IH]; intros m; simpl;
    [split; [lia | by rewrite app_nil_r]|].
  destruct (IH (matrix_add_module m pm)) as [-> ->].
  destruct (module_fold pm m) as [-> ->].
  rewrite filter_app, length_app. split; [lia | by rewrite <- app_assoc].
Qed.

Variable list_of_set : gset string -> list string.

(** X10. In the feature matrix the [cfg_count] of a feature is the number of
    feature gates, over all modules, that name it, and its symbol list holds
    one reference for each occurrence of the feature in the annotation of a
    symbol, module by module in the order of the index and symbol by symbol
    inside a module. *)
Theorem feature_matrix_counts (modules : list (string * ModuleInfo))
  (u : feature_usage) :
  dict_get f (build_feature_matrix list_of_set modules) = Some u ->
  cfg_count u = feature_gate_count f modules
  /\ usage_symbols u = flat_map (symbol_refs f) modules.
Proof.
  unfold build_feature_matrix. rewrite dict_get_finish.
  destruct (modules_fold modules []) as [Hc Hs]. fold (build_matrix modules) in *.
  destruct (dict_get f (build_matrix modules)) as [a|]; [|done].
  intros [= <-]. simpl in *. split; [lia | done].
Qed.

End MatrixCounts.

Lemma feature_matrix_counts_witness :
  exists u,
    dict_get "x" (build_feature_matrix elements gated_modules) = Some u
    /\ cfg_count u = feature_gate_count "x" gated_modules
    /\ usage_symbols u = flat_map (symbol_refs "x") gated_modules.
Proof.
  eexists. split; [vm_compute; reflexivity|].
  apply (feature_matrix_counts "x" elements gated_modules).
  vm_compute. reflexivity.
Defined.

(* ======================================================================= *)
(** * Where smells point *)
(* ======================================================================= *)

Section SmellPositions.

Lemma enumerate_lookup {A} (l : list A) :
  forall (start i : Z) (a : A),
    (i, a) ∈ enumerate start l ->
    start <= i /\ l !! Z.to_nat (i - start) = Some a.
Proof.
  induction l as [|x l IH]; intros start i a H; simpl in H;
    [by apply elem_of_nil in H|].
  apply elem_of_cons in H as [[= -> ->]|H].
  - split; [lia|]. by rewrite Z.sub_diag.
  - apply IH in H as [Hle Hl]. split; [lia|].
    replace (Z.to_nat (i - start)) with (S (Z.to_nat (i - (start + 1))))
      by lia. done.
Qed.

Variables content file_path : string.

Abbreviation text_lines := (Py.split_char Py.newline content).

Lemma line_pattern_smells_point (r : smell_rule) :
  Forall (fun s => kind s = r_kind r /\ severity s = r_severity r
                   /\ points_at file_path text_lines 80 s)
         (line_pattern_smells file_path text_lines r).
Proof.
  unfold line_pattern_smells.
  apply Forall_flat_map, Forall_forall. intros [i l] Hil. simpl.
  destruct (is_match _ _); [|constructor].
  apply enumerate_lookup in Hil as [Hi Hl].
  apply Forall_singleton. unfold points_at. simpl.
  split_and!; try done. by exists l.
Qed.

Lemma fn_starts_lookup (start : Z) :
  start ∈ fn_starts text_lines ->
  0 <= start /\ is_Some (text_lines !! Z.to_nat start).
Proof.
  unfold fn_starts. intros H. apply elem_of_flat_map in H as ([i l] & Hil & H).
  simpl in H. destruct (Re.match_ _ _); [|by apply elem_of_nil in H].
  apply list_elem_of_singleton in H as ->.
  apply enumerate_lookup in Hil as [Hi Hl].
  rewrite Z.sub_0_r in Hl. split; [lia | by eexists].
Qed.

Lemma long_function_smells_point (starts : list Z) :
  (forall start, start ∈ starts ->
     0 <= start /\ is_Some (text_lines !! Z.to_nat start)) ->
  Forall (fun s => kind s = "long_function" /\ severity s = "warning"
                   /\ points_at file_path text_lines 60 s)
         (long_function_smells file_path text_lines starts).
Proof.
  induction starts as [|start rest IH]; intros Hs; simpl; [constructor|].
  apply Forall_app. split; [|apply IH; intros; apply Hs; by right].
  destruct (100 <? _); [|constructor].
  destruct (Hs start) as [H0 [l Hl]]; [left|].
  apply Forall_singleton. unfold points_at. simpl.
  split_and!; try done; try lia.
  exists l. replace (start + 1 - 1) with start by lia. by rewrite Hl.
Qed.

Lemma deep_nesting_smells_point :
  Forall (fun s => kind s = "deep_nesting" /\ severity s = "info"
                   /\ points_at file_path text_lines 60 s)
         (deep_nesting_smells file_path text_lines).
Proof.
  unfold deep_nesting_smells.
  apply Forall_flat_map, Forall_forall. intros [i l] Hil. simpl.
  destruct (24 <=? _); [|constructor].
  apply enumerate_lookup in Hil as [Hi Hl].
  apply Forall_singleton. unfold points_at. simpl.
  split_and!; try done. by exists l.
Qed.

(** X11. Every smell of [detect_smells] is reported for the file that was
    passed, points at one of its lines (numbered from 1) and carries the
    text of that very line as context, stripped and cut to 80 characters for
    a line-pattern smell and to 60 for a long function or deep nesting; its
    severity is [error], [warning] or [info], and its evidence list is
    empty. *)
Theorem detect_smells_positions :
  Forall (fun s =>
            file s = file_path
            /\ severity s ∈ ["error"; "warning"; "info"]
            /\ evidence s = []
            /\ 1 <= line s <= Z.of_nat (length text_lines)
            /\ exists l,
                 text_lines !! Z.to_nat (line s - 1) = Some l
                 /\ context s
                    = Py.str_take (if bool_decide (kind s ∈ line_pattern_kinds)
                                   then 80 else 60) (Py.strip l))
         (detect_smells content file_path).
Proof.
  pose proof structural_kinds_not_in_table as Hnot.
  unfold structural_kinds in Hnot.
  apply Forall_cons in Hnot as [Hlong Hnot].
  apply Forall_cons in Hnot as [Hdeep _].
  assert (Hfin : forall (n : nat) s (sev : list string),
            points_at file_path text_lines n s -> severity s ∈ sev ->
            n = (if bool_decide (kind s ∈ line_pattern_kinds) then 80 else 60)%nat ->
            sev ⊆ ["error"; "warning"; "info"] ->
            file s = file_path
            /\ severity s ∈ ["error"; "warning"; "info"]
            /\ evidence s = []
            /\ 1 <= line s <= Z.of_nat (length text_lines)
            /\ exists l,
                 text_lines !! Z.to_nat (line s - 1) = Some l
                 /\ context s
                    = Py.str_take (if bool_decide (kind s ∈ line_pattern_kinds)
                                   then 80 else 60) (Py.strip l)).
  { intros n s sev (Hf & He & H1 & l & Hl & Hc) Hsev -> Hsub.
    split_and!; try done; [by apply Hsub | | by exists l].
    apply lookup_lt_Some in Hl. lia. }
  unfold detect_smells.
  apply Forall_app; split; [|apply Forall_app; split].
  - apply Forall_flat_map, Forall_forall. intros r Hr.
    eapply Forall_impl; [apply line_pattern_smells_point|]. simpl.
    intros s (Hk & Hsev & Hp).
    apply (Hfin 80%nat s (map r_severity SMELL_PATTERNS)); [done | | |].
    + rewrite Hsev. apply elem_of_map. by exists r.
    + rewrite bool_decide_eq_true_2; [done|].
      rewrite Hk. apply elem_of_map. by exists r.
    + vm_compute. set_solver.
  - eapply Forall_impl;
      [apply long_function_smells_point, fn_starts_lookup|]. simpl.
    intros s (Hk & Hsev & Hp).
    apply (Hfin 60%nat s ["warning"]); [done | | |set_solver].
    + rewrite Hsev. apply list_elem_of_here.
    + rewrite bool_decide_eq_false_2; [done | by rewrite Hk].
  - eapply Forall_impl; [apply deep_nesting_smells_point|]. simpl.
    intros s (Hk & Hsev & Hp).
    apply (Hfin 60%nat s ["info"]); [done | | |set_solver].
    + rewrite Hsev. apply list_elem_of_here.
    + rewrite bool_decide_eq_false_2; [done | by rewrite Hk].
Qed.

End SmellPositions.

Section LowSignalReports.

Variable str_symbol : Symbol -> string.

Lemma usage_add_keys (key x : string) d (k : string) :
  k ∈ map fst (usage_add key x d) -> k = key \/ k ∈ map fst d.
Proof.
  induction d as [|[k' s] d IH]; simpl.
  - intros H. apply list_elem_of_singleton in H. by left.
  - case_bool_decide as Hk; simpl; [by right|].
    intros Hin. apply elem_of_cons in Hin as [->|Hin].
    + right. apply list_elem_of_here.
    + destruct (IH Hin); [by left | right; by apply list_elem_of_further].
Qed.

(** The keys of the usage table are paths of imports of the module. *)
Lemma import_usages_keys (imps : list Import) (ss : list Symbol) (k : string) :
  k ∈ map fst (import_usages str_symbol imps ss) ->
  exists imp, imp ∈ imps /\ i_path imp = k.
Proof.
  unfold import_usages.
  assert (Hgen : forall d,
    k ∈ map fst
      (fold_left (fun d imp =>
         fold_left (fun d symbol =>
           if bool_decide (s_kind symbol = "fn")
           then fold_left (fun d item =>
                  if Py.contains item (str_symbol symbol)
                  then usage_add (i_path imp) (s_name symbol) d else d)
                  (imported_items (i_path imp)) d
           else d) ss d) imps d) ->
    k ∈ map fst d \/ exists imp, imp ∈ imps /\ i_path imp = k).
  { induction imps as [|imp imps IH]; intros d H; simpl in H; [by left|].
    apply IH in H as [H|(imp' & ? & ?)];
      [|right; exists imp'; split; [by right | done]].
    assert (Hin : k ∈ map fst d \/ k = i_path imp);
      [|destruct Hin as [?| ->]; [by left | right; exists imp; split;
                                            [left | done]]].
    revert H. generalize d. clear IH.
    induction ss as [|s ss IHs]; intros d0 H; simpl in H; [by left|].
    apply IHs in H as [H|H]; [|by right].
    destruct (bool_decide (s_kind s = "fn")); [|by left].
    revert H. generalize d0. generalize (imported_items (i_path imp)).
    intros items. induction items as [|item items IHi]; intros d1 H;
      simpl in H; [by left|].
    apply IHi in H as [H|H]; [|by right].
    destruct (Py.contains item (str_symbol s)); [|by left].
    apply usage_add_keys in H as [->|H]; [by right | by left]. }
  intros H. apply Hgen in H as [H|H]; [by apply elem_of_nil in H | done].
Qed.

(** X12. Every imported-but-low-signal smell is reported for the file of the
    module, at the first line of one of its functions that spans fewer than
    10 lines, and names an import of the module; the evidence lists the
    import, the function and its length. *)
Theorem low_signal_reports (module : ModuleInfo) :
  Forall (fun sm =>
            kind sm = "imported_but_low_signal" /\ severity sm = "info"
            /\ file sm = path module
            /\ exists imp s,
                 imp ∈ imports module /\ s ∈ symbols module
                 /\ s_kind s = "fn"
                 /\ line_end s - line_start s < 10
                 /\ line sm = line_start s
                 /\ evidence sm
                    = ["Import: " +:+ i_path imp;
                       "Function: " +:+ s_name s;
                       "Length: "
                         +:+ Py.str_of_int (line_end s - line_start s)
                         +:+ " lines"])
         (detect_imported_but_low_signal str_symbol module).
Proof.
  unfold detect_imported_but_low_signal.
  apply Forall_forall. intros sm Hsm.
  apply elem_of_flat_map in Hsm as ([k users] & Hk & Hsm). simpl in Hsm.
  destruct (bool_decide _); [|by apply elem_of_nil in Hsm].
  assert (Hkey : k ∈ map fst (import_usages str_symbol (imports module)
                                (symbols module))).
  { apply elem_of_map. by exists (k, users). }
  apply import_usages_keys in Hkey as (imp & Himp & <-).
  unfold low_signal_smells_for in Hsm.
  apply elem_of_flat_map in Hsm as (s & Hs & Hsm).
  destruct (bool_decide (s_name s = the_user users)) eqn:Hn;
    [|by apply elem_of_nil in Hsm].
  case_bool_decide as Hkind; [|by apply elem_of_nil in Hsm]. simpl in Hsm.
  destruct (Z.ltb_spec (line_end s - line_start s) 10);
    [|by apply elem_of_nil in Hsm].
  apply list_elem_of_singleton in Hsm as ->. simpl.
  apply bool_decide_eq_true in Hn.
  split_and!; try done. exists imp, s. rewrite Hn. done.
Qed.

End LowSignalReports.

(* ======================================================================= *)
(** * The cycles the detector reports *)
(* ======================================================================= *)

Section ReportedCycles.

Variable edges : list DependencyEdge.

Lemma walk_tail (a : string) (l : list string) :
  walk edges (a :: l) -> walk edges l.
Proof. destruct l as [|b l]; simpl; [done | by intros [_ ?]]. Qed.

Lemma walk_drop (n : nat) (l : list string) :
  walk edges l -> walk edges (drop n l).
Proof.
  revert l. induction n as [|n IH]; intros l Hl; [by rewrite drop_0|].
  destruct l as [|a l]; [done|]. simpl. apply IH. by eapply walk_tail.
Qed.

Lemma walk_snoc (l : list string) (a b : string) :
  walk edges l -> last l = Some a -> has_edge edges a b ->
  walk edges (l ++ [b]).
Proof.
  intros Hl Hlast Hab. induction l as [|x l IH]; [done|].
  destruct l as [|y l].
  - simpl in *. injection Hlast as ->. done.
  - destruct Hl as [Hxy Hl]. split; [done|]. by apply IH.
Qed.

Lemma last_app_cons (pre : list string) (x : string) (l : list string) :
  last (pre ++ x :: l) = last (x :: l).
Proof.
  induction pre as [|a pre IH]; [done|].
  rewrite <- IH. by destruct pre.
Qed.

(** [path[path.index(x):]] starts with [x]. *)
Lemma drop_index_of (x : string) (path : list string) :
  x ∈ path ->
  exists pre rest,
    path = pre ++ x :: rest /\ drop (index_of x path) path = x :: rest.
Proof.
  induction path as [|y path IH]; [by intros ?%elem_of_nil|].
  intros Hin. simpl. case_bool_decide as Hy.
  - subst y. by exists [], path.
  - apply elem_of_cons in Hin as [->|Hin]; [done|].
    destruct (IH Hin) as (pre & rest & -> & Hd).
    exists (y :: pre), rest. done.
Qed.

(** The value [dfs] returns when it meets a crate of its path again. *)
Lemma back_edge_cycle (node nb : string) (path : list string) :
  walk edges path -> last path = Some node -> NoDup path ->
  has_edge edges node nb -> nb ∈ path ->
  simple_cycle edges (drop (index_of nb path) path ++ [nb]).
Proof.
  intros Hwalk Hlast Hnd Hedge Hin.
  destruct (drop_index_of nb path Hin) as (pre & rest & Hpath & Hdrop).
  exists nb, rest. split; [by rewrite Hdrop|]. split.
  - rewrite Hpath in Hnd. by apply NoDup_app in Hnd as (_ & _ & ?).
  - apply (walk_snoc _ node); [by apply walk_drop | | done].
    by rewrite Hdrop, <- (last_app_cons pre), <- Hpath.
Qed.

Lemma dfs_neighbors_sound rec (node : string) (path : list string) :
  sound_call edges rec ->
  walk edges path -> last path = Some node -> NoDup path ->
  forall neighbors st st' r,
    (forall nb, nb ∈ neighbors -> has_edge edges node nb) ->
    (forall x, x ∈ path -> x ∈ visited st) ->
    Forall (simple_cycle edges) (cycles st) ->
    dfs_neighbors rec node path neighbors st = Ok (st', r) ->
    Forall (simple_cycle edges) (cycles st')
    /\ visited st ⊆ visited st'
    /\ (forall c, r = Some c -> simple_cycle edges c).
Proof.
  intros Hrec Hwalk Hlast Hnd.
  induction neighbors as [|nb rest IH]; intros st st' r Hnbs Hpath Hcs H;
    simpl in H.
  - case_bool_decide; [|done]. injection H as <- <-. done.
  - assert (Hrest : forall nb', nb' ∈ rest -> has_edge edges node nb')
      by (intros; apply Hnbs; by right).
    assert (Hedge : has_edge edges node nb) by (apply Hnbs; left).
    case_bool_decide as Hnew.
    + destruct (rec nb (path ++ [nb]) st) as [[st1 r1]|e] eqn:Hcall;
        [|done].
      destruct (Hrec _ _ _ _ _ Hcall) as (Hcs1 & Hv1 & Hr1); [| | | |done|].
      { by apply (walk_snoc _ node). }
      { by rewrite last_snoc. }
      { apply NoDup_app. split; [done|]. split; [|apply NoDup_singleton].
        intros x Hx Hx'. apply list_elem_of_singleton in Hx' as ->.
        apply Hnew. by apply Hpath. }
      { intros x Hx. apply elem_of_app in Hx as [Hx|Hx].
        - right. by apply Hpath.
        - left. by apply list_elem_of_singleton in Hx. }
      assert (Hpath1 : forall x, x ∈ path -> x ∈ visited st1) by set_solver.
      destruct r1 as [[|x res]|].
      * destruct (IH st1 st' r Hrest Hpath1 Hcs1 H) as (? & ? & ?).
        split; [done|]. split; [set_solver | done].
      * destruct (IH (mkDfs (cycles st1 ++ [x :: res]) (visited st1)
                        (rec_stack st1)) st' r Hrest Hpath1) as (? & ? & ?);
          [|done|].
        { simpl. apply Forall_app. split; [done|].
          apply Forall_singleton. by apply Hr1. }
        simpl in *. split; [done|]. split; [set_solver | done].
      * destruct (IH st1 st' r Hrest Hpath1 Hcs1 H) as (? & ? & ?).
        split; [done|]. split; [set_solver | done].
    + destruct (bool_decide (nb ∈ rec_stack st)
                && bool_decide (nb ∈ path)) eqn:Hback.
      * injection H as <- <-. split; [done|]. split; [done|].
        intros c [= <-]. apply andb_true_iff in Hback as [_ Hin].
        apply bool_decide_eq_true in Hin. by eapply back_edge_cycle.
      * by apply IH.
Qed.

Lemma dfs_sound (depth : nat) : sound_call edges (dfs depth (build_graph edges)).
Proof.
  induction depth as [|depth IH];
    intros node path st st' r H Hwalk Hlast Hnd Hpath Hcs; [done|].
  simpl in H.
  eapply dfs_neighbors_sound in H as (? & ? & ?); try done.
  - simpl in *. split; [done|]. split; [set_solver | done].
  - intros nb Hnb. by apply graph_get_build in Hnb.
  - simpl. intros x Hx. destruct (Hpath x Hx); set_solver.
Qed.

Lemma visit_all_sound (depth : nat) (keys : list string) :
  forall st st',
    visit_all depth (build_graph edges) keys st = Ok st' ->
    Forall (simple_cycle edges) (cycles st) ->
    Forall (simple_cycle edges) (cycles st').
Proof.
  induction keys as [|k keys IH]; intros st st' H Hcs; simpl in H.
  - by injection H as <-.
  - case_bool_decide; [|by eapply IH].
    destruct (dfs depth (build_graph edges) k [k] st)
      as [[st1 r1]|e] eqn:Hcall; [|done].
    eapply IH; [exact H|].
    eapply (dfs_sound depth) in Hcall as (? & _); try done.
    + apply NoDup_singleton.
    + intros x Hx. left. by apply list_elem_of_singleton in Hx.
Qed.

(** The cycles of a run that returns are cycles of the graph. *)
Lemma reported_cycles_sound (depth : nat) (cs : list (list string)) :
  detect_cycles depth edges = Ok cs -> Forall (simple_cycle edges) cs.
Proof.
  unfold detect_cycles. intros Hcs.
  destruct (visit_all _ _ _ _) as [st|e] eqn:Hv; simpl in Hcs; [|done].
  injection Hcs as <-. eapply visit_all_sound; [exact Hv|]. constructor.
Qed.

(** A run of the detector returns, or it raises [RecursionError], which
    takes an edge list that names more crates than nested calls of [dfs] are
    allowed. *)
Lemma detect_cycles_cases (depth : nat) :
  (exists cs, detect_cycles depth edges = Ok cs)
  \/ (detect_cycles depth edges = Raised RecursionError
      /\ (depth < size (edge_nodes edges))%nat).
Proof.
  destruct (le_lt_dec (size (edge_nodes edges)) depth) as [Hle|Hlt].
  - left. by apply detect_cycles_total.
  - destruct (detect_cycles_outcome edges depth) as [H|H]; [by right | by left].
Qed.

(** X13. A run of the cycle detector ends in one of two ways. It returns,
    and every cycle it reports is a cycle of the graph: a list of distinct
    crates, each with an edge to the next and the last with an edge back to
    the first, closed by a repetition of the first crate. Or it raises
    [RecursionError], and then the edge list names more crates than the
    interpreter allows nested calls of [dfs]; it raises no other exception
    ([rec_stack.remove] always finds its node). *)
Theorem detect_cycles_reports_cycles (depth : nat) :
  match detect_cycles depth edges with
  | Ok cs => Forall (simple_cycle edges) cs
  | Raised e =>
      e = RecursionError /\ (depth < size (edge_nodes edges))%nat
  end.
Proof.
  destruct (detect_cycles_cases depth) as [[cs Hcs]|[Hr Hd]].
  - rewrite Hcs. by eapply reported_cycles_sound.
  - by rewrite Hr.
Qed.

(** A reported cycle leads from its first crate back to it. *)
Lemma reach_cons (a x b : string) :
  has_edge edges a x -> reach edges x b -> reach edges a b.
Proof.
  intros Hax Hxb. induction Hxb as [x b Hxb|x b c _ IH Hbc].
  - eapply reach_step; [by apply reach_edge | done].
  - eapply reach_step; [exact (IH Hax) | done].
Qed.

Lemma walk_reach (l : list string) :
  forall a b, walk edges (a :: l ++ [b]) -> reach edges a b.
Proof.
  induction l as [|x l IH]; intros a b Hw.
  - destruct Hw as [Hab _]. by apply reach_edge.
  - destruct Hw as [Hax Hw]. eapply reach_cons; [exact Hax | by apply IH].
Qed.

Lemma simple_cycle_not_acyclic (c : list string) :
  simple_cycle edges c -> ~ acyclic edges.
Proof.
  intros (x & mid & -> & _ & Hw) Hac.
  apply (Hac x). by apply (walk_reach mid).
Qed.

End ReportedCycles.

(* ======================================================================= *)
(** * When the detector reports no cycle *)
(* ======================================================================= *)

Section NoCycleReported.

Variable edges : list DependencyEdge.

Lemma graph_keys_from (es : list DependencyEdge) (e : DependencyEdge) :
  forall g,
    e ∈ es ->
    from_crate e
    ∈ map fst (fold_left (fun g e => graph_add (from_crate e) (to_crate e) g)
                 es g).
Proof.
  assert (Hkeep : forall es' g a,
    a ∈ map fst g ->
    a ∈ map fst (fold_left (fun g e => graph_add (from_crate e) (to_crate e) g)
                   es' g)).
  { induction es' as [|e' es' IH]; intros g a Ha; simpl; [done|].
    apply IH, graph_keys_add. by right. }
  induction es as [|e' es IH]; intros g He; [by apply elem_of_nil in He|].
  simpl. apply elem_of_cons in He as [<-|He]; [|by apply IH].
  apply Hkeep, graph_keys_add. by left.
Qed.

Lemma ranked_add (F : gset string) (node : string) :
  ranked edges F -> node ∉ F ->
  (forall w, has_edge edges node w -> w ∈ F) ->
  ranked edges (F ∪ {[ node ]}).
Proof.
  intros [rk Hrk] Hnode Hout.
  set (top := foldr Nat.max 0%nat
                (map rk (graph_get (build_graph edges) node))).
  assert (Htop : forall w, has_edge edges node w -> (rk w <= top)%nat).
  { intros w Hw. apply graph_get_build in Hw. subst top.
    induction (graph_get (build_graph edges) node) as [|x l IH];
      [by apply elem_of_nil in Hw|].
    simpl. apply elem_of_cons in Hw as [->|Hw]; [lia|].
    specialize (IH Hw). lia. }
  exists (fun x => if bool_decide (x = node) then S top else rk x).
  intros u w Hu Huw. apply elem_of_union in Hu as [Hu|Hu].
  - destruct (Hrk u w Hu Huw) as [Hw Hlt].
    split; [set_solver|].
    rewrite (bool_decide_eq_false_2 (w = node)) by (intros ->; done).
    rewrite (bool_decide_eq_false_2 (u = node)) by (intros ->; done).
    done.
  - apply elem_of_singleton in Hu as ->.
    pose proof (Hout w Huw) as Hw. split; [set_solver|].
    rewrite (bool_decide_eq_false_2 (w = node)) by (intros ->; done).
    rewrite bool_decide_eq_true_2 by done.
    specialize (Htop w Huw). lia.
Qed.

Lemma removelast_snoc (l : list string) (x : string) :
  removelast (l ++ [x]) = l.
Proof. by rewrite removelast_last. Qed.

Lemma list_to_set_last (path : list string) (node : string) :
  last path = Some node ->
  list_to_set (C := gset string) path
  = {[ node ]} ∪ list_to_set (removelast path).
Proof.
  intros Hlast. destruct (exists_last (l := path)) as (l & x & ->).
  { by intros ->. }
  rewrite last_snoc in Hlast. injection Hlast as ->.
  rewrite removelast_snoc, list_to_set_app_L. simpl. set_solver.
Qed.

Lemma dfs_neighbors_growing rec (node : string) (path : list string) :
  growing_call rec ->
  forall neighbors st st' r,
    dfs_neighbors rec node path neighbors st = Ok (st', r) ->
    exists extra, cycles st' = cycles st ++ extra.
Proof.
  intros Hrec. induction neighbors as [|nb rest IH]; intros st st' r H;
    simpl in H.
  - case_bool_decide; [|done]. injection H as <- <-. simpl.
    exists []. by rewrite app_nil_r.
  - case_bool_decide.
    + destruct (rec nb (path ++ [nb]) st) as [[st1 r1]|e] eqn:Hcall;
        [|done].
      destruct (Hrec _ _ _ _ _ Hcall) as [extra1 Hex1].
      destruct r1 as [[|x res]|]; eapply IH in H as [extra Hex];
        simpl in Hex; rewrite Hex, Hex1, <- ?app_assoc; by eexists.
    + destruct (_ && _).
      * injection H as <- <-. exists []. by rewrite app_nil_r.
      * by eapply IH.
Qed.

Lemma dfs_growing (depth : nat) : growing_call (dfs depth (build_graph edges)).
Proof.
  induction depth as [|depth IH]; intros node path st st' r H; [done|].
  simpl in H. by apply (dfs_neighbors_growing _ _ _ IH) in H.
Qed.

Lemma dfs_neighbors_clean rec (node : string) (path : list string) :
  growing_call rec -> clean_call edges rec ->
  last path = Some node ->
  forall neighbors st st' r,
    dfs_neighbors rec node path neighbors st = Ok (st', r) ->
    rec_stack st = list_to_set path -> rec_stack st ⊆ visited st ->
    ranked edges (fin st) ->
    (forall w, has_edge edges node w -> w ∈ neighbors \/ w ∈ fin st) ->
    (forall w, w ∈ neighbors -> has_edge edges node w) ->
    cycles st' = [] ->
    (r = None /\ visited st ⊆ visited st'
     /\ rec_stack st' = rec_stack st ∖ {[ node ]}
     /\ ranked edges (fin st'))
    \/ (exists c nb, r = Some c /\ c ≠ [] /\ nb ∈ path
                     /\ has_edge edges node nb).
Proof.
  intros Hgrow Hrec Hlast.
  assert (Hnode : node ∈ path).
  { destruct (exists_last (l := path)) as (l & x & ->); [by intros ->|].
    rewrite last_snoc in Hlast. injection Hlast as ->. set_solver. }
  induction neighbors as [|nb rest IH];
    intros st st' r H Hstack Hsub Hrk Hout Hin Hnone; simpl in H.
  - case_bool_decide as Hn; [|done]. injection H as <- <-. simpl.
    left. split_and!; try done.
    assert (Hfin : fin (mkDfs (cycles st) (visited st)
                          (rec_stack st ∖ {[ node ]}))
                   = fin st ∪ {[ node ]}).
    { unfold fin. simpl. apply set_eq. intros x.
      destruct (decide (x = node)); set_solver. }
    rewrite Hfin. apply ranked_add; [done | unfold fin; set_solver |].
    intros w Hw. destruct (Hout w Hw) as [Hw'|Hw']; [|done].
    by apply elem_of_nil in Hw'.
  - assert (Hrest : forall w, w ∈ rest -> has_edge edges node w)
      by (intros; apply Hin; by right).
    assert (Hedge : has_edge edges node nb) by (apply Hin; left).
    case_bool_decide as Hnew.
    + destruct (rec nb (path ++ [nb]) st) as [[st1 r1]|e] eqn:Hcall;
        [|done].
      assert (Hst1 : cycles st1 = []).
      { destruct r1 as [[|x res]|];
          apply (dfs_neighbors_growing _ _ _ Hgrow) in H as [extra Hex];
          simpl in Hex; rewrite Hnone in Hex; symmetry in Hex;
          apply app_eq_nil in Hex as [Hex _]; [done| |done].
        by apply app_eq_nil in Hex as [_ ?]. }
      destruct (Hrec _ _ _ _ _ Hcall) as
        [(-> & Hv1 & Hnb1 & Hs1 & Hrk1)|(c & nb' & -> & Hc & _)]; try done.
      { by rewrite last_snoc. }
      { by rewrite removelast_snoc. }
      * destruct (IH st1 st' r H) as [(? & ? & ? & ?)|?]; try done.
        -- congruence.
        -- rewrite Hs1. set_solver.
        -- intros w Hw. destruct (Hout w Hw) as [Hw'|Hw'].
           ++ apply elem_of_cons in Hw' as [->|Hw']; [|by left].
              right. unfold fin. rewrite Hs1. set_solver.
           ++ right. unfold fin in *. rewrite Hs1. set_solver.
        -- left. split_and!; try done; [set_solver | congruence].
        -- by right.
      * destruct c as [|x res]; [done|].
        apply (dfs_neighbors_growing _ _ _ Hgrow) in H as [extra Hex].
        simpl in Hex. rewrite Hnone in Hex. symmetry in Hex.
        apply app_eq_nil in Hex as [Hex _].
        by apply app_eq_nil in Hex as [_ ?].
    + destruct (bool_decide (nb ∈ rec_stack st)
                && bool_decide (nb ∈ path)) eqn:Hback.
      * injection H as <- <-. right.
        apply andb_true_iff in Hback as [_ Hp].
        apply bool_decide_eq_true in Hp.
        eexists _, nb. split; [reflexivity|]. split; [|done].
        intros Hc. by apply app_eq_nil in Hc as [_ ?].
      * apply IH in H; try done.
        intros w Hw. destruct (Hout w Hw) as [Hw'|Hw']; [|by right].
        apply elem_of_cons in Hw' as [->|Hw']; [|by left].
        right. unfold fin. apply elem_of_difference. split.
        -- done.
        -- intros Hs. apply andb_false_iff in Hback as [Hb|Hb];
             apply bool_decide_eq_false in Hb; [done|].
           apply Hb. rewrite Hstack in Hs. set_solver.
Qed.

Lemma dfs_clean (depth : nat) : clean_call edges (dfs depth (build_graph edges)).
Proof.
  induction depth as [|depth IH];
    intros node path st st' r H Hnew Hlast Hstack Hsub Hrk Hnone; [done|].
  simpl in H.
  eapply (dfs_neighbors_clean _ _ _ (dfs_growing depth) IH Hlast) in H
    as [(-> & Hv & Hs & Hrk')|?]; try done.
  - simpl in *. left. split_and!; try done; [set_solver..|].
    rewrite Hs. set_solver.
  - by right.
  - simpl. rewrite (list_to_set_last path node Hlast). by rewrite Hstack.
  - simpl. set_solver.
  - assert (Hfin : fin (mkDfs (cycles st) ({[ node ]} ∪ visited st)
                          ({[ node ]} ∪ rec_stack st)) = fin st).
    { unfold fin. simpl. set_solver. }
    by rewrite Hfin.
  - intros w Hw. left. by apply graph_get_build.
  - intros w Hw. by apply graph_get_build.
Qed.

Lemma visit_all_growing (depth : nat) (keys : list string) :
  forall st st',
    visit_all depth (build_graph edges) keys st = Ok st' ->
    exists extra, cycles st' = cycles st ++ extra.
Proof.
  induction keys as [|k keys IH]; intros st st' H; simpl in H.
  - injection H as <-. exists []. by rewrite app_nil_r.
  - case_bool_decide; [|by apply IH].
    destruct (dfs depth (build_graph edges) k [k] st)
      as [[st1 r1]|e] eqn:Hcall; [|done].
    destruct (dfs_growing _ _ _ _ _ _ Hcall) as [extra1 Hex1].
    apply IH in H as [extra Hex].
    rewrite Hex, Hex1, <- app_assoc. by eexists.
Qed.

Hypothesis Hno_loop : Forall (fun e => from_crate e ≠ to_crate e) edges.

Lemma visit_all_clean (depth : nat) (keys : list string) :
  forall st st',
    visit_all depth (build_graph edges) keys st = Ok st' ->
    rec_stack st = ∅ -> ranked edges (fin st) -> cycles st' = [] ->
    rec_stack st' = ∅ /\ ranked edges (fin st')
    /\ visited st ⊆ visited st' /\ (forall k, k ∈ keys -> k ∈ visited st').
Proof.
  induction keys as [|k keys IH]; intros st st' H Hstack Hrk Hnone;
    simpl in H.
  - injection H as <-. split_and!; try done. by intros k ?%elem_of_nil.
  - case_bool_decide as Hnew.
    + destruct (dfs depth (build_graph edges) k [k] st)
        as [[st1 r1]|e] eqn:Hcall; [|done].
      assert (Hst1 : cycles st1 = []).
      { destruct (visit_all_growing _ _ _ _ H) as [extra Hex].
        rewrite Hnone in Hex. symmetry in Hex.
        by apply app_eq_nil in Hex as [? _]. }
      destruct (dfs_clean depth _ _ _ _ _ Hcall) as
        [(-> & Hv1 & Hk1 & Hs1 & Hrk1)|(c & nb & _ & _ & Hnb & Hedge)];
        try done.
      { rewrite Hstack. set_solver. }
      * destruct (IH st1 st' H) as (? & ? & ? & Hkeys); try done;
          [congruence|].
        split_and!; try done; [set_solver|].
        intros k' Hk'. apply elem_of_cons in Hk' as [->|Hk'];
          [set_solver | by apply Hkeys].
      * apply list_elem_of_singleton in Hnb as ->.
        destruct Hedge as (e & He & Hf & Ht).
        rewrite Forall_forall in Hno_loop. destruct (Hno_loop e He).
        congruence.
    + destruct (IH st st' H) as (? & ? & ? & Hkeys); try done.
      split_and!; try done.
      intros k' Hk'. apply elem_of_cons in Hk' as [->|Hk'];
        [|by apply Hkeys].
      set_solver.
Qed.

(** When a run returns without a cycle for a graph without
    self-dependencies, the graph has no cycle. *)
Lemma no_cycle_reported_acyclic (depth : nat) :
  detect_cycles depth edges = Ok [] -> acyclic edges.
Proof.
  unfold detect_cycles. intros H.
  destruct (visit_all _ _ _ _) as [st|e] eqn:Hv; simpl in H; [|done].
  injection H as Hnone.
  destruct (visit_all_clean _ _ _ _ Hv) as (Hs & [rk Hrk] & _ & Hkeys);
    try done.
  { exists (fun _ => 0%nat). intros u w Hu. unfold fin in Hu. simpl in Hu.
    set_solver. }
  apply (acyclic_by_rank edges rk). apply Forall_forall. intros e He.
  assert (Hfrom : from_crate e ∈ fin st).
  { unfold fin. rewrite Hs. apply elem_of_difference. split; [|set_solver].
    apply Hkeys. by apply graph_keys_from. }
  apply (Hrk (from_crate e) (to_crate e) Hfrom). by exists e.
Qed.

End NoCycleReported.

(** X14. For a dependency graph in which no crate depends on itself, a run
    of the cycle detector that returns has an empty list of cycles exactly
    when the graph has no cycle; and a run that does not return raises
    [RecursionError], the edge list naming more crates than the interpreter
    allows nested calls of [dfs]. *)
Theorem detect_cycles_empty_iff_acyclic (depth : nat)
  (edges : list DependencyEdge) :
  Forall (fun e => from_crate e ≠ to_crate e) edges ->
  match detect_cycles depth edges with
  | Ok cs => cs = [] <-> acyclic edges
  | Raised e =>
      e = RecursionError /\ (depth < size (edge_nodes edges))%nat
  end.
Proof.
  intros Hno.
  destruct (detect_cycles_cases edges depth) as [[cs Hcs]|[Hr Hd]];
    [|by rewrite Hr].
  rewrite Hcs. split.
  - intros ->. by eapply no_cycle_reported_acyclic.
  - intros Hac. pose proof (reported_cycles_sound _ _ _ Hcs) as Hsound.
    destruct cs as [|c cs]; [done|].
    apply Forall_cons in Hsound as [Hc _].
    by apply simple_cycle_not_acyclic in Hc.
Qed.

Lemma detect_cycles_empty_iff_acyclic_witness :
  match detect_cycles 996 chain_edges with
  | Ok cs => cs = [] <-> acyclic chain_edges
  | Raised e =>
      e = RecursionError /\ (996 < size (edge_nodes chain_edges))%nat
  end.
Proof.
  apply (detect_cycles_empty_iff_acyclic 996 chain_edges).
  repeat constructor; discriminate.
Defined.

(* ======================================================================= *)
(** * The dependency graph read from cargo metadata *)
(* ======================================================================= *)

Section Endpoints.

Lemma build_graph_endpoints (edges : list DependencyEdge) :
  build_graph edges
  = fold_left (fun g (p : string * string) => graph_add p.1 p.2 g)
              (map endpoints edges) [].
Proof.
  unfold build_graph. generalize (@nil (string * list string)).
  induction edges as [|e edges IH]; intros g; simpl; [done|]. apply IH.
Qed.

Lemma edge_nodes_endpoints (edges : list DependencyEdge) :
  edge_nodes edges
  = list_to_set (flat_map (fun p : string * string => [p.1; p.2])
                          (map endpoints edges)).
Proof.
  unfold edge_nodes. f_equal.
  induction edges as [|e edges IH]; simpl; [done | by rewrite IH].
Qed.

(** X15. The cycle detector reads only the two crates of each edge: edge
    lists that agree on them, whatever the kinds, feature lists and optional
    flags of their edges, give the same result. A cycle through a
    dev-dependency is reported like any other. *)
Theorem detect_cycles_reads_endpoints (depth : nat)
  (edges1 edges2 : list DependencyEdge) :
  map endpoints edges1 = map endpoints edges2 ->
  detect_cycles depth edges1 = detect_cycles depth edges2.
Proof.
  intros H. unfold detect_cycles.
  by rewrite !build_graph_endpoints, H.
Qed.

End Endpoints.

Lemma detect_cycles_reads_endpoints_witness :
  detect_cycles 996 chain_edges
  = detect_cycles 996
      [mkDependencyEdge "app" "core" "dev" ["x"] true;
       mkDependencyEdge "core" "util" "build" [] false;
       mkDependencyEdge "app" "util" "normal" [] true].
Proof.
  apply (detect_cycles_reads_endpoints 996 chain_edges). reflexivity.
Defined.

Section MetadataGraph.

Lemma dict_set_keys {V} (k : string) (v : V) (d : list (string * V))
  (a : string) :
  a ∈ map fst (dict_set k v d) <-> a = k \/ a ∈ map fst d.
Proof.
  induction d as [|[k' v'] d IH]; simpl.
  - set_solver.
  - case_bool_decide; simpl; set_solver.
Qed.

Lemma dict_set_NoDup {V} (k : string) (v : V) (d : list (string * V)) :
  NoDup (map fst d) -> NoDup (map fst (dict_set k v d)).
Proof.
  induction d as [|[k' v'] d IH]; simpl; intros Hnd.
  - apply NoDup_singleton.
  - apply NoDup_cons in Hnd as [Hk' Hnd]. case_bool_decide; simpl.
    + by apply NoDup_cons.
    + apply NoDup_cons. split; [|by apply IH].
      rewrite dict_set_keys. set_solver.
Qed.

Lemma enable_features_keys (name : string) (fs : list string)
  (nodes : list (string * CrateNode)) :
  map fst (enable_features name fs nodes) = map fst nodes.
Proof.
  induction nodes as [|[k n] nodes IH]; simpl; [done|].
  case_bool_decide; simpl; [done | by rewrite IH].
Qed.

Variable metadata : Metadata.

Abbreviation packages_by_id :=
  (fold_left (fun d p => dict_set (pkg_id p) p d) (md_packages metadata) []).

Abbreviation nodes_and_edges :=
  (fold_left (fun (ne : list (string * CrateNode) * list DependencyEdge)
                  (ip : string * Package) =>
                (dict_set (pkg_name ip.2)
                   (node_of (md_workspace_members metadata) ip.1 ip.2) ne.1,
                 ne.2 ++ map (edge_of ip.2) (pkg_dependencies ip.2)))
             packages_by_id ([], [])).

Lemma parse_dependency_graph_unfold :
  map fst (parse_dependency_graph metadata).1 = map fst nodes_and_edges.1
  /\ (parse_dependency_graph metadata).2 = nodes_and_edges.2.
Proof.
  unfold parse_dependency_graph. destruct nodes_and_edges as [nodes edges].
  simpl. split; [|done]. generalize (md_resolve_nodes metadata).
  intros rns. revert nodes.
  induction rns as [|rn rns IH]; intros nodes; simpl; [done|].
  rewrite IH. destruct (Re.match_ _ _); [apply enable_features_keys | done].
Qed.

Lemma packages_by_id_elem_of (ip : string * Package) :
  ip ∈ packages_by_id -> ip.2 ∈ md_packages metadata.
Proof.
  assert (Hgen : forall ps d,
    ip ∈ fold_left (fun d p => dict_set (pkg_id p) p d) ps d ->
    ip ∈ d \/ ip.2 ∈ ps).
  { induction ps as [|p ps IH]; intros d H; simpl in H; [by left|].
    apply IH in H as [H|H]; [|right; by right].
    assert (ip ∈ d \/ ip.2 = p) as [?| ->]; [|by left|right; left].
    clear IH. induction d as [|[k v] d IHd]; simpl in H.
    - apply list_elem_of_singleton in H as ->. by right.
    - case_bool_decide.
      + apply elem_of_cons in H as [->|H]; [by right|].
        left. by right.
      + apply elem_of_cons in H as [->|H]; [left; left|].
        destruct (IHd H); [left; by right | by right]. }
  intros H. apply Hgen in H as [H|H]; [by apply elem_of_nil in H | done].
Qed.

(** What the loop over the packages maintains. *)
Lemma nodes_and_edges_inv :
  NoDup (map fst nodes_and_edges.1)
  /\ Forall (fun e => from_crate e ∈ map fst nodes_and_edges.1
                      /\ e_kind e ≠ EmptyString) nodes_and_edges.2
  /\ (forall name, name ∈ map fst nodes_and_edges.1 ->
        exists p, p ∈ md_packages metadata /\ pkg_name p = name).
Proof.
  apply (fold_left_preserves
           (fun ne : list (string * CrateNode) * list DependencyEdge =>
              NoDup (map fst ne.1)
              /\ Forall (fun e => from_crate e ∈ map fst ne.1
                                  /\ e_kind e ≠ EmptyString) ne.2
              /\ (forall name, name ∈ map fst ne.1 ->
                    exists p, p ∈ md_packages metadata /\ pkg_name p = name))
           (fun ip : string * Package => ip.2 ∈ md_packages metadata)).
  - intros [nodes edges] [id pkg] (Hnd & Hedges & Hnames) Hpkg. simpl in *.
    split; [by apply dict_set_NoDup|]. split.
    + apply Forall_app. split.
      * eapply Forall_impl; [exact Hedges|]. simpl. intros e [? ?].
        split; [|done]. apply dict_set_keys. by right.
      * apply Forall_forall. intros e He.
        apply elem_of_map in He as (dep & -> & _). simpl.
        split; [apply dict_set_keys; by left|].
        destruct (dep_kind dep) as [k|]; [|done]. by case_bool_decide.
    + intros name Hname. apply dict_set_keys in Hname as [->|Hname];
        [by exists pkg | by apply Hnames].
  - apply Forall_forall. intros ip. apply packages_by_id_elem_of.
  - simpl. split; [constructor|]. split; [constructor|].
    by intros name ?%elem_of_nil.
Qed.

(** X16. In the graph read from cargo metadata no two nodes share a name,
    every node stands for a package of the metadata, every edge starts at a
    node, and no edge has an empty kind (a missing, null or empty kind is
    recorded as [normal]); the target of an edge need not be a node. *)
Theorem parse_dependency_graph_wellformed :
  let nodes := (parse_dependency_graph metadata).1 in
  let edges := (parse_dependency_graph metadata).2 in
  NoDup (map fst nodes)
  /\ (forall name, name ∈ map fst nodes ->
        exists p, p ∈ md_packages metadata /\ pkg_name p = name)
  /\ Forall (fun e => from_crate e ∈ map fst nodes
                      /\ e_kind e ≠ EmptyString) edges.
Proof.
  destruct parse_dependency_graph_unfold as [Hk He].
  destruct nodes_and_edges_inv as (Hnd & Hedges & Hnames).
  simpl. rewrite Hk, He. done.
Qed.

Lemma walk_has_next (edges : list DependencyEdge) (l : list string)
  (z x : string) :
  walk edges (l ++ [z]) -> x ∈ l -> exists y, has_edge edges x y.
Proof.
  induction l as [|a l IH]; [by intros _ ?%elem_of_nil|].
  intros Hw Hx. simpl in Hw.
  destruct (l ++ [z]) as [|b l'] eqn:E; [by destruct l|].
  destruct Hw as [Hab Hw].
  apply elem_of_cons in Hx as [->|Hx]; [by exists b | by apply IH].
Qed.

(** X17. When the cycle detector, run on the edges read from cargo metadata,
    returns, every cycle it reports is a cycle of these edges, and every
    crate on it is a node of the graph read from the same metadata. When it
    does not return it raises [RecursionError], and the edges name more
    crates than the interpreter allows nested calls of [dfs]. *)
Theorem metadata_cycles_over_nodes (depth : nat) :
  let nodes := (parse_dependency_graph metadata).1 in
  let edges := (parse_dependency_graph metadata).2 in
  match detect_cycles depth edges with
  | Ok cs =>
      Forall (fun c => simple_cycle edges c
                       /\ Forall (fun x => x ∈ map fst nodes) c) cs
  | Raised e =>
      e = RecursionError /\ (depth < size (edge_nodes edges))%nat
  end.
Proof.
  simpl.
  destruct (detect_cycles_cases (parse_dependency_graph metadata).2 depth)
    as [[cs Hcs]|[Hr Hd]]; [|by rewrite Hr].
  pose proof (reported_cycles_sound _ _ _ Hcs) as Hsound.
  rewrite Hcs.
  eapply Forall_impl; [exact Hsound|]. simpl.
  intros c Hc. split; [done|].
  destruct Hc as (x & mid & -> & _ & Hw).
  destruct parse_dependency_graph_unfold as [Hk He].
  destruct nodes_and_edges_inv as (_ & Hfrom & _).
  rewrite <- He, <- Hk, Forall_forall in Hfrom.
  assert (Hnode : forall a, a ∈ x :: mid ->
            a ∈ map fst (parse_dependency_graph metadata).1).
  { intros a Ha.
    destruct (walk_has_next _ (x :: mid) x a Hw Ha) as (b & e & Hin & <- & _).
    by apply Hfrom. }
  apply Forall_forall. intros a Ha.
  change (x :: mid ++ [x]) with ((x :: mid) ++ [x]) in Ha.
  apply elem_of_app in Ha as [Ha|Ha]; [by apply Hnode|].
  apply list_elem_of_singleton in Ha as ->. apply Hnode. left.
Qed.

End MetadataGraph.

Example sample_metadata_cycle :
  detect_cycles 996 (parse_dependency_graph sample_metadata).2
  = Ok [["core"; "util"; "core"]].
Proof. vm_compute. reflexivity. Qed.

(* ======================================================================= *)
(** * How a run of the pipeline ends *)
(* ======================================================================= *)

Section PipelineOutcome.

Variable hash : string -> Z.
Variable list_of_set : gset string -> list string.
Variable ws : workspace.

Lemma raises_aborts (f : string) : raises ws f = aborts ws f.
Proof.
  unfold raises, aborts, parse_file.
  destruct (ws_read ws f) as [content|]; [|done].
  case_bool_decide as Hne; [done|]. simpl.
  pose proof (extract_symbols_regex_cases content f (ws_crate ws f)) as Hc.
  destruct (gate_on_last_line content); [by rewrite Hc|].
  by destruct Hc as [m ->].
Qed.

Lemma existsb_ext {A} (p q : A -> bool) (l : list A) :
  (forall a, p a = q a) -> existsb p l = existsb q l.
Proof. intros H. induction l as [|a l IH]; simpl; [done|]. by rewrite H, IH. Qed.

(** Phase 7 returns, or it raises [RecursionError] on a dependency graph
    with more crates than nested calls of [dfs] are allowed. *)
Lemma cycle_smells_cases (depth : nat) (edges : list DependencyEdge) :
  (exists cs, cycle_smells depth edges = Ok cs)
  \/ (cycle_smells depth edges = Raised RecursionError
      /\ (depth < size (edge_nodes edges))%nat).
Proof.
  unfold cycle_smells. destruct edges as [|e es]; [left; by eexists|].
  destruct (detect_cycles_cases (e :: es) depth) as [[cs ->]|[-> Hd]].
  - left. by eexists.
  - by right.
Qed.

Lemma parsed_elem_of (l : list string) (f : string) (m : ModuleInfo) :
  (f, m) ∈ flat_map (parsed ws) l
  <-> f ∈ l /\ parse_file ws f = Ok (Some m).
Proof.
  rewrite elem_of_flat_map. unfold parsed. split.
  - intros (g & Hg & H).
    destruct (parse_file ws g) as [[m'|]|] eqn:E;
      try by apply elem_of_nil in H.
    apply list_elem_of_singleton in H as [= -> ->]. done.
  - intros [Hf Hp]. exists f. rewrite Hp. split; [done|].
    apply list_elem_of_here.
Qed.

Lemma parse_file_Some (f : string) (m : ModuleInfo) :
  parse_file ws f = Ok (Some m)
  <-> exists content,
        ws_read ws f = Some content /\ content ≠ EmptyString
        /\ extract_symbols_regex content f (ws_crate ws f) = Ok m.
Proof.
  unfold parse_file. split.
  - destruct (ws_read ws f) as [content|]; [|done].
    case_bool_decide; [done|].
    destruct (extract_symbols_regex _ _ _) as [m'|] eqn:E; [|done].
    simpl. intros [= ->]. by exists content.
  - intros (content & -> & Hne & ->).
    by rewrite bool_decide_eq_false_2.
Qed.

(** X18. One file stops the whole run: for files scanned once each, the
    pipeline raises [IndexError] exactly when some file that can be read and
    is not empty has a feature-gate match on its last line, whatever the
    other files hold. Otherwise the run ends in one of two ways. It returns,
    and the module index has an entry for a path exactly when the path is a
    scanned file that can be read and is not empty, the entry being the
    module extracted from its text. Or phase 7 raises [RecursionError], and
    then the dependency edges name more crates than the interpreter allows
    nested calls of [dfs]. *)
Theorem analyze_workspace_outcome (completion : list string) :
  NoDup completion ->
  if existsb (aborts ws) completion
  then analyze_workspace hash list_of_set ws completion = Raised IndexError
  else match analyze_workspace hash list_of_set ws completion with
       | Ok r =>
           forall f m,
             dict_get f (res_modules r) = Some m
             <-> f ∈ completion
                 /\ exists content,
                      ws_read ws f = Some content
                      /\ content ≠ EmptyString
                      /\ extract_symbols_regex content f (ws_crate ws f)
                         = Ok m
       | Raised e =>
           e = RecursionError
           /\ (ws_depth ws < size (edge_nodes (ws_edges ws)))%nat
       end.
Proof.
  intros Hnd. rewrite (analyze_workspace_unfold _ _ _ _ Hnd).
  rewrite (existsb_ext _ _ _ raises_aborts).
  destruct (existsb (aborts ws) completion); [done|]. simpl.
  destruct (cycle_smells_cases (ws_depth ws) (ws_edges ws))
    as [[cs ->]|[-> Hd]]; [|done].
  simpl. intros f m.
  rewrite dict_get_Some_NoDup by (by apply parsed_keys_NoDup).
  by rewrite parsed_elem_of, parse_file_Some.
Qed.

Lemma ends_with_split (c : ascii) (s : string) :
  ends_with c s = true -> exists p, s = p +:+ String c EmptyString.
Proof.
  induction s as [|a s IH]; [done|]. simpl.
  destruct s as [|b s].
  - intros H. apply Ascii.eqb_eq in H as ->. by exists EmptyString.
  - intros H. destruct (IH H) as [p ->]. by exists (String a p).
Qed.

Lemma merge_modules_returns (completion : list string) :
  existsb (raises ws) completion = false ->
  forall modules, exists ms, merge_modules ws completion modules = Ok ms.
Proof.
  induction completion as [|f rest IH]; intros Hno modules; simpl.
  - by eexists.
  - simpl in Hno. apply orb_false_iff in Hno as [Hf Hrest].
    unfold raises in Hf. destruct (parse_file ws f) as [r|]; [|done].
    simpl. by apply IH.
Qed.


End PipelineOutcome.

Lemma analyze_workspace_outcome_witness :
  match analyze_workspace poly_hash elements two_files
          ["src/a.rs"; "src/b.rs"] with
  | Ok r =>
      forall f m,
        dict_get f (res_modules r) = Some m
        <-> f ∈ ["src/a.rs"; "src/b.rs"]
            /\ exists content,
                 ws_read two_files f = Some content
                 /\ content ≠ EmptyString
                 /\ extract_symbols_regex content f (ws_crate two_files f)
                    = Ok m
  | Raised e =>
      e = RecursionError
      /\ (ws_depth two_files < size (edge_nodes (ws_edges two_files)))%nat
  end.
Proof.
  assert (Hnd : NoDup ["src/a.rs"; "src/b.rs"]).
  { apply NoDup_cons. split; [|apply NoDup_singleton].
    intros Hin. apply list_elem_of_singleton in Hin. discriminate. }
  pose proof (analyze_workspace_outcome poly_hash elements two_files
                ["src/a.rs"; "src/b.rs"] Hnd) as H.
  assert (Hno : existsb (aborts two_files) ["src/a.rs"; "src/b.rs"] = false)
    by (vm_compute; reflexivity).
  rewrite Hno in H. exact H.
Defined.


(* ======================================================================= *)
(** * The symbol index and the metrics *)
(* ======================================================================= *)

Section SymbolIndex.

Lemma index_symbol_lookup (s : Symbol) idx (name : string) :
  default [] (dict_get name (index_symbol s idx))
  = default [] (dict_get name idx)
    ++ (if bool_decide (s_name s = name) then [s] else []).
Proof.
  induction idx as [|[k ss] idx IH]; simpl.
  - case_bool_decide; done.
  - destruct (decide (k = s_name s)) as [->|Hk].
    + rewrite (bool_decide_eq_true_2 (s_name s = s_name s)) by done. simpl.
      case_bool_decide; simpl; [done | by rewrite app_nil_r].
    + rewrite (bool_decide_eq_false_2 (k = s_name s)) by done. simpl.
      destruct (decide (k = name)) as [->|Hkn].
      * rewrite !(bool_decide_eq_true_2 (name = name)) by done.
        rewrite bool_decide_eq_false_2 by congruence. by rewrite app_nil_r.
      * rewrite !(bool_decide_eq_false_2 (k = name)) by done. exact IH.
Qed.

Lemma index_symbol_count (s : Symbol) idx :
  metric_symbols (index_symbol s idx) = metric_symbols idx + 1.
Proof.
  unfold metric_symbols. induction idx as [|[k ss] idx IH]; simpl; [lia|].
  case_bool_decide; simpl; [rewrite length_app; simpl; lia | lia].
Qed.

Lemma index_symbols_lookup (ss : list Symbol) (name : string) :
  forall idx,
    default [] (dict_get name (fold_left (fun idx s => index_symbol s idx)
                                 ss idx))
    = default [] (dict_get name idx) ++ filter (fun s => s_name s = name) ss.
Proof.
  induction ss as [|s ss IH]; intros idx; simpl; [by rewrite app_nil_r|].
  rewrite IH, index_symbol_lookup, filter_cons, <- app_assoc.
  case_decide; [by rewrite bool_decide_eq_true_2
               | by rewrite bool_decide_eq_false_2].
Qed.

Lemma index_symbols_count (ss : list Symbol) :
  forall idx,
    metric_symbols (fold_left (fun idx s => index_symbol s idx) ss idx)
    = metric_symbols idx + Z.of_nat (length ss).
Proof.
  induction ss as [|s ss IH]; intros idx; simpl; [lia|].
  rewrite IH, index_symbol_count. lia.
Qed.

Variable ws : workspace.

(** The symbol index holds the symbols of the files parsed, in the order of
    completion. *)
Lemma merge_symbols_spec (completion : list string) :
  forall idx,
    merge_symbols ws completion idx
    = if existsb (raises ws) completion then Raised IndexError
      else Ok (fold_left (fun idx s => index_symbol s idx)
                 (indexed_symbols (flat_map (parsed ws) completion)) idx).
Proof.
  induction completion as [|f rest IH]; intros idx; simpl; [done|].
  unfold raises at 1, parsed at 1.
  destruct (parse_file_cases ws f) as [->|[->|(m & -> & Hpath)]]; simpl.
  - done.
  - apply IH.
  - rewrite IH. destruct (existsb _ _); [done|].
    unfold indexed_symbols. simpl. by rewrite fold_left_app.
Qed.

(** X20. The symbol index agrees with the module index. When the files are
    scanned once each and the merge loop ends with a module index, it also
    ends with a symbol index; under each name this index lists exactly the
    symbols of that name found in the modules of the module index, in the
    order of the index, and the [symbols] metric is the number of symbols of
    all indexed modules. *)
Theorem symbol_index_agrees (completion : list string)
  (modules : list (string * ModuleInfo)) :
  NoDup completion ->
  merge_modules ws completion [] = Ok modules ->
  exists idx,
    merge_symbols ws completion [] = Ok idx
    /\ (forall name,
          default [] (dict_get name idx)
          = filter (fun s => s_name s = name) (indexed_symbols modules))
    /\ metric_symbols idx = Z.of_nat (length (indexed_symbols modules)).
Proof.
  intros Hnd Hm.
  rewrite (merge_modules_spec ws completion Hnd [])
    in Hm by (intros; apply not_elem_of_nil).
  rewrite merge_symbols_spec.
  destruct (existsb (raises ws) completion); [done|].
  injection Hm as <-. simpl. eexists. split; [reflexivity|]. split.
  - intros name. by rewrite index_symbols_lookup.
  - by rewrite index_symbols_count.
Qed.

End SymbolIndex.

Lemma symbol_index_agrees_witness :
  exists modules idx,
    merge_modules two_files ["src/a.rs"; "src/b.rs"] [] = Ok modules
    /\ merge_symbols two_files ["src/a.rs"; "src/b.rs"] [] = Ok idx
    /\ (forall name,
          default [] (dict_get name idx)
          = filter (fun s => s_name s = name) (indexed_symbols modules))
    /\ metric_symbols idx = Z.of_nat (length (indexed_symbols modules)).
Proof.
  assert (Hnd : NoDup ["src/a.rs"; "src/b.rs"]).
  { apply NoDup_cons. split; [|apply NoDup_singleton].
    intros Hin. apply list_elem_of_singleton in Hin. discriminate. }
  destruct (merge_modules two_files ["src/a.rs"; "src/b.rs"] [])
    as [modules|e] eqn:Hm; [|vm_compute in Hm; discriminate].
  destruct (symbol_index_agrees two_files ["src/a.rs"; "src/b.rs"] modules
              Hnd Hm) as (idx & Hidx & Hlook & Hcount).
  exists modules, idx. split; [reflexivity|]. split; [exact Hidx|].
  split; [exact Hlook | exact Hcount].
Defined.
